(** * PodcastfyService: lifecycle of external podcast-generation workers

    A shallow embedding of the class [PodcastfyService]
    (services/podcastfy-service.ts): the map of active generations, the
    spawning, cancellation and timeout of the Python worker, the decoding of
    its standard output and the events handed to the stream manager.

    Conventions of the embedding.
    - The service object is a record [State]; every method is a function in
      the monad [M], which threads the state and collects the calls made to
      the collaborators (stream manager, logger, file system, child process,
      timers) as a list of [Effect]s, in program order.
    - Objects shared by reference (the [ChildProcess] captured by the
      closures of [setTimeout]) live in a store and are named by a handle.
    - The callbacks of Node (data, exit and error events of a child, timers)
      and the calls of the public interface are the [Event]s of a loop,
      [step]; each handler runs to completion.  The clock behind
      [Date.now()] is the field [now], in milliseconds.
    - Text is a [string] of 8-bit code units; worker output is taken to be
      7-bit text, for which [data.toString('utf8')] is the identity.
    - [JSON.parse] belongs to the JavaScript engine: the service is stated
      over an arbitrary decoder [JSON_parse]; [json_decode] is a concrete
      decoder used to run the service on concrete inputs.
    - JSON numbers are kept as exact decimals [mant * 10 ^ expo]; the
      rounding of the engine to binary floating point is not modelled.
    - A handler answers a [Completion]: it completes, or it throws.  The
      conversion to a string made by a template literal is partial
      ([ToString]): it throws on a decoded object that has a [toString]
      entry of its own.  [writeFile] and [spawn] may throw; whether they
      do is a parameter of the event that starts a generation.
    - Beside the service: the routes of podcast.routes.ts that cancel a
      generation and report its status, and [PodcastMetadataSerializer] with
      the table of themes (types/podcast.ts), on JavaScript values, where a
      [TypeError] is the answer [None].
    - Left out: the environment passed to [spawn], the serialisation of the
      config by [JSON.stringify] (the config is kept as a value), the warning
      logged when [unlink] fails, and the generator of scripts behind the
      route that starts a generation (regular expressions, random choices
      and floating-point arithmetic). *)

From Stdlib Require Import ZArith Ascii String List Lia Bool.
From stdpp Require Import gmap strings list fin_maps.

Set Warnings "-register-all".
Local Open Scope Z_scope.

(* ===================================================================== *)
(** ** Text: the string primitives of the engine used by the service       *)
(* ===================================================================== *)

Module Text.

Definition LF : ascii := "010"%char.
Definition nl : string := String LF "".
Definition dquote : ascii := "034"%char.

(** White space in the sense of [String.prototype.trim], among the code
    units below 256: TAB, LF, VT, FF, CR, SP and NBSP. *)
Definition is_white (c : ascii) : bool :=
  match c with
  | "009" | "010" | "011" | "012" | "013" | " " | "160" => true
  | _ => false
  end%char.

Definition is_LF (c : ascii) : bool :=
  match c with "010"%char => true | _ => false end.

Fixpoint trimStart (s : string) : string :=
  match s with
  | "" => ""
  | String c r => if is_white c then trimStart r else s
  end.

Fixpoint trimEnd (s : string) : string :=
  match s with
  | "" => ""
  | String c r =>
      match trimEnd r with
      | "" => if is_white c then "" else String c ""
      | r' => String c r'
      end
  end.

(** [s.trim()] *)
Definition trim (s : string) : string := trimEnd (trimStart s).

(** [s.split('\n')]: never empty, [''.split('\n')] is [['']]. *)
Fixpoint split_lines (s : string) : list string :=
  match s with
  | "" => [""]
  | String c r =>
      if is_LF c then "" :: split_lines r
      else match split_lines r with
           | l :: ls => String c l :: ls
           | [] => [String c ""]
           end
  end.

(** Truthiness of a string: non-empty. *)
Definition nonempty (s : string) : bool :=
  match s with "" => false | _ => true end.

Fixpoint no_LF (s : string) : bool :=
  match s with
  | "" => true
  | String c r => negb (is_LF c) && no_LF r
  end.

Definition first_black (s : string) : bool :=
  match s with "" => false | String c _ => negb (is_white c) end.

Fixpoint last_black (s : string) : bool :=
  match s with
  | "" => false
  | String c "" => negb (is_white c)
  | String _ r => last_black r
  end.

(** A line as a worker writes it: not empty, no line feed inside, no
    blank at either end. *)
Definition tight (s : string) : bool :=
  no_LF s && first_black s && last_black s.

(** Write a JSON text with apostrophes for the double quotes. *)
Fixpoint json (s : string) : string :=
  match s with
  | "" => ""
  | String c r => String (if Ascii.eqb c "'"%char then dquote else c) (json r)
  end.

(** Decimal numeral of an integer. *)
Definition digit_char (d : Z) : ascii := ascii_of_nat (48 + Z.to_nat d).

Fixpoint digits_go (fuel : nat) (n : Z) (acc : string) : string :=
  match fuel with
  | O => acc
  | S fuel' =>
      let acc' := String (digit_char (n mod 10)) acc in
      if n / 10 =? 0 then acc' else digits_go fuel' (n / 10) acc'
  end.

Definition digits (n : Z) : string :=
  digits_go (S (Z.to_nat (Z.log2 n))) n "".

Definition Z_to_string (z : Z) : string :=
  if z <? 0 then "-" +:+ digits (- z) else digits z.

Fixpoint zeros (n : nat) : string :=
  match n with O => "" | S n' => String "0"%char (zeros n') end.

End Text.
Import Text.

(* ===================================================================== *)
(** ** JavaScript values                                                   *)
(* ===================================================================== *)

(** A number read from a JSON text, as the exact decimal [mant * 10^expo]. *)
Record Number := mkNumber { mant : Z; expo : Z }.

Definition num (z : Z) : Number := mkNumber z 0.

Inductive JSValue :=
| JUndefined
| JNull
| JBool (b : bool)
| JNum (n : Number)
| JStr (s : string)
| JArr (items : list JSValue)
| JObj (fields : list (string * JSValue)).

(** [ToBoolean]: the falsy values are [undefined], [null], [false], zero
    and the empty string. *)
Definition ToBoolean (v : JSValue) : bool :=
  match v with
  | JUndefined | JNull => false
  | JBool b => b
  | JNum n => negb (mant n =? 0)
  | JStr s => nonempty s
  | JArr _ | JObj _ => true
  end.

(** [a || b] *)
Definition js_or (a b : JSValue) : JSValue := if ToBoolean a then a else b.

(** Own property of a decoded object; when a key is repeated in the JSON
    text the last occurrence wins.  Every other non-null value answers
    [undefined] for the keys of the worker protocol. *)
Fixpoint lookup_field (key : string) (fields : list (string * JSValue)) : JSValue :=
  match fields with
  | [] => JUndefined
  | (k, v) :: rest =>
      match lookup_field key rest with
      | JUndefined => if String.eqb k key then v else JUndefined
      | found => found
      end
  end.

Definition get_prop (key : string) (v : JSValue) : JSValue :=
  match v with
  | JObj fields => lookup_field key fields
  | _ => JUndefined
  end.

(** [Number::toString]: strip the trailing zeros of the mantissa, then lay
    the [k] digits out around the decimal point at position [n]. *)
Fixpoint strip_zeros (fuel : nat) (m e : Z) : Z * Z :=
  match fuel with
  | O => (m, e)
  | S fuel' =>
      if (m =? 0) || negb (m mod 10 =? 0) then (m, e)
      else strip_zeros fuel' (m / 10) (e + 1)
  end.

Definition exponent_part (e : Z) : string :=
  "e" +:+ (if e <? 0 then "-" else "+") +:+ digits (Z.abs e).

Definition NumberToString (x : Number) : string :=
  if mant x =? 0 then "0" else
  let '(s, e) := strip_zeros (S (Z.to_nat (Z.log2 (Z.abs (mant x))))) (Z.abs (mant x)) (expo x) in
  let ds := digits s in
  let k := Z.of_nat (String.length ds) in
  let n := k + e in
  let sign := if mant x <? 0 then "-" else "" in
  sign +:+
  (if (k <=? n) && (n <=? 21) then ds +:+ zeros (Z.to_nat (n - k))
   else if (0 <? n) && (n <=? 21) then
     substring 0 (Z.to_nat n) ds +:+ "." +:+
     substring (Z.to_nat n) (Z.to_nat (k - n)) ds
   else if (-6 <? n) && (n <=? 0) then "0." +:+ zeros (Z.to_nat (- n)) +:+ ds
   else if k =? 1 then ds +:+ exponent_part (n - 1)
   else substring 0 1 ds +:+ "." +:+ substring 1 (Z.to_nat (k - 1)) ds
        +:+ exponent_part (n - 1)).

Fixpoint join_comma (parts : list string) : string :=
  match parts with
  | [] => ""
  | [p] => p
  | p :: rest => p +:+ "," +:+ join_comma rest
  end.

(** [key in o], for an object [o] with these own fields: [key] is the
    name of an own property. *)
Definition has_key (key : string) (fields : list (string * JSValue)) : bool :=
  existsb (fun kv => String.eqb kv.1 key) fields.

(** [ToString], as applied by template literals; [None] when it throws a
    [TypeError].  A decoded object is converted by the [toString] it
    inherits, unless it has an own property of that name: the value of
    such a property is no function, the [valueOf] that is tried next
    answers no primitive value, and the conversion throws.  An array is
    converted by joining the conversions of its elements. *)
Fixpoint ToString (v : JSValue) : option string :=
  match v with
  | JUndefined => Some "undefined"
  | JNull => Some "null"
  | JBool true => Some "true"
  | JBool false => Some "false"
  | JNum n => Some (NumberToString n)
  | JStr s => Some s
  | JArr items =>
      join_comma <$> mapM (fun i => match i with
                                    | JUndefined | JNull => Some ""
                                    | _ => ToString i
                                    end) items
  | JObj fields => if has_key "toString" fields then None else Some "[object Object]"
  end.

(* ===================================================================== *)
(** ** A concrete JSON decoder                                             *)
(* ===================================================================== *)

(** [json_decode] follows the JSON grammar (RFC 8259) on 8-bit text:
    [None] stands for the [SyntaxError] thrown by [JSON.parse].  Escapes
    [\uXXXX] above [\u00FF] do not fit the 8-bit code units and are not
    decoded.  The service itself is stated over any decoder; this one
    serves to run it. *)
Module Decoder.

Definition is_json_ws (c : ascii) : bool :=
  match c with
  | " " | "009" | "010" | "013" => true
  | _ => false
  end%char.

Fixpoint skip_ws (s : string) : string :=
  match s with
  | String c r => if is_json_ws c then skip_ws r else s
  | "" => ""
  end.

Definition digit_val (c : ascii) : option Z :=
  let n := Z.of_nat (nat_of_ascii c) in
  if (48 <=? n) && (n <=? 57) then Some (n - 48) else None.

Definition hex_val (c : ascii) : option Z :=
  let n := Z.of_nat (nat_of_ascii c) in
  if (48 <=? n) && (n <=? 57) then Some (n - 48)
  else if (65 <=? n) && (n <=? 70) then Some (n - 55)
  else if (97 <=? n) && (n <=? 102) then Some (n - 87)
  else None.

(** Longest run of digits: its value, its length, the rest. *)
Fixpoint read_digits (s : string) (acc : Z) (len : Z) : Z * Z * string :=
  match s with
  | String c r =>
      match digit_val c with
      | Some d => read_digits r (10 * acc + d) (len + 1)
      | None => (acc, len, s)
      end
  | "" => (acc, len, s)
  end.

(** number = [ - ] int [ . digits ] [ (e|E) [ + | - ] digits ] *)
Definition parse_number (s : string) : option (Number * string) :=
  let '(neg, s1) := match s with
                    | String "-"%char r => (true, r)
                    | _ => (false, s)
                    end in
  let '(i, ilen, s2) := read_digits s1 0 0 in
  let leading_zero := match s1 with String "0"%char _ => true | _ => false end in
  if (ilen =? 0) || (leading_zero && (1 <? ilen)) then None else
  let frac := match s2 with
              | String "."%char r =>
                  let '(m, flen, s3) := read_digits r i 0 in
                  if flen =? 0 then None else Some (m, flen, s3)
              | _ => Some (i, 0, s2)
              end in
  match frac with
  | None => None
  | Some (m, flen, s3) =>
      let sgn := if neg then - m else m in
      match s3 with
      | String c r =>
          if Ascii.eqb c "e" || Ascii.eqb c "E" then
            let '(eneg, r1) := match r with
                               | String "-"%char r' => (true, r')
                               | String "+"%char r' => (false, r')
                               | _ => (false, r)
                               end in
            let '(e, elen, s4) := read_digits r1 0 0 in
            if elen =? 0 then None
            else Some (mkNumber sgn ((if eneg then - e else e) - flen), s4)
          else Some (mkNumber sgn (- flen), s3)
      | "" => Some (mkNumber sgn (- flen), s3)
      end
  end.

Definition escape (c : ascii) : option ascii :=
  match c with
  | "034" => Some "034" | "\" => Some "\" | "/" => Some "/"
  | "b" => Some "008" | "f" => Some "012" | "n" => Some "010"
  | "r" => Some "013" | "t" => Some "009"
  | _ => None
  end%char.

(** The characters of a string up to its closing quote. *)
Fixpoint parse_chars (fuel : nat) (s : string) : option (string * string) :=
  match fuel with
  | O => None
  | S fuel' =>
      match s with
      | "" => None
      | String c r =>
          if Ascii.eqb c dquote then Some ("", r)
          else if Ascii.eqb c "\"%char then
            match r with
            | String "u"%char (String h1 (String h2 (String h3 (String h4 r')))) =>
                match hex_val h1, hex_val h2, hex_val h3, hex_val h4 with
                | Some a, Some b, Some c', Some d =>
                    if (a =? 0) && (b =? 0) then
                      match parse_chars fuel' r' with
                      | Some (t, rest) =>
                          Some (String (ascii_of_nat (Z.to_nat (16 * c' + d))) t, rest)
                      | None => None
                      end
                    else None
                | _, _, _, _ => None
                end
            | String e r' =>
                match escape e, parse_chars fuel' r' with
                | Some x, Some (t, rest) => Some (String x t, rest)
                | _, _ => None
                end
            | "" => None
            end
          else if (nat_of_ascii c <? 32)%nat then None
          else match parse_chars fuel' r with
               | Some (t, rest) => Some (String c t, rest)
               | None => None
               end
      end
  end.

Definition parse_string (s : string) : option (string * string) :=
  match s with
  | String c r => if Ascii.eqb c dquote then parse_chars (S (String.length r)) r else None
  | "" => None
  end.

Definition expect (lit : string) (v : JSValue) (s : string) : option (JSValue * string) :=
  if String.prefix lit s
  then Some (v, substring (String.length lit) (String.length s - String.length lit) s)
  else None.

Section Containers.
Variable parse_value : string -> option (JSValue * string).

(** element *( , element ) ] *)
Fixpoint parse_elements (fuel : nat) (s : string) (acc : list JSValue)
  : option (JSValue * string) :=
  match fuel with
  | O => None
  | S fuel' =>
      match parse_value s with
      | None => None
      | Some (v, r) =>
          match skip_ws r with
          | String ","%char r' => parse_elements fuel' r' (acc ++ [v])
          | String "]"%char r' => Some (JArr (acc ++ [v]), r')
          | _ => None
          end
      end
  end.

(** member *( , member ) } *)
Fixpoint parse_members (fuel : nat) (s : string) (acc : list (string * JSValue))
  : option (JSValue * string) :=
  match fuel with
  | O => None
  | S fuel' =>
      match parse_string (skip_ws s) with
      | None => None
      | Some (k, r) =>
          match skip_ws r with
          | String ":"%char r1 =>
              match parse_value r1 with
              | None => None
              | Some (v, r2) =>
                  match skip_ws r2 with
                  | String ","%char r' => parse_members fuel' r' (acc ++ [(k, v)])
                  | String "}"%char r' => Some (JObj (acc ++ [(k, v)]), r')
                  | _ => None
                  end
              end
          | _ => None
          end
      end
  end.
End Containers.

Fixpoint parse_value (fuel : nat) (s : string) : option (JSValue * string) :=
  match fuel with
  | O => None
  | S fuel' =>
      match skip_ws s with
      | "" => None
      | String c r as s' =>
          if Ascii.eqb c "{"%char then
            match skip_ws r with
            | String "}"%char r' => Some (JObj [], r')
            | _ => parse_members (parse_value fuel') fuel' r []
            end
          else if Ascii.eqb c "["%char then
            match skip_ws r with
            | String "]"%char r' => Some (JArr [], r')
            | _ => parse_elements (parse_value fuel') fuel' r []
            end
          else if Ascii.eqb c dquote then
            match parse_string s' with
            | Some (t, rest) => Some (JStr t, rest)
            | None => None
            end
          else if Ascii.eqb c "t"%char then expect "true" (JBool true) s'
          else if Ascii.eqb c "f"%char then expect "false" (JBool false) s'
          else if Ascii.eqb c "n"%char then expect "null" JNull s'
          else match parse_number s' with
               | Some (n, rest) => Some (JNum n, rest)
               | None => None
               end
      end
  end.

Definition json_decode (s : string) : option JSValue :=
  match parse_value (S (String.length s)) s with
  | Some (v, rest) => match skip_ws rest with "" => Some v | _ => None end
  | None => None
  end.

End Decoder.
Import Decoder.

(* ===================================================================== *)
(** ** The collaborators, as observable effects                            *)
(* ===================================================================== *)

Inductive Signal := SIGTERM | SIGKILL.

Inductive Level := Debug | Info | Warn | Error.

(** The payloads given to [streamManager.broadcast].  [timestamp] is the
    clock reading behind [new Date().toISOString()]. *)
Inductive StreamEvent :=
| ProgressEvent (streaming_id : string) (timestamp : Z)
    (progress : JSValue) (message : string)
| PodcastCompleted (streaming_id : string) (timestamp : Z)
    (audioUrl metadata : JSValue)
| ErrorEvent (error : JSValue) (streamingId : string) (timestamp : Z).

(** What a timer does when it fires: the two closures given to
    [setTimeout]. *)
Inductive TimerCallback :=
| OnTimeout (streamingId : string)
| ForceKill (process : nat).

Inductive Effect :=
| Broadcast (streamingId : string) (event : StreamEvent)
| CloseSession (streamingId : string)
| Log (level : Level) (message : string) (context : string)
| WriteFile (path : string) (config : JSValue)
| Unlink (path : string)
| Spawn (process : nat) (executable : string) (args : list string)
| Kill (process : nat) (signal : Signal)          (* a call of [process.kill] *)
| SetTimeout (handle : nat) (callback : TimerCallback) (ms : Z)
| ClearTimeout (handle : nat).

#[global] Instance Signal_eq_dec : EqDecision Signal.
Proof. solve_decision. Defined.

(** Projections of a trace. *)
Definition broadcasts (t : list Effect) : list (string * StreamEvent) :=
  omap (fun e => match e with Broadcast i ev => Some (i, ev) | _ => None end) t.

Definition unlinks (t : list Effect) : list string :=
  omap (fun e => match e with Unlink p => Some p | _ => None end) t.

Definition cleared (t : list Effect) : list nat :=
  omap (fun e => match e with ClearTimeout h => Some h | _ => None end) t.

Definition kills (t : list Effect) : list (nat * Signal) :=
  omap (fun e => match e with Kill p sg => Some (p, sg) | _ => None end) t.

Definition spawns (t : list Effect) : list nat :=
  omap (fun e => match e with Spawn p _ _ => Some p | _ => None end) t.

Definition staged (t : list Effect) : list string :=
  omap (fun e => match e with WriteFile p _ => Some p | _ => None end) t.

Definition armed (t : list Effect) : list (nat * TimerCallback * Z) :=
  omap (fun e => match e with SetTimeout h cb ms => Some (h, cb, ms) | _ => None end) t.

Definition warnings (t : list Effect) : list string :=
  omap (fun e => match e with Log Warn m _ => Some m | _ => None end) t.

(** Terminal events: [podcast_completed] and [error]. *)
Definition is_terminal (ev : StreamEvent) : bool :=
  match ev with
  | ProgressEvent _ _ _ _ => false
  | PodcastCompleted _ _ _ _ | ErrorEvent _ _ _ => true
  end.

Definition terminal_events (id : string) (t : list Effect) : list StreamEvent :=
  omap (fun e => match e with
                 | Broadcast i ev =>
                     if String.eqb i id && is_terminal ev then Some ev else None
                 | _ => None
                 end) t.

(* ===================================================================== *)
(** ** The state of the service and of its environment                     *)
(* ===================================================================== *)

(** [ChildProcess]: [owner] is the streaming id captured by the handlers
    attached to it; [killed] is set by a successful [kill()]; [exited]
    tells that the OS process is gone and its handle closed. *)
Record ChildProcess := mkChildProcess {
  owner : string;
  killed : bool;
  exited : bool
}.

Record ActiveGeneration := mkActiveGeneration {
  streamingId : string;
  process : nat;
  configFilePath : string;
  startTime : Z;
  timeoutHandle : option nat
}.

Record Env := mkEnv {
  PODCASTFY_URL : option string;
  PYTHON_EXECUTABLE : option string;
  cwd : string;
  tmpdir : string
}.

Record State := mkState {
  activeGenerations : gmap string ActiveGeneration;
  processes : gmap nat ChildProcess;
  timers : gmap nat (Z * TimerCallback);
  next_process : nat;
  next_timer : nat;
  now : Z;
  env : Env
}.

Record PodcastGenerationOptions := mkOptions {
  conversationData : JSValue;
  generationParams : list (string * JSValue)
}.

Definition TIMEOUT_MS : Z := 30 * 60 * 1000.

Definition initial (e : Env) : State :=
  mkState ∅ ∅ ∅ 0 0 0 e.

(* ===================================================================== *)
(** ** The monad of the methods: state and trace                           *)
(* ===================================================================== *)

Definition M (A : Type) : Type := State -> A * State * list Effect.

Definition ret {A} (a : A) : M A := fun s => (a, s, []).

Definition bind {A B} (m : M A) (k : A -> M B) : M B :=
  fun s =>
    let '(a, s1, t1) := m s in
    let '(b, s2, t2) := k a s1 in
    (b, s2, t1 ++ t2).

Declare Scope svc_scope.
Delimit Scope svc_scope with svc.
Notation "'do' x <- m ; k" := (bind m (fun x => k))
  (at level 10, x name, m at level 100, k at level 200) : svc_scope.
Notation "m ;; k" := (bind m (fun _ => k))
  (at level 100, k at level 200, right associativity) : svc_scope.
Local Open Scope svc_scope.

Definition get : M State := fun s => (s, s, []).
Definition modify (f : State -> State) : M unit := fun s => (tt, f s, []).
Definition emit (e : Effect) : M unit := fun s => (tt, s, [e]).

Definition result {A} (x : A * State * list Effect) : A := x.1.1.
Definition state_of {A} (x : A * State * list Effect) : State := x.1.2.
Definition trace {A} (x : A * State * list Effect) : list Effect := x.2.

(** [for (const x of xs) body(x)] *)
Fixpoint for_each {A} (xs : list A) (body : A -> M unit) : M unit :=
  match xs with
  | [] => ret tt
  | x :: rest => body x ;; for_each rest body
  end.

(** State updates. *)
Definition set_active (f : gmap string ActiveGeneration -> gmap string ActiveGeneration)
    (s : State) : State :=
  mkState (f (activeGenerations s)) (processes s) (timers s)
          (next_process s) (next_timer s) (now s) (env s).

Definition set_processes (f : gmap nat ChildProcess -> gmap nat ChildProcess)
    (s : State) : State :=
  mkState (activeGenerations s) (f (processes s)) (timers s)
          (next_process s) (next_timer s) (now s) (env s).

Definition set_timers (f : gmap nat (Z * TimerCallback) -> gmap nat (Z * TimerCallback))
    (s : State) : State :=
  mkState (activeGenerations s) (processes s) (f (timers s))
          (next_process s) (next_timer s) (now s) (env s).

Definition set_now (t : Z) (s : State) : State :=
  mkState (activeGenerations s) (processes s) (timers s)
          (next_process s) (next_timer s) t (env s).

(* ===================================================================== *)
(** ** Primitives of the platform                                          *)
(* ===================================================================== *)

Definition log (l : Level) (msg context : string) : M unit :=
  emit (Log l msg context).

Definition broadcast (id : string) (ev : StreamEvent) : M unit :=
  emit (Broadcast id ev).

(** [setTimeout(cb, ms)]: a fresh handle, due [ms] after the present. *)
Definition setTimeout (cb : TimerCallback) (ms : Z) : M nat :=
  do s <- get;
  let h := next_timer s in
  modify (fun s => mkState (activeGenerations s) (processes s)
                     (<[h := (now s + ms, cb)]> (timers s))
                     (next_process s) (S h) (now s) (env s)) ;;
  emit (SetTimeout h cb ms) ;;
  ret h.

Definition clearTimeout (h : nat) : M unit :=
  modify (set_timers (delete h)) ;;
  emit (ClearTimeout h).

(** [subprocess.killed] *)
Definition is_killed (p : nat) (s : State) : bool :=
  match processes s !! p with
  | Some cp => killed cp
  | None => false
  end.

(** [subprocess.kill(signal)], as Node documents it: while the handle of
    the process is open the signal is sent, [killed] becomes true and the
    call answers [true]; once the process has exited nothing is sent and
    the answer is [false].  [killed] tells that a signal was successfully
    sent by [kill()], not that the process has terminated. *)
Definition kill (p : nat) (sg : Signal) : M bool :=
  do s <- get;
  emit (Kill p sg) ;;
  match processes s !! p with
  | Some cp =>
      if exited cp then ret false
      else modify (set_processes <[p := mkChildProcess (owner cp) true (exited cp)]>) ;;
           ret true
  | None => ret false
  end.

(** [process.env.X || fallback] *)
Definition env_or (v : option string) (fallback : string) : string :=
  match v with
  | Some x => if nonempty x then x else fallback
  | None => fallback
  end.

(** [path.join], on segments that need no normalisation. *)
Fixpoint join (segments : list string) : string :=
  match segments with
  | [] => "."
  | [x] => x
  | x :: rest => x +:+ "/" +:+ join rest
  end.

(* ===================================================================== *)
(** ** PodcastfyService                                                    *)
(* ===================================================================== *)

(** A statement either completes or throws. *)
Inductive Completion := Normal | Throw (error : string).

(** The [error] field of the event of [handleError],
    [errorCode ? `${errorMessage} (${errorCode})` : errorMessage];
    [None] when a conversion of the template throws. *)
Definition error_text (errorMessage errorCode : JSValue) : option JSValue :=
  if ToBoolean errorCode
  then
    m ← ToString errorMessage;
    c ← ToString errorCode;
    Some (JStr (m +:+ " (" +:+ c +:+ ")"))
  else Some errorMessage.

Section Service.

(** [JSON.parse]: [None] when it throws. *)
Variable JSON_parse : string -> option JSValue.

Definition sendProgress (id : string) (message : StreamEvent) : M unit :=
  broadcast id message.

Definition cleanupGeneration (id : string) : M unit :=
  do s <- get;
  match activeGenerations s !! id with
  | None => ret tt
  | Some activeGeneration =>
      match timeoutHandle activeGeneration with
      | Some h => clearTimeout h
      | None => ret tt
      end ;;
      emit (Unlink (configFilePath activeGeneration)) ;;
      modify (set_active (delete id)) ;;
      log Debug "Cleaned up generation" id
  end.

(** [handleError]: the event is built before it is broadcast, so that a
    [TypeError] of its template leaves out the broadcast and the cleanup. *)
Definition handleError (id : string) (errorMessage errorCode : JSValue) : M Completion :=
  log Error "Podcast generation error" id ;;
  match error_text errorMessage errorCode with
  | Some text =>
      do s <- get;
      broadcast id (ErrorEvent text id (now s)) ;;
      cleanupGeneration id ;;
      ret Normal
  | None => ret (Throw "TypeError")
  end.

Definition handleCompletion (id : string) (message : JSValue) : M unit :=
  log Info "Podcast generation completed successfully" id ;;
  do s <- get;
  broadcast id
    (PodcastCompleted id (now s)
       (js_or (get_prop "file_path" message)
              (JStr ("/api/podcasts/" +:+ id +:+ "/audio.m4a")))
       (js_or (get_prop "metadata" message) (JObj []))) ;;
  sendProgress id
    (ProgressEvent id (now s) (JNum (num 100)) "Podcast generation complete!") ;;
  cleanupGeneration id ;;
  emit (CloseSession id).

(** [message.type] throws a [TypeError] on [null]; the [switch] compares
    with [===]; the template of the progress text and the one of
    [handleError] throw when a conversion does. *)
Definition handleProgressMessage (id : string) (message : JSValue) : M Completion :=
  log Debug "Received progress message" id ;;
  match message with
  | JNull | JUndefined => ret (Throw "TypeError")
  | _ =>
      let unknown := log Warn "Unknown progress message type" id ;; ret Normal in
      match get_prop "type" message with
      | JStr type =>
          if String.eqb type "progress" then
            match ToString (js_or (get_prop "step" message) (JStr "Processing")) with
            | Some text =>
                do s <- get;
                sendProgress id
                  (ProgressEvent id (now s)
                     (js_or (get_prop "percent" message) (JNum (num 50)))
                     (text +:+ "...")) ;;
                ret Normal
            | None => ret (Throw "TypeError")
            end
          else if String.eqb type "complete" then
            handleCompletion id message ;; ret Normal
          else if String.eqb type "error" then
            handleError id
              (js_or (get_prop "error" message)
                     (JStr "Unknown error from Python script"))
              (get_prop "code" message)
          else unknown
      | _ => unknown
      end
  end.

(** The lines of a chunk that the loop visits. *)
Definition stdout_lines (data : string) : list string :=
  filter (fun line => nonempty (trim line) = true) (split_lines (trim data)).

Definition handleStdoutData (id : string) (data : string) : M unit :=
  for_each (stdout_lines data) (fun line =>
    match JSON_parse line with
    | Some progressMessage =>
        do c <- handleProgressMessage id progressMessage;
        match c with
        | Normal => ret tt
        | Throw _ => log Warn "Failed to parse JSON progress message" id
        end
    | None => log Warn "Failed to parse JSON progress message" id
    end).

Definition handleStderrData (id : string) (data : string) : M unit :=
  let errorOutput := trim data in
  log Warn "Python process stderr" id ;;
  do s <- get;
  sendProgress id
    (ProgressEvent id (now s) (JNum (num (-1))) ("Debug: " +:+ errorOutput)).

Definition handleProcessExit (id : string) (code : option Z) (signal : option string)
  : M Completion :=
  do s <- get;
  match activeGenerations s !! id with
  | None => ret Normal
  | Some activeGeneration =>
      log Info "Python process exited" id ;;
      match code with
      | Some c =>
          if negb (c =? 0) then
            handleError id
              (JStr ("Python script exited with code " +:+ Z_to_string c +:+
                     match signal with
                     | Some sg => if nonempty sg then " (signal: " +:+ sg +:+ ")" else ""
                     | None => ""
                     end))
              (JStr "PROCESS_EXIT_ERROR")
          else cleanupGeneration id ;; ret Normal
      | None => cleanupGeneration id ;; ret Normal
      end
  end.

Definition handleProcessError (id : string) (message : string) : M Completion :=
  log Error "Python process error" id ;;
  handleError id (JStr ("Process error: " +:+ message)) (JStr "PROCESS_SPAWN_ERROR").

(** The callback of the five-second timer armed by [cancelGeneration]
    and [handleTimeout]; it reads [killed] of the process it captured. *)
Definition forceKill (p : nat) : M unit :=
  do s <- get;
  if negb (is_killed p s) then kill p SIGKILL ;; ret tt else ret tt.

Definition handleTimeout (id : string) : M Completion :=
  log Warn "Podcast generation timed out" id ;;
  do s <- get;
  match activeGenerations s !! id with
  | Some activeGeneration =>
      if negb (is_killed (process activeGeneration) s) then
        kill (process activeGeneration) SIGTERM ;;
        setTimeout (ForceKill (process activeGeneration)) 5000 ;;
        ret tt
      else ret tt
  | None => ret tt
  end ;;
  handleError id (JStr "Podcast generation timed out") (JStr "TIMEOUT_ERROR").

Definition cancelGeneration (id : string) : M bool :=
  do s <- get;
  match activeGenerations s !! id with
  | None =>
      log Warn "Attempted to cancel non-existent generation" id ;;
      ret false
  | Some activeGeneration =>
      log Info "Cancelling podcast generation" id ;;
      (if negb (is_killed (process activeGeneration) s) then
         kill (process activeGeneration) SIGTERM ;;
         setTimeout (ForceKill (process activeGeneration)) 5000 ;;
         ret tt
       else ret tt) ;;
      cleanupGeneration id ;;
      do s' <- get;
      broadcast id (ErrorEvent (JStr "Generation cancelled by user") id (now s')) ;;
      ret true
  end.

Definition getGenerationStatus (id : string) (s : State) : bool * option Z * option Z :=
  match activeGenerations s !! id with
  | None => (false, None, None)
  | Some g => (true, Some (startTime g), Some (now s - startTime g))
  end.

Definition getActiveGenerationCount (s : State) : nat := size (activeGenerations s).

Definition getActiveGenerationIds (s : State) : list string :=
  (map_to_list (activeGenerations s)).*1.

(** [createConfigFile]; [configId] is the value drawn by [uuidv4()], and
    [writeFile] succeeds or rejects with a message. *)
Definition createConfigFile (options : PodcastGenerationOptions) (configId : string)
    (writeFile_error : option string) : M (Completion * string) :=
  do s <- get;
  let path := join [tmpdir (env s); "podcastfy_config_" +:+ configId +:+ ".json"] in
  let config :=
    JObj [("conversation", conversationData options);
          ("params",
           JObj (generationParams options ++
                 [("service_url",
                   js_or (match PODCASTFY_URL (env s) with
                          | Some u => JStr u
                          | None => JUndefined
                          end)
                     (js_or (get_prop "service_url" (JObj (generationParams options)))
                            (JStr "http://localhost:8123")))]))] in
  match writeFile_error with
  | Some msg => ret (Throw msg, path)
  | None =>
      emit (WriteFile path config) ;;
      log Debug "Created config file" path ;;
      ret (Normal, path)
  end.

(** [spawnPythonProcess] together with [setupProcessEventHandlers]: the
    handlers of the new process capture the streaming id.  [spawn_error]
    is the message of the error that [spawn()] throws, if it throws (a
    failure that Node does not report by an [error] event of the child);
    the answer is the new process, or the message thrown. *)
Definition spawnPythonProcess (id path : string) (spawn_error : option string)
  : M (nat + string) :=
  do s <- get;
  let pythonExecutable := env_or (PYTHON_EXECUTABLE (env s)) "python3" in
  let script := join [cwd (env s); "src"; "scripts"; "podcastfy_wrapper.py"] in
  let args := ["--config"; path] ++
              match PODCASTFY_URL (env s) with
              | Some u => if nonempty u then ["--url"; u] else []
              | None => []
              end in
  let p := next_process s in
  log Debug "Spawning Python process" id ;;
  match spawn_error with
  | Some msg => ret (inr msg)
  | None =>
      emit (Spawn p pythonExecutable (script :: args)) ;;
      modify (fun s => mkState (activeGenerations s)
                         (<[p := mkChildProcess id false false]> (processes s))
                         (timers s) (S p) (next_timer s) (now s) (env s)) ;;
      ret (inl p)
  end.

(** [generatePodcast], run to the end of its body: the two [await]s are
    taken without another handler running in between.  The [catch] takes
    what [createConfigFile] and [spawnPythonProcess] throw. *)
Definition generatePodcast (id : string) (options : PodcastGenerationOptions)
    (configId : string) (writeFile_error spawn_error : option string) : M Completion :=
  log Info "Starting podcast generation" id ;;
  do r <- createConfigFile options configId writeFile_error;
  match r with
  | (Throw msg, _) =>
      log Error "Failed to start podcast generation" id ;;
      handleError id (JStr ("Failed to start podcast generation: " +:+ msg)) JUndefined
  | (Normal, path) =>
      do r' <- spawnPythonProcess id path spawn_error;
      match r' with
      | inr msg =>
          log Error "Failed to start podcast generation" id ;;
          handleError id (JStr ("Failed to start podcast generation: " +:+ msg))
            JUndefined
      | inl p =>
          do s <- get;
          modify (set_active <[id := mkActiveGeneration id p path (now s) None]>) ;;
          do h <- setTimeout (OnTimeout id) TIMEOUT_MS;
          modify (set_active <[id := mkActiveGeneration id p path (now s) (Some h)]>) ;;
          ret Normal
      end
  end.

End Service.

(* ===================================================================== *)
(** ** The event loop                                                      *)
(* ===================================================================== *)

(** What can happen to the service: a call of its public interface, an
    event of a child process, a timer that fires, time that passes. *)
Inductive Event :=
| CallGenerate (id : string) (options : PodcastGenerationOptions)
    (configId : string) (writeFile_error spawn_error : option string)
| CallCancel (id : string)
| StdoutData (p : nat) (data : string)
| StderrData (p : nat) (data : string)
| ProcessExit (p : nat) (code : option Z) (signal : option string)
| ProcessError (p : nat) (message : string)
| TimerFires (h : nat)
| Elapse (ms : Z).

Section EventLoop.

Variable JSON_parse : string -> option JSValue.

Definition runTimer (cb : TimerCallback) : M Completion :=
  match cb with
  | OnTimeout id => handleTimeout id
  | ForceKill p => forceKill p ;; ret Normal
  end.

(** One turn of the loop; [None] when the event cannot happen in this
    state (no such process, process already exited, timer not due). *)
Definition step (e : Event) (s : State) : option (State * list Effect) :=
  match e with
  | CallGenerate id options configId werr serr =>
      let r := generatePodcast id options configId werr serr s in
      Some (state_of r, trace r)
  | CallCancel id =>
      let r := cancelGeneration id s in
      Some (state_of r, trace r)
  | StdoutData p data =>
      match processes s !! p with
      | Some cp =>
          let r := handleStdoutData JSON_parse (owner cp) data s in
          Some (state_of r, trace r)
      | None => None
      end
  | StderrData p data =>
      match processes s !! p with
      | Some cp =>
          let r := handleStderrData (owner cp) data s in
          Some (state_of r, trace r)
      | None => None
      end
  | ProcessExit p code signal =>
      match processes s !! p with
      | Some cp =>
          if exited cp then None
          else
            let s1 := set_processes <[p := mkChildProcess (owner cp) (killed cp) true]> s in
            let r := handleProcessExit (owner cp) code signal s1 in
            Some (state_of r, trace r)
      | None => None
      end
  | ProcessError p message =>
      match processes s !! p with
      | Some cp =>
          let r := handleProcessError (owner cp) message s in
          Some (state_of r, trace r)
      | None => None
      end
  | TimerFires h =>
      match timers s !! h with
      | Some (due, cb) =>
          if due <=? now s then
            let r := runTimer cb (set_timers (delete h) s) in
            Some (state_of r, trace r)
          else None
      | None => None
      end
  | Elapse ms =>
      if 0 <=? ms then Some (set_now (now s + ms) s, []) else None
  end.

(** A run of the loop from [s], with the trace it leaves. *)
Fixpoint run (es : list Event) (s : State) : option (State * list Effect) :=
  match es with
  | [] => Some (s, [])
  | e :: rest =>
      match step e s with
      | None => None
      | Some (s1, t1) =>
          match run rest s1 with
          | None => None
          | Some (s2, t2) => Some (s2, t1 ++ t2)
          end
      end
  end.

Definition reachable (s : State) : Prop :=
  exists e es t, run es (initial e) = Some (s, t).

End EventLoop.

Definition env0 : Env := mkEnv None None "/srv/cui" "/tmp".
Definition opts0 : PodcastGenerationOptions := mkOptions (JStr "hello") [].

(* ===================================================================== *)
(** ** Well-formed states                                                  *)
(* ===================================================================== *)

(** The invariant of the loop.  Every active generation is stored under its
    own id, holds a live process that was spawned for that id and has
    received no signal, and owns a pending timer due thirty minutes after
    its start; handles are below the allocation counters; and every pending
    force-kill timer watches a process whose [killed] flag is already
    set. *)
Record wf (s : State) : Prop := mkWf {
  wf_proc : forall id g,
    activeGenerations s !! id = Some g ->
    streamingId g = id /\
    processes s !! process g = Some (mkChildProcess id false false);
  wf_timer : forall id g,
    activeGenerations s !! id = Some g ->
    exists h, timeoutHandle g = Some h /\
              timers s !! h = Some (startTime g + TIMEOUT_MS, OnTimeout id);
  wf_alloc : forall p cp, processes s !! p = Some cp -> (p < next_process s)%nat;
  wf_timer_alloc : forall h x, timers s !! h = Some x -> (h < next_timer s)%nat;
  wf_force : forall h due p,
    timers s !! h = Some (due, ForceKill p) -> is_killed p s = true
}.

(** The invariant around the generation [id] while one of its terminal
    handlers runs: its process may have been signalled or reaped and its
    timer may have fired. *)
Record wf_but (id : string) (s : State) : Prop := mkWfBut {
  wb_proc : forall id' g, id' <> id ->
    activeGenerations s !! id' = Some g ->
    streamingId g = id' /\
    processes s !! process g = Some (mkChildProcess id' false false);
  wb_timer : forall id' g, id' <> id ->
    activeGenerations s !! id' = Some g ->
    exists h, timeoutHandle g = Some h /\
              timers s !! h = Some (startTime g + TIMEOUT_MS, OnTimeout id');
  wb_own : forall g h,
    activeGenerations s !! id = Some g -> timeoutHandle g = Some h ->
    (h < next_timer s)%nat /\
    forall x, timers s !! h = Some x -> x.2 = OnTimeout id;
  wb_alloc : forall p cp, processes s !! p = Some cp -> (p < next_process s)%nat;
  wb_timer_alloc : forall h x, timers s !! h = Some x -> (h < next_timer s)%nat;
  wb_force : forall h due p,
    timers s !! h = Some (due, ForceKill p) -> is_killed p s = true
}.

(** The state left by the escalation of [cancelGeneration] and
    [handleTimeout] on a live process [p] spawned for [id]: [killed] is
    set and the force-kill timer is pending. *)
Definition escalated (p : nat) (id : string) (s : State) : State :=
  mkState (activeGenerations s)
          (<[p := mkChildProcess id true false]> (processes s))
          (<[next_timer s := (now s + 5000, ForceKill p)]> (timers s))
          (next_process s) (S (next_timer s)) (now s) (env s).

(** The state left by a successful [generatePodcast]. *)
Definition started (id path : string) (s : State) : State :=
  mkState (<[id := mkActiveGeneration id (next_process s) path (now s)
                     (Some (next_timer s))]> (activeGenerations s))
          (<[next_process s := mkChildProcess id false false]> (processes s))
          (<[next_timer s := (now s + TIMEOUT_MS, OnTimeout id)]> (timers s))
          (S (next_process s)) (S (next_timer s)) (now s) (env s).

(** The state left by [cleanupGeneration]. *)
Definition cleaned (id : string) (s : State) : State :=
  match activeGenerations s !! id with
  | None => s
  | Some g =>
      set_active (delete id)
        (match timeoutHandle g with
         | Some h => set_timers (delete h) s
         | None => s
         end)
  end.

(** The chunk made of the given lines, each closed by a line feed. *)
Fixpoint unlines (ls : list string) : string :=
  match ls with
  | [] => ""
  | l :: rest => l +:+ nl +:+ unlines rest
  end.

(** The lines joined by line feeds, without the closing one. *)
Fixpoint join_nl (ls : list string) : string :=
  match ls with
  | [] => ""
  | [l] => l
  | l :: rest => l +:+ nl +:+ join_nl rest
  end.

(** What the loop of [handleStdoutData] does with one decoded message. *)
Definition dispatch (id : string) (message : JSValue) : M unit :=
  do c <- handleProgressMessage id message;
  match c with
  | Normal => ret tt
  | Throw _ => log Warn "Failed to parse JSON progress message" id
  end.

(** The body of the loop of [handleStdoutData]: one line of the chunk. *)
Definition visit (JSON_parse : string -> option JSValue) (id line : string) : M unit :=
  match JSON_parse line with
  | Some progressMessage => dispatch id progressMessage
  | None => log Warn "Failed to parse JSON progress message" id
  end.

(** The progress event built from a message of type [progress]; [None]
    when the template of its text throws. *)
Definition progress_event (id : string) (t : Z) (message : JSValue)
  : option StreamEvent :=
  text ← ToString (js_or (get_prop "step" message) (JStr "Processing"));
  Some (ProgressEvent id t
          (js_or (get_prop "percent" message) (JNum (num 50)))
          (text +:+ "...")).

(** The text of the error event built from a message of type [error];
    [None] when its template throws. *)
Definition message_error_text (message : JSValue) : option JSValue :=
  error_text (js_or (get_prop "error" message) (JStr "Unknown error from Python script"))
             (get_prop "code" message).

Definition is_progress (message : JSValue) : bool :=
  match get_prop "type" message with
  | JStr t => String.eqb t "progress"
  | _ => false
  end.

(** A message whose type is none of [progress], [complete], [error]. *)
Definition unknown_type (message : JSValue) : bool :=
  match message with
  | JNull | JUndefined => false
  | _ =>
      match get_prop "type" message with
      | JStr t => negb (String.eqb t "progress" || String.eqb t "complete"
                        || String.eqb t "error")
      | _ => true
      end
  end.

(** The events that one decoded message puts on the stream at time [t]. *)
Definition message_events (id : string) (t : Z) (message : JSValue) : list StreamEvent :=
  match message with
  | JNull | JUndefined => []
  | _ =>
      match get_prop "type" message with
      | JStr type =>
          if String.eqb type "progress" then
            match progress_event id t message with
            | Some ev => [ev]
            | None => []
            end
          else if String.eqb type "complete" then
            [PodcastCompleted id t
               (js_or (get_prop "file_path" message)
                      (JStr ("/api/podcasts/" +:+ id +:+ "/audio.m4a")))
               (js_or (get_prop "metadata" message) (JObj []));
             ProgressEvent id t (JNum (num 100)) "Podcast generation complete!"]
          else if String.eqb type "error" then
            match message_error_text message with
            | Some text => [ErrorEvent text id t]
            | None => []
            end
          else []
      | _ => []
      end
  end.

(* ===================================================================== *)
(** ** Auxiliary definitions of the statements                             *)
(* ===================================================================== *)

(** The trace left by [cleanupGeneration] on an active generation. *)
Definition cleanup_trace (id : string) (g : ActiveGeneration) : list Effect :=
match timeoutHandle g with
| Some h => [ClearTimeout h]
| None => []
end ++ [Unlink (configFilePath g); Log Debug "Cleaned up generation" id].

(** Evaluation of a method body: unfold the monad, reduce the record
  projections, and rewrite with what is known of the lookups. *)
Ltac unfold_m :=
unfold generatePodcast, createConfigFile, spawnPythonProcess,
  cancelGeneration, handleTimeout, handleProcessExit, handleProcessError,
  handleStderrData, handleError, cleanupGeneration, forceKill, cleaned, escalated, started, cleanup_trace,
  error_text, kill, setTimeout, clearTimeout, sendProgress, log, broadcast, emit,
  modify, get, ret, bind, is_killed, set_active, set_processes, set_timers,
  state_of, trace, result.

Ltac cbn_m :=
cbn [activeGenerations processes timers next_process next_timer now env
     owner killed exited negb fst snd app ToBoolean nonempty
     ToString mbind option_bind].

(** Whether the template of the [handleError] of the goal throws. *)
Ltac case_error_text text Et :=
match goal with
| |- context [handleError _ ?a ?b _] => destruct (error_text a b) as [text|] eqn:Et
end.

(** The text of the error synthesised for a non-zero exit code. *)
Definition exit_text (c : Z) (signal : option string) : string :=
  ("Python script exited with code " +:+ Z_to_string c +:+
   match signal with
   | Some sg => if nonempty sg then " (signal: " +:+ sg +:+ ")" else ""
   | None => ""
   end) +:+ " (PROCESS_EXIT_ERROR)".

(** The path of the config file staged by [createConfigFile]. *)
Definition config_path (configId : string) (s : State) : string :=
  join [tmpdir (env s); "podcastfy_config_" +:+ configId +:+ ".json"].

(** The block written out in both [cancelGeneration] and [handleTimeout]:
  SIGTERM now, and a timer that sends SIGKILL five seconds later if
  [killed] is still false then. *)
Definition escalation (p : nat) : M unit :=
do s <- get;
if negb (is_killed p s) then
  kill p SIGTERM ;;
  setTimeout (ForceKill p) 5000 ;;
  ret tt
else ret tt.

(** The ways a generation ends. *)
Inductive Trigger :=
| ByComplete (message : JSValue)
| ByError (message : JSValue)
| ByExit (code : Z) (signal : option string)
| ByCancel
| ByTimeout.

Definition has_type (ty : string) (message : JSValue) : bool :=
match get_prop "type" message with
| JStr t => String.eqb t ty
| _ => false
end.

(** The triggers that end a generation: a message of type [complete], a
  message of type [error] whose error event can be built, an exit with a
  code that is not zero, a cancellation, the timeout. *)
Definition trigger_ok (tr : Trigger) : bool :=
match tr with
| ByComplete m => has_type "complete" m
| ByError m =>
    has_type "error" m &&
    match message_error_text m with Some _ => true | None => false end
| ByExit c _ => negb (c =? 0)
| ByCancel | ByTimeout => true
end.

Definition fire (tr : Trigger) (id : string) : M Completion :=
match tr with
| ByComplete m | ByError m => handleProgressMessage id m
| ByExit c signal => handleProcessExit id (Some c) signal
| ByCancel => cancelGeneration id ;; ret Normal
| ByTimeout => handleTimeout id
end.

(** The events that one line of standard output puts on the stream. *)
Definition line_events (JSON_parse : string -> option JSValue) (id : string) (t : Z)
  (line : string) : list (string * StreamEvent) :=
match JSON_parse line with
| Some m => map (pair id) (message_events id t m)
| None => []
end.

(** One generation ["job-1"] has just been started. *)
Definition s_running : State :=
state_of (generatePodcast "job-1" opts0 "c1" None None (initial env0)).

Definition rec_progress10 : string := json "{'type':'progress','percent':10}".
Definition rec_complete : string := json "{'type':'complete','file_path':'/out/a.bin'}".

(** Records whose text cannot be built: [step], or [error], is an object
    with a [toString] entry of its own. *)
Definition rec_progress_odd : string :=
  json "{'type':'progress','percent':0,'step':{'toString':1}}".
Definition msg_progress_odd : JSValue :=
  JObj [("type", JStr "progress"); ("percent", JNum (num 0));
        ("step", JObj [("toString", JNum (num 1))])].
Definition msg_error_odd : JSValue :=
  JObj [("type", JStr "error"); ("error", JObj [("toString", JNum (num 1))]);
        ("code", JStr "E")].

(** The job ["job-1"] thirty minutes after its start. *)
Definition s_expired : State := set_now TIMEOUT_MS s_running.

(** ["job-1"] has been started and cancelled. *)
Definition s_cancelled : State :=
state_of (cancelGeneration "job-1" s_running).

(* ===================================================================== *)
(** ** The rest of the service, and the routes that call it                *)
(* ===================================================================== *)

(** More projections of a trace. *)
Definition closes (t : list Effect) : list string :=
  omap (fun e => match e with CloseSession i => Some i | _ => None end) t.



(** [cleanup()], the shutdown of the service.  [keys] is the sequence of
    ids that [this.activeGenerations.keys()] yields (the insertion order of
    the JavaScript map, which the finite map of the model does not keep);
    as the iterator of a [Map] does, the loop skips an id that has been
    deleted before its turn.  The executor of each promise runs at once,
    so the cancellations happen inside the loop. *)
Definition cleanup (keys : list string) : M unit :=
  do s <- get;
  log Info "Cleaning up all active podcast generations"
    (Z_to_string (Z.of_nat (size (activeGenerations s)))) ;;
  for_each keys (fun id =>
    do s' <- get;
    match activeGenerations s' !! id with
    | Some _ => cancelGeneration id ;; ret tt
    | None => ret tt
    end) ;;
  log Info "All podcast generations cleaned up" "".

(** The id of the job that an event is about, if any. *)
Definition target (e : Event) (s : State) : option string :=
  match e with
  | CallGenerate id _ _ _ _ | CallCancel id => Some id
  | StdoutData p _ | StderrData p _ | ProcessExit p _ _ | ProcessError p _ =>
      owner <$> processes s !! p
  | TimerFires h =>
      match timers s !! h with
      | Some (_, OnTimeout id) => Some id
      | Some (_, ForceKill p) => owner <$> processes s !! p
      | None => None
      end
  | Elapse _ => None
  end.

(** The config files that a turn leaves behind for good: [1] for a start
    that replaces an active generation, whose file stays where it is, and
    for a start whose file is written but whose process cannot be spawned;
    [0] for any other event. *)
Definition leaks (e : Event) (s : State) : nat :=
  match e with
  | CallGenerate id _ _ None None =>
      match activeGenerations s !! id with
      | Some _ => 1
      | None => 0
      end
  | CallGenerate _ _ _ None (Some _) => 1
  | _ => 0
  end.

(** Every [Unlink] of the trace comes after a [WriteFile] of the same
    path, [known] being the paths written before the trace. *)
Fixpoint unlinks_staged (known : list string) (t : list Effect) : Prop :=
  match t with
  | [] => True
  | Unlink p :: rest => p ∈ known /\ unlinks_staged known rest
  | WriteFile p _ :: rest => unlinks_staged (p :: known) rest
  | _ :: rest => unlinks_staged known rest
  end.

(** A string of blanks only (the empty string included). *)
Fixpoint all_white (s : string) : bool :=
  match s with
  | "" => true
  | String c r => is_white c && all_white r
  end.

(** The routes of the router that call the service (podcast.routes.ts):
    the answer of a handler is its HTTP status and its JSON body.  The
    calls of the service made here complete normally, so that the [catch]
    branch of a handler (status 500) is not taken; the log entries carry
    the streaming id. *)
Record Response := mkResponse { status : nat; body : JSValue }.

(** [DELETE /api/podcast/:streamingId] *)
Definition route_delete (id : string) : M Response :=
  log Debug "Podcast cancellation request" id ;;
  do cancelled <- cancelGeneration id;
  if cancelled
  then ret (mkResponse 200
              (JObj [("success", JBool true);
                     ("message", JStr "Podcast generation cancelled");
                     ("streamingId", JStr id)]))
  else ret (mkResponse 404
              (JObj [("error", JStr "No active generation found for this streaming ID");
                     ("streamingId", JStr id)])).

(** [GET /api/podcast/:streamingId/status] *)
Definition route_status (id : string) : M Response :=
  log Debug "Generation status request" id ;;
  do s <- get;
  ret (mkResponse 200
         (JObj ([("success", JBool true); ("streamingId", JStr id)] ++
                match getGenerationStatus id s with
                | (active, Some start, Some duration) =>
                    [("active", JBool active); ("startTime", JNum (num start));
                     ("duration", JNum (num duration))]
                | (active, _, _) => [("active", JBool active)]
                end))).


(** What a handler that works for the generation [id] in the state [s]
    does when it sends no signal and starts nothing: it logs, it writes to
    the stream of [id], and it releases what the generation holds. *)
Definition local_effect (id : string) (s : State) (e : Effect) : Prop :=
  match e with
  | Log _ _ _ => True
  | Broadcast i _ | CloseSession i => i = id
  | Unlink p => exists g, activeGenerations s !! id = Some g /\ p = configFilePath g
  | ClearTimeout h =>
      exists g, activeGenerations s !! id = Some g /\ timeoutHandle g = Some h
  | Kill _ _ | WriteFile _ _ | Spawn _ _ _ | SetTimeout _ _ _ => False
  end.

(** What one turn of the loop does, from [s] to [s'], for the job [tgt]
    that its event is about. *)
Definition step_effect (tgt : option string) (s s' : State) (e : Effect) : Prop :=
  match e with
  | Log _ _ _ | SetTimeout _ _ _ => True
  | Broadcast i _ | CloseSession i => tgt = Some i
  | Unlink p =>
      exists id g, tgt = Some id /\ activeGenerations s !! id = Some g /\
                   p = configFilePath g
  | ClearTimeout h =>
      exists id g, tgt = Some id /\ activeGenerations s !! id = Some g /\
                   timeoutHandle g = Some h
  | Kill p sg =>
      sg = SIGTERM /\
      exists id g, tgt = Some id /\ activeGenerations s !! id = Some g /\
                   p = process g
  | WriteFile p _ => exists id, tgt = Some id
  | Spawn p _ _ =>
      exists id g, tgt = Some id /\ activeGenerations s' !! id = Some g /\
                   p = process g
  end.


(* ===================================================================== *)
(** ** PodcastMetadataSerializer and the themes (types/podcast.ts)         *)
(* ===================================================================== *)

(** [v == null] *)
Definition is_nullish (v : JSValue) : bool :=
  match v with
  | JUndefined | JNull => true
  | _ => false
  end.

(** [xs.map(f)]: [xs] has to be an array, and [f] may throw. *)
Definition array_map (f : JSValue -> option JSValue) (xs : JSValue) : option JSValue :=
  match xs with
  | JArr items => JArr <$> mapM f items
  | _ => None
  end.

Definition PODCAST_THEMES : JSValue :=
  JObj
    [("default",
      JObj [("name", JStr "default");
            ("displayName", JStr "Default");
            ("colors", JObj [("primary", JStr "#3B82F6");
                             ("secondary", JStr "#8B5CF6");
                             ("background", JStr "#FFFFFF");
                             ("text", JStr "#1F2937")]);
            ("typography", JObj [("fontFamily", JStr "Inter, sans-serif");
                                 ("fontSize", JStr "16px")]);
            ("voiceSettings", JObj [("speed", JNum (num 1));
                                    ("pitch", JNum (num 0));
                                    ("emphasis", JStr "medium")])]);
     ("minimalist",
      JObj [("name", JStr "minimalist");
            ("displayName", JStr "Minimalist");
            ("colors", JObj [("primary", JStr "#000000");
                             ("secondary", JStr "#666666");
                             ("background", JStr "#F8FAFC");
                             ("text", JStr "#0F172A")]);
            ("typography", JObj [("fontFamily", JStr "system-ui, sans-serif");
                                 ("fontSize", JStr "14px")]);
            ("voiceSettings", JObj [("speed", JNum (mkNumber 11 (-1)));
                                    ("pitch", JNum (num (-2)));
                                    ("emphasis", JStr "low")])]);
     ("professional",
      JObj [("name", JStr "professional");
            ("displayName", JStr "Professional");
            ("colors", JObj [("primary", JStr "#1E40AF");
                             ("secondary", JStr "#DC2626");
                             ("background", JStr "#FFFFFF");
                             ("text", JStr "#111827");
                             ("accent", JStr "#059669")]);
            ("typography", JObj [("fontFamily", JStr "Roboto, sans-serif");
                                 ("fontSize", JStr "16px")]);
            ("voiceSettings", JObj [("speed", JNum (mkNumber 95 (-2)));
                                    ("pitch", JNum (num 1));
                                    ("emphasis", JStr "medium")])]);
     ("casual",
      JObj [("name", JStr "casual");
            ("displayName", JStr "Casual");
            ("colors", JObj [("primary", JStr "#F59E0B");
                             ("secondary", JStr "#EC4899");
                             ("background", JStr "#FEF3C7");
                             ("text", JStr "#92400E")]);
            ("typography", JObj [("fontFamily", JStr "Nunito, sans-serif");
                                 ("fontSize", JStr "16px")]);
            ("voiceSettings", JObj [("speed", JNum (mkNumber 105 (-2)));
                                    ("pitch", JNum (num 3));
                                    ("emphasis", JStr "high")])])].

(** The themes of the table, under their keys. *)
Definition themes : list (string * JSValue) :=
  match PODCAST_THEMES with
  | JObj fields => fields
  | _ => []
  end.

Module PodcastMetadataSerializer.

(** The body of the first [map] of [serialize]; [speaker.name] throws
    when [speaker] is [null] or [undefined]. *)
Definition serialize_speaker (speaker : JSValue) : option JSValue :=
  if is_nullish speaker then None
  else Some (JObj [("name", get_prop "name" speaker);
                   ("voice", get_prop "voice" speaker);
                   ("role", js_or (get_prop "role" speaker) (JStr "host"));
                   ("personality",
                    js_or (get_prop "personality" speaker) (JStr "casual"))]).

(** The body of the second [map] of [serialize]. *)
Definition serialize_chapter (chapter : JSValue) : option JSValue :=
  if is_nullish chapter then None
  else Some (JObj [("title", get_prop "title" chapter);
                   ("startTime", get_prop "startTime" chapter);
                   ("duration", get_prop "duration" chapter);
                   ("description", get_prop "description" chapter);
                   ("topics", js_or (get_prop "topics" chapter) (JArr []));
                   ("keyPoints", js_or (get_prop "keyPoints" chapter) (JArr []))]).

(** [serialize(metadata)]; [None] when it throws a [TypeError]. *)
Definition serialize (metadata : JSValue) : option JSValue :=
  if is_nullish metadata then None
  else
    speakers ← array_map serialize_speaker (get_prop "speakers" metadata);
    chapters ← array_map serialize_chapter (get_prop "chapters" metadata);
    let theme := get_prop "theme" metadata in
    if is_nullish theme then None
    else
      Some (JObj
        [("title", get_prop "title" metadata);
         ("description", get_prop "description" metadata);
         ("language", get_prop "language" metadata);
         ("duration", get_prop "duration" metadata);
         ("createdAt", get_prop "createdAt" metadata);
         ("speakers", speakers);
         ("chapters", chapters);
         ("theme",
          JObj [("name", get_prop "name" theme);
                ("displayName", get_prop "displayName" theme);
                ("colors", get_prop "colors" theme);
                ("typography", get_prop "typography" theme);
                ("voiceSettings", get_prop "voiceSettings" theme)]);
         ("technical",
          JObj [("format", get_prop "format" metadata);
                ("bitrate", get_prop "bitrate" metadata);
                ("sampleRate", get_prop "sampleRate" metadata);
                ("channels", get_prop "channels" metadata);
                ("fileSize", get_prop "fileSize" metadata)]);
         ("content",
          JObj [("topics", js_or (get_prop "topics" metadata) (JArr []));
                ("tags", js_or (get_prop "tags" metadata) (JArr []));
                ("category", get_prop "category" metadata);
                ("difficulty",
                 js_or (get_prop "difficulty" metadata) (JStr "intermediate"))]);
         ("generation",
          JObj [("id", get_prop "generationId" metadata);
                ("version", get_prop "version" metadata);
                ("processingTime", get_prop "processingTime" metadata)])]).

(** [createMetadata(...)]; [createdAt] is the text of
    [new Date().toISOString()]. *)
Definition createMetadata (title language duration speakers chapters theme
    generationId : JSValue) (createdAt : string) : JSValue :=
  JObj [("title", title);
        ("language", language);
        ("duration", duration);
        ("speakers", speakers);
        ("chapters", chapters);
        ("theme", theme);
        ("format", JStr "mp3");
        ("channels", JNum (num 2));
        ("createdAt", JStr createdAt);
        ("generationId", generationId);
        ("version", JStr "1.0.0")].

(** The names that every object inherits from [Object.prototype]: under
    one of them [PODCAST_THEMES[themeName]] is a member of the prototype,
    which is no theme and no value of the model. *)
Definition Object_prototype_names : list string :=
  ["constructor"; "__defineGetter__"; "__defineSetter__"; "hasOwnProperty";
   "__lookupGetter__"; "__lookupSetter__"; "isPrototypeOf"; "propertyIsEnumerable";
   "toString"; "valueOf"; "__proto__"; "toLocaleString"].

(** [getTheme(themeName)]; [None] for the inherited names. *)
Definition getTheme (themeName : string) : option JSValue :=
  if bool_decide (themeName ∈ Object_prototype_names) then None
  else Some (js_or (get_prop themeName PODCAST_THEMES)
                   (get_prop "default" PODCAST_THEMES)).

Definition required : list string :=
  ["title"; "language"; "duration"; "speakers"; "chapters"; "theme"].

(** [validate(metadata)]; [field in metadata] throws a [TypeError] when
    [metadata] is no object; no key of [required] is inherited from
    [Object.prototype], and none is an index or a member of an array. *)
Definition validate (metadata : JSValue) : option bool :=
  match metadata with
  | JObj fields =>
      Some (forallb (fun field =>
                       has_key field fields &&
                       negb (is_nullish (lookup_field field fields)))
                    required)
  | JArr _ => Some false
  | _ => None
  end.

End PodcastMetadataSerializer.


(* ===================================================================== *)
(** ** The primitives on examples                                          *)
(* ===================================================================== *)

Example trim_ex : trim (" a b " +:+ nl) = "a b".
Proof. reflexivity. Qed.

Example split_ex : split_lines ("a" +:+ nl +:+ nl +:+ "b") = ["a"; ""; "b"].
Proof. reflexivity. Qed.

Example Z_to_string_ex : Z_to_string 1800000 = "1800000" /\ Z_to_string (-1) = "-1".
Proof. vm_compute. split; reflexivity. Qed.

Example NumberToString_ex :
  map NumberToString
    [num 10; num (-1); mkNumber 125 (-1); mkNumber 5 (-3); mkNumber 1 21;
     mkNumber 15 (-8); mkNumber 1200 0; mkNumber 0 5]
  = ["10"; "-1"; "12.5"; "0.005"; "1e+21"; "1.5e-7"; "1200"; "0"].
Proof. vm_compute. reflexivity. Qed.

Example ToString_ex :
  ToString (JArr [JNum (num 1); JNull; JStr "a"; JArr [JBool true]]) = Some "1,,a,true".
Proof. vm_compute. reflexivity. Qed.

Example json_decode_record :
  json_decode (json "{'type':'progress','percent':10}")
  = Some (JObj [("type", JStr "progress"); ("percent", JNum (num 10))]).
Proof. vm_compute. reflexivity. Qed.

Example json_decode_nested :
  json_decode (json " {'a' : [1, 2.5, -3e2, true, null, 'x\nA'], 'a' : {}} ")
  = Some (JObj [("a", JArr [JNum (num 1); JNum (mkNumber 25 (-1));
                            JNum (mkNumber (-3) 2); JBool true; JNull;
                            JStr ("x" +:+ nl +:+ "A")]);
                ("a", JObj [])]).
Proof. vm_compute. reflexivity. Qed.

Example json_decode_rejects :
  map json_decode
    [json "{'type':'progr"; json "ess','percent':10}"; "not json"; "01";
     "[1,]"; json "{'a':1} x"; "nully"; ""; "1."; json "'a"]
  = [None; None; None; None; None; None; None; None; None; None].
Proof. vm_compute. reflexivity. Qed.

(* ===================================================================== *)
(** ** Lemmas on text                                                      *)
(* ===================================================================== *)

Section TextLemmas.

Lemma app_cons c (a b : string) : String c a +:+ b = String c (a +:+ b).
Proof. reflexivity. Qed.

Lemma app_empty (b : string) : "" +:+ b = b.
Proof. reflexivity. Qed.

Lemma app_nil_r_str (a : string) : a +:+ "" = a.
Proof.
  induction a as [|c a IH]; [reflexivity|]. now rewrite app_cons, IH.
Qed.

Lemma app_assoc_str (a b c : string) : (a +:+ b) +:+ c = a +:+ b +:+ c.
Proof.
  induction a as [|x a IH]; [reflexivity|]. now rewrite !app_cons, IH.
Qed.

Lemma trimStart_black s : first_black s = true -> trimStart s = s.
Proof.
  destruct s as [|c r]; simpl; [discriminate|].
  intros H. apply negb_true_iff in H. now rewrite H.
Qed.

Lemma first_black_app a b : first_black a = true -> first_black (a +:+ b) = true.
Proof. destruct a; [discriminate|]. rewrite app_cons. auto. Qed.

Lemma trimEnd_black s : last_black s = true -> trimEnd s = s.
Proof.
  induction s as [|c r IH]; simpl; [discriminate|].
  destruct r as [|c' r'].
  - simpl. intros H. apply negb_true_iff in H. now rewrite H.
  - intros H. rewrite (IH H). reflexivity.
Qed.

(** [trimEnd] of a concatenation is decided by its right part. *)
Lemma trimEnd_app a b :
  trimEnd (a +:+ b) = match trimEnd b with
                      | "" => trimEnd a
                      | b' => a +:+ b'
                      end.
Proof.
  induction a as [|c a IH].
  - rewrite app_empty. destruct (trimEnd b); reflexivity.
  - rewrite app_cons. simpl. rewrite IH.
    destruct (trimEnd b); [reflexivity|]. destruct a; reflexivity.
Qed.

Lemma split_lines_noLF a : no_LF a = true -> split_lines a = [a].
Proof.
  induction a as [|c a IH]; simpl; [reflexivity|].
  intros H. apply andb_true_iff in H as [Hc Ha].
  apply negb_true_iff in Hc. rewrite Hc, (IH Ha). reflexivity.
Qed.

Lemma split_lines_app a b :
  no_LF a = true -> split_lines (a +:+ nl +:+ b) = a :: split_lines b.
Proof.
  induction a as [|c a IH]; [reflexivity|].
  rewrite app_cons. simpl.
  intros H. apply andb_true_iff in H as [Hc Ha].
  apply negb_true_iff in Hc. rewrite Hc, (IH Ha). reflexivity.
Qed.

Lemma tight_inv l :
  tight l = true -> no_LF l = true /\ first_black l = true /\ last_black l = true.
Proof.
  unfold tight. intros H.
  apply andb_true_iff in H as [H H3]. apply andb_true_iff in H as [H1 H2]. auto.
Qed.

Lemma tight_trim l : tight l = true -> trim l = l.
Proof.
  intros H. apply tight_inv in H as (_ & H1 & H2).
  unfold trim. rewrite (trimStart_black _ H1). now apply trimEnd_black.
Qed.

Lemma tight_nonempty l : tight l = true -> nonempty l = true.
Proof.
  intros H. apply tight_inv in H as (_ & H1 & _). destruct l; [discriminate | reflexivity].
Qed.

Lemma join_nl_nonempty l ls :
  tight l = true -> nonempty (join_nl (l :: ls)) = true.
Proof.
  intros H. pose proof (tight_nonempty _ H) as Hn.
  destruct l; [discriminate|]. destruct ls; reflexivity.
Qed.

Lemma trimEnd_unlines ls :
  Forall (fun l => tight l = true) ls -> trimEnd (unlines ls) = join_nl ls.
Proof.
  induction 1 as [|l ls Hl Hls IH]; [reflexivity|].
  change (unlines (l :: ls)) with (l +:+ nl +:+ unlines ls).
  rewrite trimEnd_app.
  change (nl +:+ unlines ls) with (String LF (unlines ls)).
  simpl trimEnd at 1. rewrite IH.
  destruct Hls as [|l2 ls2 Hl2 Hls2].
  - simpl. apply trimEnd_black. now apply tight_inv in Hl.
  - pose proof (join_nl_nonempty l2 ls2 Hl2) as Hn.
    change (join_nl (l :: l2 :: ls2)) with (l +:+ nl +:+ join_nl (l2 :: ls2)).
    destruct (join_nl (l2 :: ls2)) eqn:E; [discriminate|]. reflexivity.
Qed.

Lemma trim_unlines ls :
  Forall (fun l => tight l = true) ls -> trim (unlines ls) = join_nl ls.
Proof.
  intros H. unfold trim. rewrite <- (trimEnd_unlines ls H). f_equal.
  destruct H as [|l ls Hl Hls]; [reflexivity|].
  apply trimStart_black.
  change (unlines (l :: ls)) with (l +:+ nl +:+ unlines ls).
  apply first_black_app. now apply tight_inv in Hl.
Qed.

Lemma split_join_nl l ls :
  Forall (fun l => no_LF l = true) (l :: ls) -> split_lines (join_nl (l :: ls)) = l :: ls.
Proof.
  revert l. induction ls as [|l2 ls IH]; intros l H.
  - simpl. apply split_lines_noLF. now inversion H.
  - inversion H as [|? ? Hl Hrest]; subst.
    change (join_nl (l :: l2 :: ls)) with (l +:+ nl +:+ join_nl (l2 :: ls)).
    rewrite (split_lines_app _ _ Hl), (IH _ Hrest). reflexivity.
Qed.

Lemma stdout_lines_unlines ls :
  Forall (fun l => tight l = true) ls -> stdout_lines (unlines ls) = ls.
Proof.
  intros H. unfold stdout_lines. rewrite (trim_unlines ls H).
  destruct ls as [|l ls]; [reflexivity|].
  rewrite split_join_nl.
  - induction H as [|x xs Hx Hxs IH]; [reflexivity|].
    rewrite filter_cons_True, IH; [reflexivity|].
    rewrite (tight_trim _ Hx). now apply tight_nonempty.
  - eapply Forall_impl; [exact H|]. intros x Hx. now apply tight_inv in Hx.
Qed.

End TextLemmas.

(* ===================================================================== *)
(** ** Lemmas on the methods                                               *)
(* ===================================================================== *)

Section MethodLemmas.

Lemma cleanup_inactive id s :
  activeGenerations s !! id = None -> cleanupGeneration id s = (tt, s, []).
Proof. intros H. unfold cleanupGeneration, bind, get. now rewrite H. Qed.

Lemma cleanup_active id s g :
  activeGenerations s !! id = Some g ->
  cleanupGeneration id s = (tt, cleaned id s, cleanup_trace id g).
Proof.
  intros H. unfold cleanupGeneration, cleaned, cleanup_trace, bind, get. rewrite H.
  destruct (timeoutHandle g); reflexivity.
Qed.

Lemma cleanup_state id s : state_of (cleanupGeneration id s) = cleaned id s.
Proof.
  destruct (activeGenerations s !! id) as [g|] eqn:E.
  - now rewrite (cleanup_active _ _ _ E).
  - rewrite (cleanup_inactive _ _ E). unfold cleaned. now rewrite E.
Qed.

Lemma cleaned_active id s :
  activeGenerations (cleaned id s) = delete id (activeGenerations s).
Proof.
  unfold cleaned. destruct (activeGenerations s !! id) as [g|] eqn:E.
  - destruct (timeoutHandle g); reflexivity.
  - symmetry. now apply delete_id.
Qed.

Lemma cleaned_inactive id s : activeGenerations (cleaned id s) !! id = None.
Proof. rewrite cleaned_active. apply lookup_delete_eq. Qed.

Lemma cleaned_processes id s : processes (cleaned id s) = processes s.
Proof.
  unfold cleaned. destruct (activeGenerations s !! id) as [g|]; [|reflexivity].
  destruct (timeoutHandle g); reflexivity.
Qed.

Lemma cleaned_now id s : now (cleaned id s) = now s.
Proof.
  unfold cleaned. destruct (activeGenerations s !! id) as [g|]; [|reflexivity].
  destruct (timeoutHandle g); reflexivity.
Qed.

Lemma cleaned_idem id s : cleaned id (cleaned id s) = cleaned id s.
Proof. unfold cleaned at 1. now rewrite cleaned_inactive. Qed.

Lemma handleError_eq id m c text s :
  error_text m c = Some text ->
  handleError id m c s
  = (Normal, cleaned id s,
     [Log Error "Podcast generation error" id;
      Broadcast id (ErrorEvent text id (now s))]
     ++ trace (cleanupGeneration id s)).
Proof.
  intros H. unfold handleError. rewrite H. unfold bind, get, log, broadcast, emit, ret.
  rewrite <- cleanup_state.
  destruct (cleanupGeneration id s) as [[[] s'] t].
  unfold state_of, trace. cbn [fst snd app]. now rewrite app_nil_r.
Qed.

Lemma handleError_throw id m c s :
  error_text m c = None ->
  handleError id m c s
  = (Throw "TypeError", s, [Log Error "Podcast generation error" id]).
Proof. intros H. unfold handleError. rewrite H. reflexivity. Qed.

(** Strings are converted as they are. *)
Lemma error_text_code a c :
  ToBoolean c = true ->
  forall x, ToString c = Some x ->
  error_text (JStr a) c = Some (JStr (a +:+ " (" +:+ x +:+ ")")).
Proof. intros H x Hx. unfold error_text. rewrite H. cbn. rewrite Hx. reflexivity. Qed.

Lemma error_text_nocode m c : ToBoolean c = false -> error_text m c = Some m.
Proof. intros H. unfold error_text. now rewrite H. Qed.

(** The calls of [handleError] made by the service itself pass strings. *)
Lemma handleError_str id a c s :
  nonempty c = true ->
  handleError id (JStr a) (JStr c) s
  = (Normal, cleaned id s,
     [Log Error "Podcast generation error" id;
      Broadcast id (ErrorEvent (JStr (a +:+ " (" +:+ c +:+ ")")) id (now s))]
     ++ trace (cleanupGeneration id s)).
Proof. intros H. apply handleError_eq, error_text_code; [exact H | reflexivity]. Qed.

Lemma handleError_plain id a s :
  handleError id (JStr a) JUndefined s
  = (Normal, cleaned id s,
     [Log Error "Podcast generation error" id;
      Broadcast id (ErrorEvent (JStr a) id (now s))]
     ++ trace (cleanupGeneration id s)).
Proof. now apply handleError_eq. Qed.

Lemma handleError_state id m c s :
  state_of (handleError id m c s) = s \/ state_of (handleError id m c s) = cleaned id s.
Proof.
  destruct (error_text m c) as [text|] eqn:Et.
  - right. now rewrite (handleError_eq _ _ _ _ _ Et).
  - left. now rewrite (handleError_throw _ _ _ _ Et).
Qed.

Lemma handleCompletion_eq id m s :
  handleCompletion id m s
  = (tt, cleaned id s,
     [Log Info "Podcast generation completed successfully" id;
      Broadcast id
        (PodcastCompleted id (now s)
           (js_or (get_prop "file_path" m)
                  (JStr ("/api/podcasts/" +:+ id +:+ "/audio.m4a")))
           (js_or (get_prop "metadata" m) (JObj [])));
      Broadcast id
        (ProgressEvent id (now s) (JNum (num 100)) "Podcast generation complete!")]
     ++ trace (cleanupGeneration id s) ++ [CloseSession id]).
Proof.
  unfold handleCompletion, sendProgress, bind, get, log, broadcast, emit.
  rewrite <- cleanup_state.
  destruct (cleanupGeneration id s) as [[[] s'] t]. reflexivity.
Qed.

Lemma broadcasts_app t1 t2 : broadcasts (t1 ++ t2) = broadcasts t1 ++ broadcasts t2.
Proof. apply omap_app. Qed.

Lemma unlinks_app t1 t2 : unlinks (t1 ++ t2) = unlinks t1 ++ unlinks t2.
Proof. apply omap_app. Qed.

Lemma cleared_app t1 t2 : cleared (t1 ++ t2) = cleared t1 ++ cleared t2.
Proof. apply omap_app. Qed.

Lemma kills_app t1 t2 : kills (t1 ++ t2) = kills t1 ++ kills t2.
Proof. apply omap_app. Qed.

Lemma cleanup_trace_broadcasts id g : broadcasts (cleanup_trace id g) = [].
Proof. unfold cleanup_trace. destruct (timeoutHandle g); reflexivity. Qed.

Lemma cleanup_trace_kills id g : kills (cleanup_trace id g) = [].
Proof. unfold cleanup_trace. destruct (timeoutHandle g); reflexivity. Qed.

Lemma cleanup_broadcasts id s : broadcasts (trace (cleanupGeneration id s)) = [].
Proof.
  destruct (activeGenerations s !! id) as [g|] eqn:E.
  - rewrite (cleanup_active _ _ _ E). apply cleanup_trace_broadcasts.
  - now rewrite (cleanup_inactive _ _ E).
Qed.

Lemma cleanup_kills id s : kills (trace (cleanupGeneration id s)) = [].
Proof.
  destruct (activeGenerations s !! id) as [g|] eqn:E.
  - rewrite (cleanup_active _ _ _ E). apply cleanup_trace_kills.
  - now rewrite (cleanup_inactive _ _ E).
Qed.

(** [handleProgressMessage], case by case. *)
Lemma progress_message_eq id m ev s :
  is_progress m = true ->
  progress_event id (now s) m = Some ev ->
  handleProgressMessage id m s
  = (Normal, s, [Log Debug "Received progress message" id; Broadcast id ev]).
Proof.
  unfold is_progress, handleProgressMessage, progress_event. intros H Hev.
  destruct m; try discriminate.
  destruct (get_prop "type" (JObj fields)) as [| | | |ty| |]; try discriminate.
  unfold bind at 1, log at 1, emit at 1. cbv beta iota. rewrite H.
  destruct (ToString _) as [text|]; [|discriminate].
  cbn in Hev. injection Hev as <-. reflexivity.
Qed.

Lemma progress_message_throw id m s :
  is_progress m = true ->
  progress_event id (now s) m = None ->
  handleProgressMessage id m s
  = (Throw "TypeError", s, [Log Debug "Received progress message" id]).
Proof.
  unfold is_progress, handleProgressMessage, progress_event. intros H Hev.
  destruct m; try discriminate.
  destruct (get_prop "type" (JObj fields)) as [| | | |ty| |]; try discriminate.
  unfold bind at 1, log at 1, emit at 1. cbv beta iota. rewrite H.
  destruct (ToString _) as [text|]; [discriminate | reflexivity].
Qed.

Lemma unknown_message_eq id m s :
  unknown_type m = true ->
  handleProgressMessage id m s
  = (Normal, s, [Log Debug "Received progress message" id;
                 Log Warn "Unknown progress message type" id]).
Proof.
  unfold unknown_type, handleProgressMessage. intros H.
  destruct m; try discriminate;
    (destruct (get_prop "type" _) as [| | | |ty| |];
     [reflexivity | reflexivity | reflexivity | reflexivity | | reflexivity | reflexivity];
     apply negb_true_iff in H;
     apply orb_false_iff in H as [H H3]; apply orb_false_iff in H as [H1 H2];
     unfold bind, get, log, emit, ret; rewrite H1, H2, H3; reflexivity).
Qed.

Lemma message_broadcasts id m s :
  broadcasts (trace (handleProgressMessage id m s))
  = map (pair id) (message_events id (now s) m).
Proof.
  unfold handleProgressMessage, message_events, progress_event, message_error_text.
  destruct m; try reflexivity.
  destruct (get_prop "type" _) as [| | | |ty| |]; try reflexivity.
  destruct (String.eqb ty "progress").
  { destruct (ToString _) as [text|]; reflexivity. }
  destruct (String.eqb ty "complete").
  { unfold bind at 1 2. simpl. rewrite handleCompletion_eq. simpl.
    now rewrite !broadcasts_app, cleanup_broadcasts. }
  destruct (String.eqb ty "error"); [|reflexivity].
  unfold bind at 1. unfold log at 1, emit at 1. cbv beta iota.
  destruct (error_text _ _) as [text|] eqn:Et.
  - rewrite (handleError_eq _ _ _ _ _ Et). unfold trace at 1. cbn [snd app].
    change (broadcasts (?a :: ?b :: ?c :: ?l)) with (broadcasts ([c] ++ l)).
    now rewrite broadcasts_app, cleanup_broadcasts.
  - rewrite (handleError_throw _ _ _ _ Et). reflexivity.
Qed.

Lemma has_type_inv ty m :
  has_type ty m = true -> exists fields, m = JObj fields /\ get_prop "type" m = JStr ty.
Proof.
  unfold has_type. destruct m; simpl; try discriminate.
  destruct (lookup_field "type" fields) as [| | | |t| |]; try discriminate.
  intros H. apply String.eqb_eq in H as ->. eauto.
Qed.

Lemma complete_message_eq id m s :
  has_type "complete" m = true ->
  handleProgressMessage id m s
  = (Normal, cleaned id s,
     Log Debug "Received progress message" id :: trace (handleCompletion id m s)).
Proof.
  intros H. apply has_type_inv in H as (fields & -> & Hty).
  unfold handleProgressMessage. rewrite Hty. simpl String.eqb. cbv iota.
  unfold bind at 1, log at 1, emit at 1. unfold bind at 1.
  rewrite handleCompletion_eq. unfold ret, trace. cbn [snd].
  now rewrite app_nil_r.
Qed.

Lemma error_message_run id m s :
  has_type "error" m = true ->
  handleProgressMessage id m s
  = (let '(c, s1, t1) :=
       handleError id
         (js_or (get_prop "error" m) (JStr "Unknown error from Python script"))
         (get_prop "code" m) s in
     (c, s1, Log Debug "Received progress message" id :: t1)).
Proof.
  intros H. apply has_type_inv in H as (fields & -> & Hty).
  unfold handleProgressMessage. rewrite Hty. simpl String.eqb. cbv iota.
  unfold bind at 1, log at 1, emit at 1. reflexivity.
Qed.

Lemma error_message_eq id m text s :
  has_type "error" m = true ->
  message_error_text m = Some text ->
  handleProgressMessage id m s
  = (Normal, cleaned id s,
     [Log Debug "Received progress message" id;
      Log Error "Podcast generation error" id;
      Broadcast id (ErrorEvent text id (now s))]
     ++ trace (cleanupGeneration id s)).
Proof.
  intros H Ht. rewrite (error_message_run _ _ _ H), (handleError_eq _ _ _ _ _ Ht).
  reflexivity.
Qed.

Lemma error_message_throw id m s :
  has_type "error" m = true ->
  message_error_text m = None ->
  handleProgressMessage id m s
  = (Throw "TypeError", s,
     [Log Debug "Received progress message" id;
      Log Error "Podcast generation error" id]).
Proof.
  intros H Ht. rewrite (error_message_run _ _ _ H), (handleError_throw _ _ _ _ Ht).
  reflexivity.
Qed.

Lemma null_message_eq id m s :
  m = JNull \/ m = JUndefined ->
  handleProgressMessage id m s
  = (Throw "TypeError", s, [Log Debug "Received progress message" id]).
Proof. intros [-> | ->]; reflexivity. Qed.

(** The kinds of decoded messages. *)
Lemma message_kind m :
  m = JNull \/ m = JUndefined \/ is_progress m = true \/
  has_type "complete" m = true \/ has_type "error" m = true \/ unknown_type m = true.
Proof.
  unfold is_progress, has_type, unknown_type.
  destruct m; auto;
    (destruct (get_prop "type" _) as [| | | |ty| |]; auto 10;
     destruct (String.eqb ty "progress"); auto;
     destruct (String.eqb ty "complete"); auto;
     destruct (String.eqb ty "error"); auto 10).
Qed.

(** What handling a decoded message comes to: a throw or a warning that
    leaves the state as it is, one progress event, the completion, or the
    error event with its cleanup. *)
Lemma message_cases id m s :
  (exists c t, handleProgressMessage id m s = (c, s, t) /\
               Forall (fun e => exists l x y, e = Log l x y) t) \/
  (exists ev, is_progress m = true /\ progress_event id (now s) m = Some ev /\
              handleProgressMessage id m s
              = (Normal, s, [Log Debug "Received progress message" id; Broadcast id ev])) \/
  (has_type "complete" m = true /\
   handleProgressMessage id m s
   = (Normal, cleaned id s,
      Log Debug "Received progress message" id :: trace (handleCompletion id m s))) \/
  (exists text, has_type "error" m = true /\ message_error_text m = Some text /\
                handleProgressMessage id m s
                = (Normal, cleaned id s,
                   [Log Debug "Received progress message" id;
                    Log Error "Podcast generation error" id;
                    Broadcast id (ErrorEvent text id (now s))]
                   ++ trace (cleanupGeneration id s))).
Proof.
  destruct (message_kind m) as [H | [H | [H | [H | [H | H]]]]].
  - left. do 2 eexists. split; [apply null_message_eq; auto|]. repeat constructor; eauto.
  - left. do 2 eexists. split; [apply null_message_eq; auto|]. repeat constructor; eauto.
  - destruct (progress_event id (now s) m) as [ev|] eqn:Ev.
    + right; left. exists ev. eauto using progress_message_eq.
    + left. do 2 eexists. split; [now apply progress_message_throw|].
      repeat constructor; eauto.
  - right; right; left. eauto using complete_message_eq.
  - destruct (message_error_text m) as [text|] eqn:Et.
    + right; right; right. exists text. eauto using error_message_eq.
    + left. do 2 eexists. split; [now apply error_message_throw|].
      repeat constructor; eauto.
  - left. do 2 eexists. split; [now apply unknown_message_eq|]. repeat constructor; eauto.
Qed.

(** A trace of log entries has no other effect in it. *)
Lemma logs_quiet t :
  Forall (fun e => exists l x y, e = Log l x y) t ->
  broadcasts t = [] /\ unlinks t = [] /\ cleared t = [] /\ kills t = [] /\
  closes t = [] /\ staged t = [] /\ spawns t = [].
Proof.
  induction 1 as [|e t (l & x & y & ->) _ IH]; [repeat split; reflexivity|]. exact IH.
Qed.

Lemma process_error_eq id msg s :
  handleProcessError id msg s
  = (Normal, cleaned id s,
     [Log Error "Python process error" id;
      Log Error "Podcast generation error" id;
      Broadcast id
        (ErrorEvent (JStr ("Process error: " +:+ msg +:+ " (PROCESS_SPAWN_ERROR)")) id (now s))]
     ++ trace (cleanupGeneration id s)).
Proof.
  unfold handleProcessError, bind, log, emit.
  rewrite handleError_str by reflexivity. reflexivity.
Qed.

End MethodLemmas.

(* ===================================================================== *)
(** ** Decoding the standard output of the worker                          *)
(* ===================================================================== *)

Section Stdout.

Variable JSON_parse : string -> option JSValue.

Lemma handleStdoutData_visit id data :
  handleStdoutData JSON_parse id data
  = for_each (stdout_lines data) (visit JSON_parse id).
Proof. reflexivity. Qed.

Lemma for_each_app {A} (a b : list A) (f : A -> M unit) s :
  for_each (a ++ b) f s = (for_each a f ;; for_each b f) s.
Proof.
  revert s. induction a as [|x a IH]; intros s.
  - simpl. unfold bind, ret. destruct (for_each b f s) as [[[] s2] t2]. reflexivity.
  - simpl. unfold bind.
    destruct (f x s) as [[[] s1] t1]. rewrite IH. unfold bind.
    destruct (for_each a f s1) as [[[] s2] t2].
    destruct (for_each b f s2) as [[[] s3] t3].
    now rewrite app_assoc.
Qed.

(** Lines that decode are dispatched, in their order. *)
Lemma for_each_decoded id ls ms s :
  Forall2 (fun l m => JSON_parse l = Some m) ls ms ->
  for_each ls (visit JSON_parse id) s = for_each ms (dispatch id) s.
Proof.
  intros H. revert s. induction H as [|l m ls ms Hl _ IH]; intros s; [reflexivity|].
  simpl. unfold bind. unfold visit at 1. rewrite Hl.
  destruct (dispatch id m s) as [[[] s1] t1]. now rewrite IH.
Qed.

Lemma message_state id m s :
  state_of (handleProgressMessage id m s) = s \/
  state_of (handleProgressMessage id m s) = cleaned id s.
Proof.
  destruct (message_cases id m s)
    as [(c & t & -> & _) | [(ev & _ & _ & ->) | [(_ & ->) | (text & _ & _ & ->)]]];
    auto.
Qed.

Lemma dispatch_state id m s :
  state_of (dispatch id m s) = state_of (handleProgressMessage id m s).
Proof.
  unfold dispatch, bind.
  destruct (handleProgressMessage id m s) as [[[|e] s1] t1]; reflexivity.
Qed.

Lemma dispatch_broadcasts id m s :
  broadcasts (trace (dispatch id m s))
  = map (pair id) (message_events id (now s) m).
Proof.
  rewrite <- message_broadcasts. unfold dispatch, bind.
  destruct (handleProgressMessage id m s) as [[[|e] s1] t1]; simpl;
    rewrite broadcasts_app; simpl; now rewrite app_nil_r.
Qed.

Lemma dispatch_now id m s : now (state_of (dispatch id m s)) = now s.
Proof.
  rewrite dispatch_state.
  destruct (message_state id m s) as [-> | ->]; [reflexivity | apply cleaned_now].
Qed.

(** The events of a run of dispatches: those of each message, in order. *)
Lemma dispatches_broadcasts id ms s :
  broadcasts (trace (for_each ms (dispatch id) s))
  = concat (map (fun m => map (pair id) (message_events id (now s) m)) ms).
Proof.
  revert s. induction ms as [|m ms IH]; intros s; [reflexivity|].
  simpl. unfold bind.
  pose proof (dispatch_broadcasts id m s) as Hb.
  pose proof (dispatch_now id m s) as Hn.
  destruct (dispatch id m s) as [[[] s1] t1].
  specialize (IH s1). destruct (for_each ms (dispatch id) s1) as [[[] s2] t2].
  unfold state_of, trace in *. simpl in *. now rewrite broadcasts_app, Hb, IH, Hn.
Qed.

(** Successive chunks are handled as the lines of each of them, taken
    chunk by chunk: nothing is carried from one chunk to the next. *)
Lemma chunk_by_chunk id chunks s :
  for_each chunks (handleStdoutData JSON_parse id) s
  = for_each (concat (map stdout_lines chunks)) (visit JSON_parse id) s.
Proof.
  revert s. induction chunks as [|c cs IH]; intros s; [reflexivity|].
  cbn [map concat for_each]. rewrite for_each_app. unfold bind.
  rewrite handleStdoutData_visit.
  destruct (for_each (stdout_lines c) (visit JSON_parse id) s) as [[[] s1] t1].
  now rewrite IH.
Qed.

(** A chunk made of whole lines is handled line by line. *)
Lemma whole_lines id ls ms s :
  Forall2 (fun l m => tight l = true /\ JSON_parse l = Some m) ls ms ->
  handleStdoutData JSON_parse id (unlines ls) s = for_each ms (dispatch id) s.
Proof.
  intros H. rewrite handleStdoutData_visit, stdout_lines_unlines.
  - apply for_each_decoded. eapply Forall2_impl; [exact H|]. now intros l m [_ ?].
  - clear s. induction H as [|l m ls ms [Hl _] _ IH]; constructor; auto.
Qed.

End Stdout.

(* ===================================================================== *)
(** ** The invariant is kept by every turn of the loop                     *)
(* ===================================================================== *)

Section Invariant.

Lemma is_killed_processes p s s' :
  processes s' = processes s -> is_killed p s' = is_killed p s.
Proof. unfold is_killed. now intros ->. Qed.

Lemma wf_initial e : wf (initial e).
Proof.
  split; simpl; intros *; rewrite ?lookup_empty; discriminate.
Qed.

(** Cleaning up [id] restores the invariant from [wf_but id]. *)
Lemma wf_cleaned_but id s : wf_but id s -> wf (cleaned id s).
Proof.
  intros [H1 H2 H3 H4 H5 H6].
  assert (Hsub : forall h x, timers (cleaned id s) !! h = Some x -> timers s !! h = Some x).
  { intros h x. unfold cleaned. destruct (activeGenerations s !! id) as [g|]; [|auto].
    destruct (timeoutHandle g); simpl; [|auto].
    rewrite lookup_delete_Some. now intros [_ ?]. }
  assert (Hnext : next_process (cleaned id s) = next_process s
                  /\ next_timer (cleaned id s) = next_timer s).
  { unfold cleaned. destruct (activeGenerations s !! id) as [g|]; [|auto].
    destruct (timeoutHandle g); auto. }
  destruct Hnext as [Hnp Hnt].
  split.
  - intros id' g'. rewrite cleaned_active, lookup_delete_Some. intros [Hne Hg'].
    rewrite cleaned_processes. apply H1; auto.
  - intros id' g'. rewrite cleaned_active, lookup_delete_Some. intros [Hne Hg'].
    destruct (H2 id' g') as (h' & Hh' & Ht'); auto.
    exists h'. split; [assumption|].
    unfold cleaned. destruct (activeGenerations s !! id) as [g|] eqn:Eg; [|assumption].
    destruct (timeoutHandle g) as [h|] eqn:Eh; simpl; [|assumption].
    rewrite lookup_delete_ne; [assumption|].
    intros ->. destruct (H3 g h' eq_refl Eh) as [_ H3'].
    specialize (H3' _ Ht'). simpl in H3'. congruence.
  - intros p cp. rewrite cleaned_processes, Hnp. apply H4.
  - intros h x Hx. rewrite Hnt. eapply H5, Hsub, Hx.
  - intros h due p Hh. rewrite (is_killed_processes p s); [|apply cleaned_processes].
    eapply H6, Hsub, Hh.
Qed.

Lemma wf_but_of_wf id s : wf s -> wf_but id s.
Proof.
  intros [H1 H2 H3 H4 H5]. split; auto.
  intros g h Hg Hh. destruct (H2 _ _ Hg) as (h' & Hh' & Ht').
  rewrite Hh in Hh'. injection Hh' as <-. split; [eapply H4, Ht'|].
  intros x Hx. rewrite Hx in Ht'. now injection Ht' as ->.
Qed.

Lemma wf_cleaned id s : wf s -> wf (cleaned id s).
Proof. intros H. now apply wf_cleaned_but, wf_but_of_wf. Qed.

Lemma wf_handleError id m c s : wf s -> wf (state_of (handleError id m c s)).
Proof.
  intros H. destruct (handleError_state id m c s) as [-> | ->]; [assumption|].
  now apply wf_cleaned.
Qed.

Lemma wf_message id m s : wf s -> wf (state_of (handleProgressMessage id m s)).
Proof.
  intros H. destruct (message_state id m s) as [-> | ->]; [assumption|].
  now apply wf_cleaned.
Qed.

Lemma wf_for_each {A} (f : A -> M unit) xs s :
  (forall x s, wf s -> wf (state_of (f x s))) ->
  wf s -> wf (state_of (for_each xs f s)).
Proof.
  intros Hf. revert s. induction xs as [|x xs IH]; intros s H; [assumption|].
  simpl. unfold bind. specialize (Hf x s H).
  destruct (f x s) as [[[] s1] t1]. specialize (IH s1 Hf).
  destruct (for_each xs f s1) as [[[] s2] t2]. exact IH.
Qed.

Lemma wf_stdout JSON_parse id data s :
  wf s -> wf (state_of (handleStdoutData JSON_parse id data s)).
Proof.
  rewrite handleStdoutData_visit. apply wf_for_each.
  intros line s' H. unfold visit. destruct (JSON_parse line) as [m|]; [|assumption].
  rewrite dispatch_state. now apply wf_message.
Qed.

Lemma cancel_active id s g :
  activeGenerations s !! id = Some g ->
  processes s !! process g = Some (mkChildProcess id false false) ->
  cancelGeneration id s
  = (true, cleaned id (escalated (process g) id s),
     [Log Info "Cancelling podcast generation" id;
      Kill (process g) SIGTERM;
      SetTimeout (next_timer s) (ForceKill (process g)) 5000]
     ++ cleanup_trace id g
     ++ [Broadcast id (ErrorEvent (JStr "Generation cancelled by user") id (now s))]).
Proof.
  intros Hg Hp. unfold_m. repeat (cbn_m; rewrite ?Hg, ?Hp).
  destruct (timeoutHandle g); reflexivity.
Qed.

Lemma timeout_active id s g :
  activeGenerations s !! id = Some g ->
  processes s !! process g = Some (mkChildProcess id false false) ->
  handleTimeout id s
  = (Normal, cleaned id (escalated (process g) id s),
     [Log Warn "Podcast generation timed out" id;
      Kill (process g) SIGTERM;
      SetTimeout (next_timer s) (ForceKill (process g)) 5000;
      Log Error "Podcast generation error" id;
      Broadcast id
        (ErrorEvent (JStr "Podcast generation timed out (TIMEOUT_ERROR)") id (now s))]
     ++ cleanup_trace id g).
Proof.
  intros Hg Hp. unfold_m. repeat (cbn_m; rewrite ?Hg, ?Hp).
  destruct (timeoutHandle g); reflexivity.
Qed.

Lemma cancel_inactive id s :
  activeGenerations s !! id = None ->
  cancelGeneration id s
  = (false, s, [Log Warn "Attempted to cancel non-existent generation" id]).
Proof. intros H. unfold_m. now rewrite H. Qed.

Lemma timeout_inactive id s :
  activeGenerations s !! id = None ->
  handleTimeout id s
  = (Normal, s,
     [Log Warn "Podcast generation timed out" id;
      Log Error "Podcast generation error" id;
      Broadcast id
        (ErrorEvent (JStr "Podcast generation timed out (TIMEOUT_ERROR)") id (now s))]).
Proof. intros H. unfold_m. repeat (cbn_m; rewrite ?H). reflexivity. Qed.

Lemma exit_inactive id code signal s :
  activeGenerations s !! id = None ->
  handleProcessExit id code signal s = (Normal, s, []).
Proof. intros H. unfold_m. now rewrite H. Qed.

Lemma exit_nonzero_active id c signal s g :
  activeGenerations s !! id = Some g -> c <> 0 ->
  handleProcessExit id (Some c) signal s
  = (Normal, cleaned id s,
     [Log Info "Python process exited" id;
      Log Error "Podcast generation error" id;
      Broadcast id (ErrorEvent (JStr (exit_text c signal)) id (now s))]
     ++ cleanup_trace id g).
Proof.
  intros Hg Hc. apply Z.eqb_neq in Hc.
  unfold_m. repeat (cbn_m; rewrite ?Hg, ?Hc). unfold exit_text.
  destruct (timeoutHandle g); reflexivity.
Qed.

Lemma exit_zero_active id code signal s g :
  activeGenerations s !! id = Some g -> code = Some 0 \/ code = None ->
  handleProcessExit id code signal s
  = (Normal, cleaned id s, Log Info "Python process exited" id :: cleanup_trace id g).
Proof.
  intros Hg Hc. unfold_m.
  destruct Hc as [-> | ->]; change (0 =? 0) with true;
    repeat (cbn_m; rewrite ?Hg); destruct (timeoutHandle g); reflexivity.
Qed.

Lemma exit_state id code signal s :
  state_of (handleProcessExit id code signal s) = cleaned id s.
Proof.
  destruct (activeGenerations s !! id) as [g|] eqn:Hg.
  - destruct code as [c|]; [destruct (Z.eq_dec c 0) as [-> | Hc]|].
    + now rewrite (exit_zero_active _ _ _ _ _ Hg) by auto.
    + now rewrite (exit_nonzero_active _ _ _ _ _ Hg Hc).
    + now rewrite (exit_zero_active _ _ _ _ _ Hg) by auto.
  - rewrite (exit_inactive _ _ _ _ Hg). unfold cleaned. now rewrite Hg.
Qed.

Lemma forceKill_killed p s : is_killed p s = true -> forceKill p s = (tt, s, []).
Proof. intros H. unfold forceKill, bind, get. now rewrite H. Qed.

Lemma runTimer_killed p s :
  is_killed p s = true -> runTimer (ForceKill p) s = (Normal, s, []).
Proof. intros H. unfold runTimer, bind. now rewrite (forceKill_killed _ _ H). Qed.

Lemma generate_ok id options configId s :
  exists config exe args,
    generatePodcast id options configId None None s
    = (Normal, started id (config_path configId s) s,
       [Log Info "Starting podcast generation" id;
        WriteFile (config_path configId s) config;
        Log Debug "Created config file" (config_path configId s);
        Log Debug "Spawning Python process" id;
        Spawn (next_process s) exe args;
        SetTimeout (next_timer s) (OnTimeout id) TIMEOUT_MS]).
Proof.
  do 3 eexists. unfold_m. unfold config_path. cbn_m.
  rewrite insert_insert_eq. reflexivity.
Qed.

Lemma generate_failed id options configId msg serr s :
  generatePodcast id options configId (Some msg) serr s
  = (Normal, cleaned id s,
     [Log Info "Starting podcast generation" id;
      Log Error "Failed to start podcast generation" id;
      Log Error "Podcast generation error" id;
      Broadcast id
        (ErrorEvent (JStr ("Failed to start podcast generation: " +:+ msg)) id (now s))]
     ++ trace (cleanupGeneration id s)).
Proof.
  unfold_m. cbn_m.
  destruct (activeGenerations s !! id) as [g|]; [|reflexivity].
  destruct (timeoutHandle g); reflexivity.
Qed.

(** A start whose config file is written and whose process cannot be
    spawned. *)
Lemma generate_spawn_failed id options configId msg s :
  exists config,
    generatePodcast id options configId None (Some msg) s
    = (Normal, cleaned id s,
       [Log Info "Starting podcast generation" id;
        WriteFile (config_path configId s) config;
        Log Debug "Created config file" (config_path configId s);
        Log Debug "Spawning Python process" id;
        Log Error "Failed to start podcast generation" id;
        Log Error "Podcast generation error" id;
        Broadcast id
          (ErrorEvent (JStr ("Failed to start podcast generation: " +:+ msg)) id (now s))]
       ++ trace (cleanupGeneration id s)).
Proof.
  eexists. unfold_m. unfold config_path. cbn_m.
  destruct (activeGenerations s !! id) as [g|]; [|reflexivity].
  destruct (timeoutHandle g); reflexivity.
Qed.

Lemma is_killed_insert p q cp s :
  is_killed q (set_processes <[p := cp]> s)
  = if decide (p = q) then killed cp else is_killed q s.
Proof.
  unfold is_killed, set_processes. cbn_m. rewrite lookup_insert.
  destruct (decide (p = q)); reflexivity.
Qed.

(** The escalation on the process of [id] keeps [wf_but id]. *)
Lemma wf_but_escalated id s g :
  wf_but id s ->
  activeGenerations s !! id = Some g ->
  processes s !! process g = Some (mkChildProcess id false false) ->
  wf_but id (escalated (process g) id s).
Proof.
  intros [H1 H2 H3 H4 H5 H6] Hg Hp. split; unfold escalated; cbn_m.
  - intros id' g' Hne Hg'. destruct (H1 _ _ Hne Hg') as [Hs Hp']. split; [assumption|].
    rewrite lookup_insert_ne; [assumption|].
    intros E. rewrite E, Hp' in Hp. congruence.
  - intros id' g' Hne Hg'. destruct (H2 _ _ Hne Hg') as (h & Hh & Ht).
    exists h. split; [assumption|]. rewrite lookup_insert_ne; [assumption|].
    apply H5 in Ht. lia.
  - intros g' h Hg' Hh. destruct (H3 _ _ Hg' Hh) as [Hlt Hx]. split; [lia|].
    intros x. rewrite lookup_insert_ne by lia. apply Hx.
  - intros p cp. rewrite lookup_insert_Some. intros [[<- _] | [_ Hq]].
    + eapply H4, Hp.
    + eapply H4, Hq.
  - intros h x. rewrite lookup_insert_Some. intros [[<- _] | [_ Hq]]; [lia|].
    apply H5 in Hq. lia.
  - intros h due p. rewrite lookup_insert_Some.
    unfold is_killed. cbn_m. rewrite lookup_insert.
    intros [[_ E] | [_ Hq]].
    + injection E as _ <-. now rewrite decide_True.
    + destruct (decide (process g = p)); [reflexivity|]. eapply H6, Hq.
Qed.

(** The timer of [id] has fired and is gone. *)
Lemma wf_but_fired id h due s :
  wf s -> timers s !! h = Some (due, OnTimeout id) ->
  wf_but id (set_timers (delete h) s).
Proof.
  intros [H1 H2 H3 H4 H5] Hh. split; unfold set_timers; cbn_m.
  - intros id' g' _ Hg'. now apply H1.
  - intros id' g' Hne Hg'. destruct (H2 _ _ Hg') as (h' & Hh' & Ht').
    exists h'. split; [assumption|]. rewrite lookup_delete_ne; [assumption|].
    intros ->. rewrite Hh in Ht'. congruence.
  - intros g' h' Hg' Hh'. destruct (H2 _ _ Hg') as (h2 & Hh2 & Ht2).
    rewrite Hh' in Hh2. injection Hh2 as <-. split; [eapply H4, Ht2|].
    intros x. rewrite lookup_delete_Some. intros [_ Hx].
    rewrite Hx in Ht2. now injection Ht2 as ->.
  - assumption.
  - intros h' x. rewrite lookup_delete_Some. intros [_ Hx]. eapply H4, Hx.
  - intros h' due' p. rewrite lookup_delete_Some. intros [_ Hx].
    apply (H5 _ _ _ Hx).
Qed.

(** A force-kill timer has fired and is gone. *)
Lemma wf_fired_force h due p s :
  wf s -> timers s !! h = Some (due, ForceKill p) ->
  wf (set_timers (delete h) s).
Proof.
  intros [H1 H2 H3 H4 H5] Hh. split; unfold set_timers; cbn_m.
  - assumption.
  - intros id' g' Hg'. destruct (H2 _ _ Hg') as (h' & Hh' & Ht').
    exists h'. split; [assumption|]. rewrite lookup_delete_ne; [assumption|].
    intros ->. rewrite Hh in Ht'. congruence.
  - assumption.
  - intros h' x. rewrite lookup_delete_Some. intros [_ Hx]. eapply H4, Hx.
  - intros h' due' p'. rewrite lookup_delete_Some. intros [_ Hx].
    apply (H5 _ _ _ Hx).
Qed.

(** The process [p] has exited: only the generation of its owner is
    affected. *)
Lemma wf_but_exited p cp s :
  wf s -> processes s !! p = Some cp ->
  wf_but (owner cp)
    (set_processes <[p := mkChildProcess (owner cp) (killed cp) true]> s).
Proof.
  intros Hwf Hp. pose proof (wf_but_of_wf (owner cp) s Hwf) as [_ B2 B3 _ _ _].
  destruct Hwf as [H1 H2 H3 H4 H5].
  split; try assumption.
  - unfold set_processes. cbn_m.
    intros id' g' Hne Hg'. destruct (H1 _ _ Hg') as [Hs Hp']. split; [assumption|].
    rewrite lookup_insert_ne; [assumption|].
    intros E. rewrite <- E, Hp in Hp'. injection Hp' as ->. now apply Hne.
  - unfold set_processes. cbn_m.
    intros q cq. rewrite lookup_insert_Some. intros [[<- _] | [_ Hq]].
    + eapply H3, Hp.
    + eapply H3, Hq.
  - intros h due q Hq. rewrite is_killed_insert.
    specialize (H5 _ _ _ Hq). destruct (decide (p = q)) as [<- |]; [|assumption].
    unfold is_killed in H5. now rewrite Hp in H5.
Qed.

Lemma wf_started id path s : wf s -> wf (started id path s).
Proof.
  intros [H1 H2 H3 H4 H5]. split; unfold started; cbn_m.
  - intros id' g'. rewrite lookup_insert_Some. intros [[<- <-] | [Hne Hg']]; simpl.
    + split; [reflexivity|]. apply lookup_insert_eq.
    + destruct (H1 _ _ Hg') as [Hs Hp']. split; [assumption|].
      rewrite lookup_insert_ne; [assumption|]. apply H3 in Hp'. lia.
  - intros id' g'. rewrite lookup_insert_Some. intros [[<- <-] | [Hne Hg']]; simpl.
    + eexists. split; [reflexivity|]. apply lookup_insert_eq.
    + destruct (H2 _ _ Hg') as (h & Hh & Ht). exists h. split; [assumption|].
      rewrite lookup_insert_ne; [assumption|]. apply H4 in Ht. lia.
  - intros p cp. rewrite lookup_insert_Some. intros [[<- _] | [_ Hq]]; [lia|].
    apply H3 in Hq. lia.
  - intros h x. rewrite lookup_insert_Some. intros [[<- _] | [_ Hq]]; [lia|].
    apply H4 in Hq. lia.
  - intros h due p. rewrite lookup_insert_Some. intros [[_ E] | [_ Hq]]; [discriminate|].
    specialize (H5 _ _ _ Hq). unfold is_killed in *. cbn_m.
    destruct (processes s !! p) as [cp|] eqn:Ep; [|discriminate].
    rewrite lookup_insert_ne; [now rewrite Ep|]. apply H3 in Ep. lia.
Qed.

Lemma wf_cancel id s : wf s -> wf (state_of (cancelGeneration id s)).
Proof.
  intros Hwf. destruct (activeGenerations s !! id) as [g|] eqn:Hg.
  - destruct (wf_proc s Hwf _ _ Hg) as [_ Hp].
    rewrite (cancel_active _ _ _ Hg Hp).
    apply wf_cleaned_but, wf_but_escalated; auto using wf_but_of_wf.
  - now rewrite (cancel_inactive _ _ Hg).
Qed.

Lemma wf_timeout id h due s :
  wf s -> timers s !! h = Some (due, OnTimeout id) ->
  wf (state_of (handleTimeout id (set_timers (delete h) s))).
Proof.
  intros Hwf Hh. pose proof (wf_but_fired _ _ _ _ Hwf Hh) as Hb.
  set (s1 := set_timers (delete h) s) in *.
  destruct (activeGenerations s1 !! id) as [g|] eqn:Hg.
  - destruct (wf_proc s Hwf id g Hg) as [_ Hp].
    rewrite (timeout_active id s1 g Hg Hp).
    apply wf_cleaned_but, wf_but_escalated; auto.
  - rewrite (timeout_inactive _ _ Hg).
    replace s1 with (cleaned id s1) by (unfold cleaned; now rewrite Hg).
    now apply wf_cleaned_but.
Qed.

Lemma wf_generate id options configId werr serr s :
  wf s -> wf (state_of (generatePodcast id options configId werr serr s)).
Proof.
  intros Hwf. destruct werr as [msg|]; [|destruct serr as [msg|]].
  - rewrite generate_failed. now apply wf_cleaned.
  - destruct (generate_spawn_failed id options configId msg s) as (c & ->).
    now apply wf_cleaned.
  - destruct (generate_ok id options configId s) as (c & e & a & ->).
    now apply wf_started.
Qed.

Theorem step_wf JSON_parse e s s' t :
  wf s -> step JSON_parse e s = Some (s', t) -> wf s'.
Proof.
  intros Hwf. destruct e as [id o c w sp | id | p data | p data | p code sg | p msg | h | ms];
    simpl.
  - intros [= <- _]. now apply wf_generate.
  - intros [= <- _]. now apply wf_cancel.
  - destruct (processes s !! p) as [cp|]; [|discriminate].
    intros [= <- _]. now apply wf_stdout.
  - destruct (processes s !! p) as [cp|]; [|discriminate].
    intros [= <- _]. assumption.
  - destruct (processes s !! p) as [cp|] eqn:Hp; [|discriminate].
    destruct (exited cp); [discriminate|].
    intros [= <- _]. rewrite exit_state.
    now apply wf_cleaned_but, wf_but_exited.
  - destruct (processes s !! p) as [cp|]; [|discriminate].
    intros [= <- _]. unfold handleProcessError, bind, log, emit.
    pose proof (wf_handleError (owner cp) (JStr ("Process error: " +:+ msg))
                  (JStr "PROCESS_SPAWN_ERROR") s Hwf) as H.
    destruct (handleError _ _ _ s) as [[c1 s1] t1]. exact H.
  - destruct (timers s !! h) as [[due cb]|] eqn:Hh; [|discriminate].
    destruct (due <=? now s); [|discriminate].
    intros [= <- _]. destruct cb as [id | p].
    + eapply wf_timeout; eauto.
    + rewrite runTimer_killed.
      * eapply wf_fired_force; eauto.
      * rewrite (is_killed_processes p s) by reflexivity. eapply wf_force; eauto.
  - destruct (0 <=? ms); [|discriminate].
    intros [= <- _]. destruct Hwf as [H1 H2 H3 H4 H5]. split; assumption.
Qed.

Theorem run_wf JSON_parse es s s' t :
  wf s -> run JSON_parse es s = Some (s', t) -> wf s'.
Proof.
  revert s t. induction es as [|e es IH]; intros s t Hwf; simpl.
  - now intros [= <- _].
  - destruct (step JSON_parse e s) as [[s1 t1]|] eqn:E; [|discriminate].
    destruct (run JSON_parse es s1) as [[s2 t2]|] eqn:R; [|discriminate].
    intros [= <- _]. eapply IH; [|exact R]. eapply step_wf; eauto.
Qed.

Theorem reachable_wf JSON_parse s : reachable JSON_parse s -> wf s.
Proof.
  intros (e & es & t & H). eapply run_wf; [apply wf_initial | exact H].
Qed.

End Invariant.

(* ===================================================================== *)
(** ** Concrete states used to run the service                             *)
(* ===================================================================== *)

Lemma s_running_reachable : reachable json_decode s_running.
Proof.
  exists env0, [CallGenerate "job-1" opts0 "c1" None None].
  eexists. vm_compute. reflexivity.
Qed.

Lemma s_running_active :
  activeGenerations s_running !! "job-1"
  = Some (mkActiveGeneration "job-1" 0 "/tmp/podcastfy_config_c1.json" 0 (Some 0%nat)).
Proof. vm_compute. reflexivity. Qed.

(* ===================================================================== *)
(** ** The claims                                                          *)
(* ===================================================================== *)

(** C9.  Every chunk of the standard error of a worker is forwarded to the
    subscribers of its job as a progress event whose [progress] is the
    sentinel [-1] and whose message is ["Debug: "] followed by the text of
    the chunk (trimmed); the chunk is not decoded, nothing else is
    broadcast, and the state of the service does not change. *)
Theorem C9_stderr_forwarded :
  forall JSON_parse s p cp data,
    processes s !! p = Some cp ->
    step JSON_parse (StderrData p data) s
    = Some (s, [Log Warn "Python process stderr" (owner cp);
                Broadcast (owner cp)
                  (ProgressEvent (owner cp) (now s) (JNum (num (-1)))
                     ("Debug: " +:+ trim data))]).
Proof.
  intros JSON_parse s p cp data Hp. simpl. rewrite Hp. reflexivity.
Qed.

Lemma C9_stderr_forwarded_witness :
  processes s_running !! 0%nat = Some (mkChildProcess "job-1" false false) /\
  step json_decode (StderrData 0 ("  Traceback: boom" +:+ nl)) s_running
  = Some (s_running,
          [Log Warn "Python process stderr" "job-1";
           Broadcast "job-1"
             (ProgressEvent "job-1" 0 (JNum (num (-1))) "Debug: Traceback: boom")]).
Proof.
  assert (H : processes s_running !! 0%nat = Some (mkChildProcess "job-1" false false))
    by (vm_compute; reflexivity).
  split; [exact H|].
  exact (C9_stderr_forwarded json_decode s_running 0%nat _ ("  Traceback: boom" +:+ nl) H).
Defined.

(** C10.  A decoded message of type [progress] whose [percent] is absent
    or is the number zero is forwarded with [progress] 50: the default is
    substituted for every falsy [percent] (and only then), so a reported 0
    never reaches the subscribers as 0.  The event forwarded is the only
    one; none is forwarded when the text of the event cannot be built
    (the [step] of the message has no conversion to a string), as the
    handler then throws before it sends. *)
Theorem C10_zero_percent_becomes_50 :
  forall id message s,
    get_prop "type" message = JStr "progress" ->
    let percent := get_prop "percent" message in
    let sent := broadcasts (trace (handleProgressMessage id message s)) in
    let event progress :=
      match ToString (js_or (get_prop "step" message) (JStr "Processing")) with
      | Some text => [(id, ProgressEvent id (now s) progress (text +:+ "..."))]
      | None => []
      end in
    ((percent = JUndefined \/ exists n, percent = JNum n /\ mant n = 0) ->
     sent = event (JNum (num 50))) /\
    (ToBoolean percent = false -> sent = event (JNum (num 50))) /\
    (ToBoolean percent = true -> sent = event percent) /\
    Forall (fun b => match b.2 with
                     | ProgressEvent _ _ progress _ =>
                         progress = js_or percent (JNum (num 50)) /\
                         ToBoolean progress = true
                     | _ => False
                     end) sent.
Proof.
  intros id message s Hty percent sent event.
  assert (E : sent = event (js_or percent (JNum (num 50)))).
  { unfold sent, event. rewrite message_broadcasts. unfold message_events.
    destruct message; try discriminate.
    rewrite Hty. cbn [String.eqb Ascii.eqb Bool.eqb]. cbv iota.
    unfold progress_event. fold percent.
    destruct (ToString _) as [text|]; reflexivity. }
  assert (F : ToBoolean percent = false -> sent = event (JNum (num 50))).
  { intros Hf. rewrite E. unfold js_or. now rewrite Hf. }
  split; [|split; [exact F|split]].
  - intros [Hu | (n & Hn & Hz)]; apply F; [now rewrite Hu|].
    rewrite Hn. simpl. now rewrite Hz.
  - intros Ht. rewrite E. unfold js_or. now rewrite Ht.
  - rewrite E. unfold event.
    destruct (ToString _) as [text|]; repeat constructor. simpl.
    unfold js_or. destruct (ToBoolean percent) eqn:Hp; auto.
Qed.

Lemma C10_zero_percent_becomes_50_witness :
  (exists message,
     json_decode (json "{'type':'progress','percent':0,'step':'tts'}") = Some message /\
     broadcasts (trace (handleProgressMessage "job-1" message s_running))
     = [("job-1", ProgressEvent "job-1" 0 (JNum (num 50)) "tts...")]) /\
  json_decode rec_progress_odd = Some msg_progress_odd /\
  broadcasts (trace (handleProgressMessage "job-1" msg_progress_odd s_running)) = [].
Proof.
  split; [|split; [vm_compute; reflexivity|]].
  - exists (JObj [("type", JStr "progress"); ("percent", JNum (num 0));
                  ("step", JStr "tts")]).
    split; [vm_compute; reflexivity|].
    exact (proj1 (C10_zero_percent_becomes_50 "job-1"
                    (JObj [("type", JStr "progress"); ("percent", JNum (num 0));
                           ("step", JStr "tts")])
                    s_running eq_refl)
             (or_intror (ex_intro _ (num 0) (conj eq_refl eq_refl)))).
  - exact (proj1 (C10_zero_percent_becomes_50 "job-1" msg_progress_odd s_running eq_refl)
             (or_intror (ex_intro _ (num 0) (conj eq_refl eq_refl)))).
Defined.

(** C5.  A chunk made of one malformed line followed by N well-formed
    records is handled as one warning followed by the N decoded messages,
    dispatched in their order: the events broadcast are those of the N
    messages, in order, the malformed line contributing only its warning;
    and a decoded message whose type is none of [progress], [complete],
    [error] is logged and changes nothing.  Lines are taken as the worker
    writes them: not empty and without blanks at their ends.  The event of
    a [progress] record is the one built from it; a record whose text
    cannot be built (its [step] has no conversion to a string) is decoded
    and dispatched like the others, and the throw of its handler is
    caught by the loop: it leaves the same warning as a malformed line, no
    event, and the loop goes on. *)
Theorem C5_malformed_line_skipped :
  forall JSON_parse id bad goods msgs s,
    tight bad = true ->
    JSON_parse bad = None ->
    Forall2 (fun l m => tight l = true /\ JSON_parse l = Some (JObj m)) goods msgs ->
    let r := handleStdoutData JSON_parse id (unlines (bad :: goods)) s in
    r = (log Warn "Failed to parse JSON progress message" id ;;
         for_each (map JObj msgs) (dispatch id)) s /\
    broadcasts (trace r)
    = concat (map (fun m => map (pair id) (message_events id (now s) (JObj m))) msgs) /\
    (Forall (fun m => is_progress (JObj m) = true) msgs ->
     broadcasts (trace r)
     = omap (fun m => pair id <$> progress_event id (now s) (JObj m)) msgs) /\
    (forall evs,
       Forall2 (fun m ev => is_progress (JObj m) = true /\
                            progress_event id (now s) (JObj m) = Some ev) msgs evs ->
       broadcasts (trace r) = map (pair id) evs) /\
    (forall m s', unknown_type m = true ->
       handleProgressMessage id m s'
       = (Normal, s', [Log Debug "Received progress message" id;
                       Log Warn "Unknown progress message type" id])) /\
    (forall m s', is_progress m = true -> progress_event id (now s') m = None ->
       dispatch id m s'
       = (tt, s', [Log Debug "Received progress message" id;
                   Log Warn "Failed to parse JSON progress message" id])).
Proof.
  intros JSON_parse id bad goods msgs s Hbad Hnone Hgood r.
  assert (Hr : r = (log Warn "Failed to parse JSON progress message" id ;;
                    for_each (map JObj msgs) (dispatch id)) s).
  { unfold r. rewrite handleStdoutData_visit, stdout_lines_unlines.
    - simpl for_each. unfold bind. unfold visit at 1. rewrite Hnone.
      unfold log, emit.
      rewrite (for_each_decoded JSON_parse id goods (map JObj msgs)); [reflexivity|].
      clear -Hgood. induction Hgood as [|l m ls ms [_ Hl] _ IH]; constructor; auto.
    - constructor; [assumption|].
      clear -Hgood. induction Hgood as [|l m ls ms [Hl _] _ IH]; constructor; auto. }
  assert (Hb : broadcasts (trace r)
               = concat (map (fun m => map (pair id) (message_events id (now s) (JObj m)))
                             msgs)).
  { rewrite Hr. unfold bind, log, emit.
    pose proof (dispatches_broadcasts id (map JObj msgs) s) as Hd.
    destruct (for_each (map JObj msgs) (dispatch id) s) as [[[] s1] t1].
    unfold trace in *. simpl in *. rewrite Hd, map_map. reflexivity. }
  assert (Hm : forall m, is_progress (JObj m) = true ->
                 message_events id (now s) (JObj m)
                 = match progress_event id (now s) (JObj m) with
                   | Some ev => [ev]
                   | None => []
                   end).
  { intros m H. unfold message_events, is_progress in *.
    destruct (get_prop "type" (JObj m)) as [| | | |ty| |]; try discriminate.
    now rewrite H. }
  split; [exact Hr|]. split; [exact Hb|]. split; [|split; [|split]].
  - intros Hall. rewrite Hb. clear -Hall Hm.
    induction Hall as [|m ms H _ IH]; [reflexivity|].
    cbn [map concat omap list_omap]. rewrite IH, (Hm m H).
    destruct (progress_event id (now s) (JObj m)); reflexivity.
  - intros evs Hall. rewrite Hb. clear -Hall Hm.
    induction Hall as [|m ev ms evs [H Hev] _ IH]; [reflexivity|].
    cbn [map concat]. rewrite IH, (Hm m H), Hev. reflexivity.
  - intros m s'. apply unknown_message_eq.
  - intros m s' H Hev. unfold dispatch, bind.
    rewrite (progress_message_throw _ _ _ H Hev). reflexivity.
Qed.

Lemma C5_malformed_line_skipped_witness :
  (let chunk := unlines ["Traceback (most recent call last):"; rec_progress10; rec_complete] in
   broadcasts (trace (handleStdoutData json_decode "job-1" chunk s_running))
   = [("job-1", ProgressEvent "job-1" 0 (JNum (num 10)) "Processing...");
      ("job-1", PodcastCompleted "job-1" 0 (JStr "/out/a.bin") (JObj []));
      ("job-1", ProgressEvent "job-1" 0 (JNum (num 100)) "Podcast generation complete!")]) /\
  (let chunk := unlines ["Traceback (most recent call last):"; rec_progress_odd;
                         rec_progress10] in
   broadcasts (trace (handleStdoutData json_decode "job-1" chunk s_running))
   = [("job-1", ProgressEvent "job-1" 0 (JNum (num 10)) "Processing...")]).
Proof.
  assert (Htight : tight "Traceback (most recent call last):" = true)
    by (vm_compute; reflexivity).
  assert (Hnone : json_decode "Traceback (most recent call last):" = None)
    by (vm_compute; reflexivity).
  split.
  - assert (Hgood :
      Forall2 (fun l m => tight l = true /\ json_decode l = Some (JObj m))
        [rec_progress10; rec_complete]
        [[("type", JStr "progress"); ("percent", JNum (num 10))];
         [("type", JStr "complete"); ("file_path", JStr "/out/a.bin")]]).
    { repeat constructor; vm_compute; reflexivity. }
    exact (proj1 (proj2 (C5_malformed_line_skipped json_decode "job-1" _ _ _ s_running
                           Htight Hnone Hgood))).
  - assert (Hgood :
      Forall2 (fun l m => tight l = true /\ json_decode l = Some (JObj m))
        [rec_progress_odd; rec_progress10]
        [[("type", JStr "progress"); ("percent", JNum (num 0));
          ("step", JObj [("toString", JNum (num 1))])];
         [("type", JStr "progress"); ("percent", JNum (num 10))]]).
    { repeat constructor; vm_compute; reflexivity. }
    exact (proj1 (proj2 (C5_malformed_line_skipped json_decode "job-1" _ _ _ s_running
                           Htight Hnone Hgood))).
Defined.

(** C4, as the code has it.  [handleStdoutData] keeps no buffer: every
    chunk is trimmed, split and decoded on its own, so that a run of
    chunks is handled as the lines of each chunk taken separately.  When
    each chunk is made of whole records (however many, and however the
    records are grouped into chunks), the records are decoded one by one
    in their order, so N records give N dispatched messages. *)
Theorem C4_whole_records_decoded :
  forall JSON_parse id (lss : list (list string)) (mss : list (list (list (string * JSValue)))) s,
    Forall2 (Forall2 (fun l m => tight l = true /\ JSON_parse l = Some (JObj m))) lss mss ->
    let r := for_each (map unlines lss) (handleStdoutData JSON_parse id) s in
    (forall chunks s0,
       for_each chunks (handleStdoutData JSON_parse id) s0
       = for_each (concat (map stdout_lines chunks)) (visit JSON_parse id) s0) /\
    r = for_each (map JObj (concat mss)) (dispatch id) s /\
    broadcasts (trace r)
    = concat (map (fun m => map (pair id) (message_events id (now s) (JObj m)))
                  (concat mss)) /\
    length (concat mss) = length (concat lss).
Proof.
  intros JSON_parse id lss mss s H r.
  assert (Hr : r = for_each (map JObj (concat mss)) (dispatch id) s).
  { unfold r. clear r. revert s.
    induction H as [|ls ms lss mss Hl _ IH]; intros s; [reflexivity|].
    cbn [map concat for_each]. rewrite map_app, for_each_app.
    unfold bind.
    rewrite (whole_lines JSON_parse id ls (map JObj ms)).
    - destruct (for_each (map JObj ms) (dispatch id) s) as [[[] s1] t1].
      now rewrite IH.
    - clear -Hl. induction Hl as [|l m ls ms [? ?] _ IH]; constructor; auto. }
  split; [intros chunks s0; apply chunk_by_chunk|].
  repeat split; [exact Hr | |].
  - rewrite Hr, dispatches_broadcasts, map_map. reflexivity.
  - clear -H. induction H as [|ls ms lss mss Hl _ IH]; [reflexivity|].
    cbn [concat]. rewrite !length_app, IH. f_equal.
    symmetry. eapply Forall2_length, Hl.
Qed.

Lemma C4_whole_records_decoded_witness :
  broadcasts
    (trace (for_each (map unlines [[rec_progress10]; []; [rec_progress10; rec_complete]])
              (handleStdoutData json_decode "job-1") s_running))
  = [("job-1", ProgressEvent "job-1" 0 (JNum (num 10)) "Processing...");
     ("job-1", ProgressEvent "job-1" 0 (JNum (num 10)) "Processing...");
     ("job-1", PodcastCompleted "job-1" 0 (JStr "/out/a.bin") (JObj []));
     ("job-1", ProgressEvent "job-1" 0 (JNum (num 100)) "Podcast generation complete!")].
Proof.
  assert (H :
    Forall2 (Forall2 (fun l m => tight l = true /\ json_decode l = Some (JObj m)))
      [[rec_progress10]; []; [rec_progress10; rec_complete]]
      [[[("type", JStr "progress"); ("percent", JNum (num 10))]]; [];
       [[("type", JStr "progress"); ("percent", JNum (num 10))];
        [("type", JStr "complete"); ("file_path", JStr "/out/a.bin")]]]).
  { repeat constructor; vm_compute; reflexivity. }
  exact (proj1 (proj2 (proj2
           (C4_whole_records_decoded json_decode "job-1" _ _ s_running H)))).
Defined.

(** C4, as stated, fails: a record cut in two by a chunk boundary is not
    put together again.  The two chunks below concatenate to one
    well-formed record followed by a line feed; fed one after the other
    they give two warnings and no event, while the same bytes in one chunk
    give the event. *)
Lemma C4_counterexample :
  let c1 := json "{'type':'progr" in
  let c2 := json "ess','percent':10}" +:+ nl in
  c1 +:+ c2 = unlines [rec_progress10] /\
  tight rec_progress10 = true /\
  json_decode rec_progress10
  = Some (JObj [("type", JStr "progress"); ("percent", JNum (num 10))]) /\
  broadcasts (trace (for_each [c1 +:+ c2] (handleStdoutData json_decode "job-1") s_running))
  = [("job-1", ProgressEvent "job-1" 0 (JNum (num 10)) "Processing...")] /\
  broadcasts (trace (for_each [c1; c2] (handleStdoutData json_decode "job-1") s_running))
  = [] /\
  warnings (trace (for_each [c1; c2] (handleStdoutData json_decode "job-1") s_running))
  = ["Failed to parse JSON progress message"; "Failed to parse JSON progress message"].
Proof. vm_compute. repeat split; reflexivity. Qed.

(* ===================================================================== *)
(** ** Termination: cancel, timeout, exit, terminal messages               *)
(* ===================================================================== *)

Section Termination.

Lemma escalation_active p s :
  activeGenerations (state_of (escalation p s)) = activeGenerations s
  /\ now (state_of (escalation p s)) = now s.
Proof.
  unfold escalation. unfold_m.
  destruct (processes s !! p) as [[o k x]|] eqn:Hp; [destruct k, x|];
    repeat (cbn_m; rewrite ?Hp); split; reflexivity.
Qed.

Lemma escalation_trace p s :
  cleared (trace (escalation p s)) = [] /\
  unlinks (trace (escalation p s)) = [] /\
  broadcasts (trace (escalation p s)) = [].
Proof.
  unfold escalation. unfold_m.
  destruct (processes s !! p) as [[o k x]|] eqn:Hp; [destruct k, x|];
    repeat (cbn_m; rewrite ?Hp); repeat split; reflexivity.
Qed.

Lemma escalation_live p id s :
  processes s !! p = Some (mkChildProcess id false false) ->
  escalation p s
  = (tt, escalated p id s,
     [Kill p SIGTERM; SetTimeout (next_timer s) (ForceKill p) 5000]).
Proof.
  intros Hp. unfold escalation. unfold_m. repeat (cbn_m; rewrite ?Hp). reflexivity.
Qed.

Lemma cancel_general id s g :
  activeGenerations s !! id = Some g ->
  cancelGeneration id s
  = (true, cleaned id (state_of (escalation (process g) s)),
     [Log Info "Cancelling podcast generation" id]
     ++ trace (escalation (process g) s)
     ++ cleanup_trace id g
     ++ [Broadcast id (ErrorEvent (JStr "Generation cancelled by user") id (now s))]).
Proof.
  intros Hg. unfold escalation. unfold_m.
  destruct (processes s !! process g) as [[o k x]|] eqn:Hp; [destruct k, x|];
    repeat (cbn_m; rewrite ?Hg, ?Hp); destruct (timeoutHandle g); reflexivity.
Qed.

Lemma timeout_general id s g :
  activeGenerations s !! id = Some g ->
  handleTimeout id s
  = (Normal, cleaned id (state_of (escalation (process g) s)),
     [Log Warn "Podcast generation timed out" id]
     ++ trace (escalation (process g) s)
     ++ [Log Error "Podcast generation error" id;
         Broadcast id
           (ErrorEvent (JStr "Podcast generation timed out (TIMEOUT_ERROR)") id (now s))]
     ++ cleanup_trace id g).
Proof.
  intros Hg. unfold escalation. unfold_m.
  destruct (processes s !! process g) as [[o k x]|] eqn:Hp; [destruct k, x|];
    repeat (cbn_m; rewrite ?Hg, ?Hp); destruct (timeoutHandle g); reflexivity.
Qed.

Lemma cleaned_facts id s g h :
  activeGenerations s !! id = Some g -> timeoutHandle g = Some h ->
  activeGenerations (cleaned id s) = delete id (activeGenerations s) /\
  timers (cleaned id s) !! h = None /\
  cleanupGeneration id (cleaned id s) = (tt, cleaned id s, []).
Proof.
  intros Hg Hh. split; [apply cleaned_active|]. split.
  - unfold cleaned. rewrite Hg, Hh. simpl. apply lookup_delete_eq.
  - apply cleanup_inactive, cleaned_inactive.
Qed.

Lemma cleanup_trace_cleared id g h :
  timeoutHandle g = Some h ->
  cleared (cleanup_trace id g) = [h] /\ unlinks (cleanup_trace id g) = [configFilePath g].
Proof. intros Hh. unfold cleanup_trace. rewrite Hh. split; reflexivity. Qed.
(** Every way of ending an active generation leaves the state cleaned
    and a trace with exactly the cleanup of that generation in it. *)
Lemma fire_cleans tr id s g :
  activeGenerations s !! id = Some g -> trigger_ok tr = true ->
  exists s1 before after,
    activeGenerations s1 = activeGenerations s /\
    state_of (fire tr id s) = cleaned id s1 /\
    trace (fire tr id s) = before ++ cleanup_trace id g ++ after /\
    cleared before = [] /\ unlinks before = [] /\
    cleared after = [] /\ unlinks after = [].
Proof.
  intros Hg Hok. destruct tr as [m | m | c sg | |]; simpl in Hok; simpl fire.
  - exists s. unfold bind. rewrite (complete_message_eq _ _ _ Hok), handleCompletion_eq.
    rewrite (cleanup_active _ _ _ Hg). unfold state_of, trace, ret. cbn [fst snd].
    rewrite ?app_nil_r.
    eexists [_; _; _; _], [_]. repeat split; reflexivity.
  - exists s. apply andb_true_iff in Hok as [Hty Hok].
    destruct (message_error_text m) as [text|] eqn:Et; [|discriminate].
    rewrite (error_message_eq _ _ _ _ Hty Et).
    rewrite (cleanup_active _ _ _ Hg). unfold state_of, trace. cbn [fst snd].
    eexists [_; _; _], []. rewrite !app_nil_r. repeat split; reflexivity.
  - exists s. apply negb_true_iff, Z.eqb_neq in Hok.
    rewrite (exit_nonzero_active _ _ _ _ _ Hg Hok). unfold state_of, trace. cbn [fst snd].
    eexists [_; _; _], []. rewrite !app_nil_r. repeat split; reflexivity.
  - exists (state_of (escalation (process g) s)). unfold bind.
    rewrite (cancel_general _ _ _ Hg). unfold state_of at 2, trace at 1, ret.
    cbn [fst snd]. rewrite ?app_nil_r.
    destruct (escalation_active (process g) s) as [Ha _].
    destruct (escalation_trace (process g) s) as (Hc & Hu & _).
    exists (Log Info "Cancelling podcast generation" id :: trace (escalation (process g) s)).
    eexists [_].
    repeat split; try reflexivity; try assumption.
  - exists (state_of (escalation (process g) s)).
    rewrite (timeout_general _ _ _ Hg). unfold state_of at 2, trace at 1. cbn [fst snd].
    destruct (escalation_active (process g) s) as [Ha _].
    destruct (escalation_trace (process g) s) as (Hc & Hu & _).
    exists (Log Warn "Podcast generation timed out" id
            :: trace (escalation (process g) s) ++
               [Log Error "Podcast generation error" id;
                Broadcast id
                  (ErrorEvent (JStr "Podcast generation timed out (TIMEOUT_ERROR)")
                     id (now s))]), [].
    rewrite app_nil_r.
    repeat split; try reflexivity; try assumption.
    + unfold trace at 1. cbn [snd app]. now rewrite <- app_assoc.
    + change (cleared (?x :: ?l)) with (cleared l). rewrite cleared_app, Hc. reflexivity.
    + change (unlinks (?x :: ?l)) with (unlinks l). rewrite unlinks_app, Hu. reflexivity.
Qed.

Lemma escalation_timers p s h :
  (h < next_timer s)%nat ->
  timers (state_of (escalation p s)) !! h = timers s !! h.
Proof.
  intros Hlt. unfold escalation. unfold_m.
  destruct (processes s !! p) as [[o k x]|] eqn:Hp; [destruct k, x|];
    repeat (cbn_m; rewrite ?Hp); try reflexivity;
    apply lookup_insert_ne; lia.
Qed.

(** Ending an active generation leaves the timers of the others as they
    are. *)
Lemma fire_timers tr id s g h :
  activeGenerations s !! id = Some g -> trigger_ok tr = true ->
  (h < next_timer s)%nat -> timeoutHandle g <> Some h ->
  timers (state_of (fire tr id s)) !! h = timers s !! h.
Proof.
  intros Hg Hok Hlt Hne.
  assert (Hc : forall s1, activeGenerations s1 = activeGenerations s ->
                 timers s1 !! h = timers s !! h ->
                 timers (cleaned id s1) !! h = timers s !! h).
  { intros s1 Ha Ht. unfold cleaned. rewrite Ha, Hg.
    destruct (timeoutHandle g) as [hg|]; cbn; [|exact Ht].
    rewrite lookup_delete_ne by congruence. exact Ht. }
  destruct tr as [m | m | c sg | |]; simpl in Hok; simpl fire.
  - rewrite (complete_message_eq _ _ _ Hok). now apply Hc.
  - apply andb_true_iff in Hok as [Hty Hok].
    destruct (message_error_text m) as [text|] eqn:Et; [|discriminate].
    rewrite (error_message_eq _ _ _ _ Hty Et). now apply Hc.
  - apply negb_true_iff, Z.eqb_neq in Hok.
    rewrite (exit_nonzero_active _ _ _ _ _ Hg Hok). now apply Hc.
  - unfold bind. rewrite (cancel_general _ _ _ Hg). unfold state_of at 1. cbn [fst snd].
    apply Hc; [apply escalation_active | now apply escalation_timers].
  - rewrite (timeout_general _ _ _ Hg). unfold state_of at 1. cbn [fst snd].
    apply Hc; [apply escalation_active | now apply escalation_timers].
Qed.

End Termination.

(** C3, as stated, fails in two ways.  An [error] message whose text
    cannot be built ends nothing: with a code, the text of the event is a
    template of the error and the code, and an [error] that is an object
    with a [toString] entry of its own has no conversion to a string, so
    [handleError] throws before it broadcasts and before it cleans up; the
    timer stays armed, the config file stays, the generation stays active,
    and the loop of [handleStdoutData] logs the throw as a line it could
    not parse.  And a generation that is replaced by a second start under
    its id is never cleaned up: the cancellation below releases the timer
    and the file of the second generation only; the timer of the first is
    still pending and its file was never deleted, while no generation is
    left that a later cleanup could find. *)
Lemma C3_counterexample :
  (let line := json "{'type':'error','error':{'toString':1},'code':'E'}" in
   let r := handleStdoutData json_decode "job-1" (line +:+ nl) s_running in
   (exists m, json_decode line = Some m /\ has_type "error" m = true /\
              fire (ByError m) "job-1" s_running
              = (Throw "TypeError", s_running,
                 [Log Debug "Received progress message" "job-1";
                  Log Error "Podcast generation error" "job-1"])) /\
   state_of r = s_running /\
   activeGenerations s_running !! "job-1"
   = Some (mkActiveGeneration "job-1" 0 "/tmp/podcastfy_config_c1.json" 0 (Some 0%nat)) /\
   cleared (trace r) = [] /\ unlinks (trace r) = [] /\ broadcasts (trace r) = [] /\
   warnings (trace r) = ["Failed to parse JSON progress message"]) /\
  (exists s t,
     run json_decode
       [CallGenerate "job-1" opts0 "c1" None None;
        CallGenerate "job-1" opts0 "c2" None None;
        CallCancel "job-1"] (initial env0) = Some (s, t) /\
     staged t = ["/tmp/podcastfy_config_c1.json"; "/tmp/podcastfy_config_c2.json"] /\
     unlinks t = ["/tmp/podcastfy_config_c2.json"] /\
     armed t = [(0%nat, OnTimeout "job-1", TIMEOUT_MS); (1%nat, OnTimeout "job-1", TIMEOUT_MS);
                (2%nat, ForceKill 1, 5000)] /\
     cleared t = [1%nat] /\
     timers s !! 0%nat = Some (TIMEOUT_MS, OnTimeout "job-1") /\
     activeGenerations s = ∅ /\
     cleanupGeneration "job-1" s = (tt, s, [])).
Proof.
  split.
  - cbv zeta. split.
    { eexists. split; [vm_compute; reflexivity|]. split; vm_compute; reflexivity. }
    repeat split; vm_compute; reflexivity.
  - do 2 eexists. split; [vm_compute; reflexivity|].
    repeat split; vm_compute; reflexivity.
Qed.

(** C3, as the code has it.  Whatever ends a generation that is in the
    active map (a [complete] message, an [error] message whose event text
    can be built, a non-zero exit, a cancellation or the timeout), the
    cleanup runs once: the handler cancels the timeout timer of the
    generation once, deletes its config file once and removes it from the
    active map; and a further [cleanupGeneration] for the same id does
    nothing at all.  (In every reachable state an active generation has
    its timer handle, see [reachable_wf].)  An [error] message whose text
    cannot be built releases nothing: the handler throws after its two log
    entries and leaves the state as it is.  And when an active generation
    has been replaced by a second start under its id, what ends the id
    afterwards releases the timer and the config file of the second
    generation only: the timer of the first is still pending afterwards,
    its file is not deleted, and the id is inactive, so that no further
    cleanup does anything. *)
Theorem C3_cleanup_exactly_once :
  (forall tr id s g h,
     activeGenerations s !! id = Some g ->
     timeoutHandle g = Some h ->
     trigger_ok tr = true ->
     let r := fire tr id s in
     cleared (trace r) = [h] /\
     unlinks (trace r) = [configFilePath g] /\
     activeGenerations (state_of r) = delete id (activeGenerations s) /\
     timers (state_of r) !! h = None /\
     cleanupGeneration id (state_of r) = (tt, state_of r, [])) /\
  (forall m id s,
     has_type "error" m = true ->
     message_error_text m = None ->
     fire (ByError m) id s
     = (Throw "TypeError", s,
        [Log Debug "Received progress message" id;
         Log Error "Podcast generation error" id])) /\
  (forall JSON_parse tr id s g h options configId,
     reachable JSON_parse s ->
     activeGenerations s !! id = Some g ->
     timeoutHandle g = Some h ->
     trigger_ok tr = true ->
     let r := fire tr id (state_of (generatePodcast id options configId None None s)) in
     cleared (trace r) = [next_timer s] /\
     h <> next_timer s /\
     unlinks (trace r) = [config_path configId s] /\
     (configFilePath g <> config_path configId s -> configFilePath g ∉ unlinks (trace r)) /\
     timers (state_of r) !! h = Some (startTime g + TIMEOUT_MS, OnTimeout id) /\
     activeGenerations (state_of r) !! id = None /\
     cleanupGeneration id (state_of r) = (tt, state_of r, [])).
Proof.
  assert (P1 : forall tr id s g h,
     activeGenerations s !! id = Some g ->
     timeoutHandle g = Some h ->
     trigger_ok tr = true ->
     let r := fire tr id s in
     cleared (trace r) = [h] /\
     unlinks (trace r) = [configFilePath g] /\
     activeGenerations (state_of r) = delete id (activeGenerations s) /\
     timers (state_of r) !! h = None /\
     cleanupGeneration id (state_of r) = (tt, state_of r, [])).
  { intros tr id s g h Hg Hh Hok r.
    destruct (fire_cleans tr id s g Hg Hok)
      as (s1 & before & after & Ha & Hs & Ht & Hcb & Hub & Hca & Hua).
    fold r in Hs, Ht.
    assert (Hg1 : activeGenerations s1 !! id = Some g) by now rewrite Ha.
    destruct (cleaned_facts id s1 g h Hg1 Hh) as (Hd & Hn & Hc).
    destruct (cleanup_trace_cleared id g h Hh) as [Hcl Hul].
    rewrite Hs, Ht, !cleared_app, !unlinks_app, Hcb, Hub, Hca, Hua, Hcl, Hul, Hd, Ha.
    repeat split; auto. }
  split; [exact P1|]. split.
  - intros m id s Hty Hn. simpl fire. now apply error_message_throw.
  - intros JSON_parse tr id s g h options configId Hr Hg Hh Hok r.
    pose proof (reachable_wf _ _ Hr) as Hwf.
    destruct (wf_timer s Hwf id g Hg) as (h0 & Hh0 & Ht).
    rewrite Hh in Hh0. injection Hh0 as <-.
    pose proof (wf_timer_alloc s Hwf h _ Ht) as Hlt.
    destruct (generate_ok id options configId s) as (cfg & exe & args & E).
    set (path := config_path configId s) in *.
    set (s1 := started id path s) in *.
    set (g' := mkActiveGeneration id (next_process s) path (now s) (Some (next_timer s))).
    assert (Er : r = fire tr id s1) by (unfold r; rewrite E; reflexivity).
    clearbody r. subst r.
    assert (Hg1 : activeGenerations s1 !! id = Some g') by apply lookup_insert_eq.
    destruct (P1 tr id s1 g' (next_timer s) Hg1 eq_refl Hok) as (Hc & Hu & Ha & _ & Hz).
    split; [exact Hc|]. split; [lia|]. split; [exact Hu|]. split.
    { intros Hne. rewrite Hu. intros Hin. apply list_elem_of_singleton in Hin.
      now apply Hne. }
    split.
    { rewrite (fire_timers tr id s1 g' h Hg1 Hok).
      - unfold s1, started. cbn [timers]. rewrite lookup_insert_ne by lia. exact Ht.
      - unfold s1, started. cbn [next_timer]. lia.
      - unfold g'. cbn [timeoutHandle]. intros [= E0]. lia. }
    split; [|exact Hz].
    rewrite Ha. apply lookup_delete_eq.
Qed.

Lemma C3_cleanup_exactly_once_witness :
  Forall (fun tr =>
            cleared (trace (fire tr "job-1" s_running)) = [0%nat] /\
            unlinks (trace (fire tr "job-1" s_running))
            = ["/tmp/podcastfy_config_c1.json"] /\
            activeGenerations (state_of (fire tr "job-1" s_running)) !! "job-1" = None)
    [ByComplete (JObj [("type", JStr "complete")]);
     ByError (JObj [("type", JStr "error"); ("error", JStr "bad input")]);
     ByExit 1 None; ByCancel; ByTimeout] /\
  fire (ByError msg_error_odd) "job-1" s_running
  = (Throw "TypeError", s_running,
     [Log Debug "Received progress message" "job-1";
      Log Error "Podcast generation error" "job-1"]) /\
  (let r := fire ByCancel "job-1"
              (state_of (generatePodcast "job-1" opts0 "c2" None None s_running)) in
   cleared (trace r) = [1%nat] /\
   unlinks (trace r) = ["/tmp/podcastfy_config_c2.json"] /\
   timers (state_of r) !! 0%nat = Some (TIMEOUT_MS, OnTimeout "job-1")).
Proof.
  split; [|split].
  - repeat (apply List.Forall_cons; [cbv beta; refine (conj _ (conj _ _))|]);
      try apply List.Forall_nil;
      match goal with
      | |- cleared (trace (fire ?tr _ _)) = _ =>
          exact (proj1 (proj1 C3_cleanup_exactly_once tr "job-1" s_running _ 0%nat
                          s_running_active eq_refl eq_refl))
      | |- unlinks (trace (fire ?tr _ _)) = _ =>
          exact (proj1 (proj2 (proj1 C3_cleanup_exactly_once tr "job-1" s_running _ 0%nat
                                 s_running_active eq_refl eq_refl)))
      | |- activeGenerations (state_of (fire ?tr _ _)) !! _ = _ =>
          rewrite (proj1 (proj2 (proj2 (proj1 C3_cleanup_exactly_once tr "job-1" s_running _
                                          0%nat s_running_active eq_refl eq_refl))));
          apply lookup_delete_eq
      end.
  - exact (proj1 (proj2 C3_cleanup_exactly_once) msg_error_odd "job-1" s_running
             eq_refl eq_refl).
  - pose proof (proj2 (proj2 C3_cleanup_exactly_once) json_decode ByCancel "job-1"
                  s_running _ 0%nat opts0 "c2" s_running_reachable s_running_active
                  eq_refl eq_refl) as (H1 & _ & H3 & _ & H5 & _).
    exact (conj H1 (conj H3 H5)).
Defined.

(** C7.  [cancelGeneration] answers [false] exactly when the id is not
    active, and then changes nothing (it only logs a warning); for an
    active generation it answers [true], sends SIGTERM to its process,
    runs the cleanup and broadcasts the error event of the cancellation;
    a second cancel of the same id answers [false] and changes nothing. *)
Theorem C7_cancel :
  forall JSON_parse s id,
    reachable JSON_parse s ->
    let r := cancelGeneration id s in
    (result r = false <-> activeGenerations s !! id = None) /\
    (activeGenerations s !! id = None ->
     r = (false, s, [Log Warn "Attempted to cancel non-existent generation" id])) /\
    (forall g, activeGenerations s !! id = Some g ->
       result r = true /\
       kills (trace r) = [(process g, SIGTERM)] /\
       unlinks (trace r) = [configFilePath g] /\
       cleared (trace r) = from_option (fun h => [h]) [] (timeoutHandle g) /\
       activeGenerations (state_of r) = delete id (activeGenerations s) /\
       broadcasts (trace r)
       = [(id, ErrorEvent (JStr "Generation cancelled by user") id (now s))]) /\
    cancelGeneration id (state_of r)
    = (false, state_of r, [Log Warn "Attempted to cancel non-existent generation" id]).
Proof.
  intros JSON_parse s id Hr r. apply reachable_wf in Hr.
  destruct (activeGenerations s !! id) as [g|] eqn:Hg.
  - destruct (wf_proc s Hr _ _ Hg) as [_ Hp].
    assert (E : r = _) by (exact (cancel_active id s g Hg Hp)).
    rewrite E. unfold result, state_of, trace. cbn [fst snd].
    split; [split; discriminate|]. split; [discriminate|]. split.
    + intros g' [= <-]. split; [reflexivity|].
      rewrite ?kills_app, ?unlinks_app, ?cleared_app, ?broadcasts_app.
      rewrite cleanup_trace_kills, cleanup_trace_broadcasts, cleaned_active.
      unfold cleanup_trace. destruct (timeoutHandle g); repeat split; reflexivity.
    + apply cancel_inactive, cleaned_inactive.
  - assert (E : r = _) by (exact (cancel_inactive id s Hg)).
    rewrite E. unfold result, state_of, trace. cbn [fst snd].
    split; [split; reflexivity|]. split; [reflexivity|]. split; [discriminate|].
    now apply cancel_inactive.
Qed.

Lemma C7_cancel_witness :
  let r := cancelGeneration "job-1" s_running in
  result r = true /\
  kills (trace r) = [(0%nat, SIGTERM)] /\
  broadcasts (trace r)
  = [("job-1", ErrorEvent (JStr "Generation cancelled by user") "job-1" 0)] /\
  result (cancelGeneration "job-1" (state_of r)) = false.
Proof.
  pose proof (C7_cancel json_decode s_running "job-1" s_running_reachable)
    as (_ & _ & Hact & Hsecond).
  destruct (Hact _ s_running_active) as (H1 & H2 & _ & _ & _ & H6).
  cbv zeta. rewrite Hsecond. repeat split; assumption.
Defined.

Lemma s_expired_reachable : reachable json_decode s_expired.
Proof.
  exists env0, [CallGenerate "job-1" opts0 "c1" None None; Elapse TIMEOUT_MS].
  eexists. vm_compute. reflexivity.
Qed.

(** C8.  [generatePodcast] arms one timer of 30 minutes (1 800 000 ms) for
    the generation it registers.  In every reachable state an active
    generation holds that timer, due 30 minutes after its start; the timer
    cannot fire before, and when it fires on the still active generation
    the process gets the same signal and the same force-kill timer as on
    a cancellation, the generation is cleaned up, and the one event
    broadcast is an error whose text carries TIMEOUT_ERROR, which differs
    from the event of a cancellation. *)
Theorem C8_timeout :
  forall JSON_parse s id g,
    reachable JSON_parse s ->
    activeGenerations s !! id = Some g ->
    TIMEOUT_MS = 1800000 /\
    (forall options configId s0,
       let r := generatePodcast id options configId None None s0 in
       armed (trace r) = [(next_timer s0, OnTimeout id, TIMEOUT_MS)] /\
       activeGenerations (state_of r) !! id
       = Some (mkActiveGeneration id (next_process s0) (config_path configId s0)
                 (now s0) (Some (next_timer s0))) /\
       timers (state_of r) !! next_timer s0 = Some (now s0 + TIMEOUT_MS, OnTimeout id)) /\
    exists h,
      timeoutHandle g = Some h /\
      timers s !! h = Some (startTime g + TIMEOUT_MS, OnTimeout id) /\
      (now s < startTime g + TIMEOUT_MS -> step JSON_parse (TimerFires h) s = None) /\
      (startTime g + TIMEOUT_MS <= now s ->
       exists s' t,
         step JSON_parse (TimerFires h) s = Some (s', t) /\
         kills t = [(process g, SIGTERM)] /\
         kills t = kills (trace (cancelGeneration id s)) /\
         armed t = armed (trace (cancelGeneration id s)) /\
         activeGenerations s' !! id = None /\
         broadcasts t
         = [(id, ErrorEvent (JStr "Podcast generation timed out (TIMEOUT_ERROR)")
                   id (now s))] /\
         broadcasts t <> broadcasts (trace (cancelGeneration id s))).
Proof.
  intros JSON_parse s id g Hr Hg. apply reachable_wf in Hr.
  split; [reflexivity|]. split.
  { intros options configId s0 r.
    destruct (generate_ok id options configId s0) as (c & e & a & E).
    unfold r. rewrite E. unfold state_of, trace, started. cbn_m.
    repeat split; [apply lookup_insert_eq | apply lookup_insert_eq]. }
  destruct (wf_timer s Hr _ _ Hg) as (h & Hh & Ht).
  destruct (wf_proc s Hr _ _ Hg) as [_ Hp].
  exists h. split; [assumption|]. split; [assumption|]. split.
  - intros Hlt. simpl. rewrite Ht.
    destruct (Z.leb_spec (startTime g + TIMEOUT_MS) (now s)); [lia | reflexivity].
  - intros Hle. simpl. rewrite Ht.
    destruct (Z.leb_spec (startTime g + TIMEOUT_MS) (now s)); [|lia].
    unfold runTimer.
    rewrite (timeout_active id (set_timers (delete h) s) g Hg Hp).
    do 2 eexists. split; [reflexivity|].
    rewrite (cancel_active id s g Hg Hp).
    unfold state_of, trace. cbn [fst snd].
    rewrite cleaned_inactive.
    unfold kills, armed, broadcasts, cleanup_trace.
    destruct (timeoutHandle g); simpl; repeat split; try reflexivity; discriminate.
Qed.

Lemma C8_timeout_witness :
  exists s' t,
    step json_decode (TimerFires 0) s_expired = Some (s', t) /\
    kills t = [(0%nat, SIGTERM)] /\
    activeGenerations s' !! "job-1" = None /\
    broadcasts t
    = [("job-1", ErrorEvent (JStr "Podcast generation timed out (TIMEOUT_ERROR)")
                   "job-1" 1800000)].
Proof.
  assert (Hg : activeGenerations s_expired !! "job-1"
               = Some (mkActiveGeneration "job-1" 0 "/tmp/podcastfy_config_c1.json" 0
                         (Some 0%nat)))
    by (vm_compute; reflexivity).
  pose proof (C8_timeout json_decode s_expired "job-1" _ s_expired_reachable Hg)
    as (_ & _ & h & Hh & _ & _ & Hfire).
  injection Hh as <-.
  destruct Hfire as (s' & t & Hs & Hk & _ & _ & Ha & Hb & _).
  - vm_compute. discriminate.
  - exists s', t. repeat split; assumption.
Defined.




Section LateEvents.

Variable JSON_parse : string -> option JSValue.

Lemma cleaned_inactive_id id s :
  activeGenerations s !! id = None -> cleaned id s = s.
Proof. intros H. unfold cleaned. now rewrite H. Qed.

Lemma message_quiet id m s :
  activeGenerations s !! id = None ->
  state_of (handleProgressMessage id m s) = s /\
  unlinks (trace (handleProgressMessage id m s)) = [] /\
  cleared (trace (handleProgressMessage id m s)) = [].
Proof.
  intros Hn. split.
  { destruct (message_state id m s) as [-> | ->]; [reflexivity|].
    now apply cleaned_inactive_id. }
  destruct (message_cases id m s)
    as [(c & t & -> & Hl) | [(ev & _ & _ & ->) | [[_ ->] | (text & _ & _ & ->)]]].
  - destruct (logs_quiet _ Hl) as (_ & Hu & Hc & _). split; assumption.
  - split; reflexivity.
  - rewrite handleCompletion_eq, (cleanup_inactive _ _ Hn). split; reflexivity.
  - rewrite (cleanup_inactive _ _ Hn). split; reflexivity.
Qed.

Lemma visit_inactive id line s :
  activeGenerations s !! id = None ->
  state_of (visit JSON_parse id line s) = s /\
  broadcasts (trace (visit JSON_parse id line s)) = line_events JSON_parse id (now s) line /\
  unlinks (trace (visit JSON_parse id line s)) = [] /\
  cleared (trace (visit JSON_parse id line s)) = [].
Proof.
  intros Hn. unfold visit, line_events.
  destruct (JSON_parse line) as [m|]; [|repeat split; reflexivity].
  destruct (message_quiet id m s Hn) as (Hs & Hu & Hc).
  split; [now rewrite dispatch_state|]. split; [apply dispatch_broadcasts|].
  unfold dispatch, bind.
  destruct (handleProgressMessage id m s) as [[[|e] s1] t1];
    unfold trace in *; simpl in *;
    rewrite unlinks_app, cleared_app, Hu, Hc; split; reflexivity.
Qed.

Lemma stdout_inactive id data s :
  activeGenerations s !! id = None ->
  state_of (handleStdoutData JSON_parse id data s) = s /\
  broadcasts (trace (handleStdoutData JSON_parse id data s))
  = concat (map (line_events JSON_parse id (now s)) (stdout_lines data)) /\
  unlinks (trace (handleStdoutData JSON_parse id data s)) = [] /\
  cleared (trace (handleStdoutData JSON_parse id data s)) = [].
Proof.
  intros Hn. rewrite handleStdoutData_visit.
  induction (stdout_lines data) as [|line ls IH]; [repeat split; reflexivity|].
  cbn [for_each map concat]. unfold bind.
  destruct (visit_inactive id line s Hn) as (Hs & Hb & Hu & Hc).
  destruct (visit JSON_parse id line s) as [[[] s1] t1].
  unfold state_of, trace in Hs, Hb, Hu, Hc. simpl in Hs, Hb, Hu, Hc. subst s1.
  destruct IH as (IHs & IHb & IHu & IHc).
  destruct (for_each ls (visit JSON_parse id) s) as [[[] s2] t2].
  unfold state_of, trace in *. simpl in *.
  rewrite broadcasts_app, unlinks_app, cleared_app, Hb, Hu, Hc, IHb, IHu, IHc.
  repeat split; auto.
Qed.

End LateEvents.

(** C2, as stated, fails: worker output is broadcast whatever the active
    map holds.  After ["job-2"] has been cancelled (one terminal event, the
    job inactive), an [error] message still in the pipe of its worker is
    decoded and broadcast as a second terminal event. *)
Lemma C2_counterexample :
  exists s1 t1 s2 t2,
    run json_decode [CallGenerate "job-2" opts0 "c1" None None; CallCancel "job-2"]
      (initial env0) = Some (s1, t1) /\
    activeGenerations s1 !! "job-2" = None /\
    terminal_events "job-2" t1
    = [ErrorEvent (JStr "Generation cancelled by user") "job-2" 0] /\
    step json_decode
      (StdoutData 0 (json "{'type':'error','error':'interrupted'}" +:+ nl)) s1
    = Some (s2, t2) /\
    terminal_events "job-2" t2 = [ErrorEvent (JStr "interrupted") "job-2" 0].
Proof.
  do 4 eexists. split; [vm_compute; reflexivity|].
  split; [vm_compute; reflexivity|].
  split; [vm_compute; reflexivity|].
  split; vm_compute; reflexivity.
Qed.

(** C2, as the code has it.  Once the generation of an id has left the
    active map, an exit callback of its process is ignored: nothing is
    broadcast, nothing is logged and no cleanup is repeated.  Standard
    output of the process is still decoded and broadcast, line by line,
    as for an active generation, without any further cleanup; so more
    than one terminal event can reach the subscribers. *)
Theorem C2_late_events :
  forall JSON_parse s p cp,
    processes s !! p = Some cp ->
    activeGenerations s !! owner cp = None ->
    (forall code signal,
       exited cp = false ->
       exists s',
         step JSON_parse (ProcessExit p code signal) s = Some (s', []) /\
         activeGenerations s' = activeGenerations s /\
         timers s' = timers s) /\
    (forall data,
       exists t,
         step JSON_parse (StdoutData p data) s = Some (s, t) /\
         broadcasts t
         = concat (map (line_events JSON_parse (owner cp) (now s)) (stdout_lines data)) /\
         unlinks t = [] /\ cleared t = []).
Proof.
  intros JSON_parse s p cp Hp Hn. split.
  - intros code signal Hx. simpl. rewrite Hp, Hx.
    rewrite exit_inactive by exact Hn.
    eexists. split; [reflexivity|]. split; reflexivity.
  - intros data. simpl. rewrite Hp.
    destruct (stdout_inactive JSON_parse (owner cp) data s Hn) as (Hs & Hb & Hu & Hc).
    eexists. rewrite Hs. split; [reflexivity|]. repeat split; assumption.
Qed.

Lemma C2_late_events_witness :
  (exists s', step json_decode (ProcessExit 0 (Some 1) None) s_cancelled = Some (s', [])) /\
  (exists t,
     step json_decode (StdoutData 0 (rec_complete +:+ nl)) s_cancelled
     = Some (s_cancelled, t) /\
     broadcasts t
     = [("job-1", PodcastCompleted "job-1" 0 (JStr "/out/a.bin") (JObj []));
        ("job-1", ProgressEvent "job-1" 0 (JNum (num 100)) "Podcast generation complete!")]).
Proof.
  assert (Hp : processes s_cancelled !! 0%nat = Some (mkChildProcess "job-1" true false))
    by (vm_compute; reflexivity).
  assert (Hn : activeGenerations s_cancelled !! "job-1" = None)
    by (vm_compute; reflexivity).
  destruct (C2_late_events json_decode s_cancelled 0%nat _ Hp Hn) as [Hexit Hout].
  split.
  - destruct (Hexit (Some 1) None eq_refl) as (s' & Hs' & _). now exists s'.
  - destruct (Hout (rec_complete +:+ nl)) as (t & Hs & Hb & _).
    exists t. split; [exact Hs|]. rewrite Hb. vm_compute. reflexivity.
Defined.

(* ===================================================================== *)
(** ** The escalation never reaches SIGKILL                                *)
(* ===================================================================== *)

Section Escalation.

Variable JSON_parse : string -> option JSValue.

Lemma message_kills id m s : kills (trace (handleProgressMessage id m s)) = [].
Proof.
  destruct (message_cases id m s)
    as [(c & t & -> & Hl) | [(ev & _ & _ & ->) | [[_ ->] | (text & _ & _ & ->)]]].
  - now destruct (logs_quiet _ Hl) as (_ & _ & _ & Hk & _).
  - reflexivity.
  - rewrite handleCompletion_eq. unfold trace at 1 2. cbn [snd].
    change (kills (_ :: ?l)) with (kills l).
    now rewrite !kills_app, cleanup_kills.
  - unfold trace at 1. cbn [snd]. now rewrite kills_app, cleanup_kills.
Qed.

Lemma stdout_kills id data s :
  kills (trace (handleStdoutData JSON_parse id data s)) = [].
Proof.
  rewrite handleStdoutData_visit. revert s.
  induction (stdout_lines data) as [|line ls IH]; intros s; [reflexivity|].
  cbn [for_each]. unfold bind.
  assert (Hv : kills (trace (visit JSON_parse id line s)) = []).
  { unfold visit. destruct (JSON_parse line) as [m|]; [|reflexivity].
    pose proof (message_kills id m s) as Hm. unfold dispatch, bind.
    destruct (handleProgressMessage id m s) as [[[|e] s1] t1];
      unfold trace in *; simpl in *; now rewrite kills_app, Hm. }
  destruct (visit JSON_parse id line s) as [[[] s1] t1].
  specialize (IH s1). destruct (for_each ls (visit JSON_parse id) s1) as [[[] s2] t2].
  unfold trace in *. simpl in *. now rewrite kills_app, Hv, IH.
Qed.

(** In a well-formed state no turn of the loop sends SIGKILL. *)
Lemma step_kills e s s' t :
  wf s -> step JSON_parse e s = Some (s', t) ->
  Forall (fun k => k.2 = SIGTERM) (kills t).
Proof.
  intros Hwf. destruct e as [id o c w sp | id | p data | p data | p code sg | p msg | h | ms];
    simpl.
  - intros [= _ <-]. destruct w as [msg|]; [|destruct sp as [msg|]].
    + rewrite generate_failed. unfold trace at 1. cbn [snd].
      rewrite kills_app, cleanup_kills. constructor.
    + destruct (generate_spawn_failed id o c msg s) as (cfg & ->).
      unfold trace at 1. cbn [snd]. rewrite kills_app, cleanup_kills. constructor.
    + destruct (generate_ok id o c s) as (cfg & exe & args & ->). constructor.
  - intros [= _ <-]. destruct (activeGenerations s !! id) as [g|] eqn:Hg.
    + destruct (wf_proc s Hwf _ _ Hg) as [_ Hp].
      rewrite (cancel_active _ _ _ Hg Hp). unfold trace. cbn [snd].
      rewrite !kills_app, cleanup_trace_kills. repeat constructor.
    + rewrite (cancel_inactive _ _ Hg). constructor.
  - destruct (processes s !! p) as [cp|]; [|discriminate].
    intros [= _ <-]. rewrite stdout_kills. constructor.
  - destruct (processes s !! p) as [cp|]; [|discriminate].
    intros [= _ <-]. constructor.
  - destruct (processes s !! p) as [cp|] eqn:Hp; [|discriminate].
    destruct (exited cp); [discriminate|].
    intros [= _ <-].
    set (s1 := set_processes _ s).
    destruct (activeGenerations s1 !! owner cp) as [g|] eqn:Hg.
    + destruct code as [c|]; [destruct (Z.eq_dec c 0) as [-> | Hc]|].
      * rewrite (exit_zero_active _ _ _ _ _ Hg) by auto. unfold trace. cbn [snd].
        change (kills (?x :: ?l)) with (kills l).
        rewrite cleanup_trace_kills. constructor.
      * rewrite (exit_nonzero_active _ _ _ _ _ Hg Hc). unfold trace. cbn [snd].
        rewrite kills_app, cleanup_trace_kills. constructor.
      * rewrite (exit_zero_active _ _ _ _ _ Hg) by auto. unfold trace. cbn [snd].
        change (kills (?x :: ?l)) with (kills l).
        rewrite cleanup_trace_kills. constructor.
    + rewrite (exit_inactive _ _ _ _ Hg). constructor.
  - destruct (processes s !! p) as [cp|]; [|discriminate].
    intros [= _ <-]. rewrite process_error_eq. unfold trace at 1. cbn [snd].
    rewrite kills_app, cleanup_kills. constructor.
  - destruct (timers s !! h) as [[due cb]|] eqn:Hh; [|discriminate].
    destruct (due <=? now s); [|discriminate].
    intros [= _ <-]. destruct cb as [id | p]; [simpl|].
    + set (s1 := set_timers (delete h) s).
      destruct (activeGenerations s1 !! id) as [g|] eqn:Hg.
      * destruct (wf_proc s Hwf id g Hg) as [_ Hp].
        rewrite (timeout_active id s1 g Hg Hp). unfold trace. cbn [snd].
        rewrite kills_app, cleanup_trace_kills. repeat constructor.
      * rewrite (timeout_inactive _ _ Hg). constructor.
    + rewrite runTimer_killed; [constructor|].
      rewrite (is_killed_processes p s) by reflexivity. eapply wf_force; eauto.
  - destruct (0 <=? ms); [|discriminate]. intros [= _ <-]. constructor.
Qed.

(** From the initial state, no run of the loop ever sends SIGKILL: every
    signal sent is a SIGTERM. *)
Theorem never_SIGKILL e es s t :
  run JSON_parse es (initial e) = Some (s, t) ->
  Forall (fun k => k.2 = SIGTERM) (kills t).
Proof.
  assert (G : forall es s0 s t, wf s0 -> run JSON_parse es s0 = Some (s, t) ->
              Forall (fun k => k.2 = SIGTERM) (kills t)).
  { clear. intros es. induction es as [|ev es IH]; intros s0 s t Hwf; simpl.
    - intros [= _ <-]. constructor.
    - destruct (step JSON_parse ev s0) as [[s1 t1]|] eqn:E; [|discriminate].
      destruct (run JSON_parse es s1) as [[s2 t2]|] eqn:R; [|discriminate].
      intros [= _ <-]. rewrite kills_app. apply Forall_app. split.
      + eapply step_kills; eauto.
      + eapply IH; [|exact R]. eapply step_wf; eauto. }
  apply G, wf_initial.
Qed.

End Escalation.

(** C6, on the code.  A worker that ignores SIGTERM is cancelled, or times
    out; five seconds later the force-kill timer fires while the process is
    still running.  The only signal ever sent is the SIGTERM: [killed] was
    set by the successful [kill('SIGTERM')], so the callback finds
    [!killed] false and sends nothing; no timer is left to do it later. *)
Theorem C6_sigkill_skipped :
  (exists s t,
     run json_decode
       [CallGenerate "job-3" opts0 "c1" None None; CallCancel "job-3";
        Elapse 5000; TimerFires 1] (initial env0) = Some (s, t) /\
     kills t = [(0%nat, SIGTERM)] /\
     processes s !! 0%nat = Some (mkChildProcess "job-3" true false) /\
     timers s = ∅) /\
  (exists s t,
     run json_decode
       [CallGenerate "job-3" opts0 "c1" None None; Elapse TIMEOUT_MS; TimerFires 0;
        Elapse 5000; TimerFires 1] (initial env0) = Some (s, t) /\
     kills t = [(0%nat, SIGTERM)] /\
     processes s !! 0%nat = Some (mkChildProcess "job-3" true false) /\
     timers s = ∅).
Proof.
  split; do 2 eexists; (split; [vm_compute; reflexivity|]);
    repeat split; vm_compute; reflexivity.
Qed.

(* ===================================================================== *)
(** ** Further properties of the service                                   *)
(* ===================================================================== *)

Lemma closes_app t1 t2 : closes (t1 ++ t2) = closes t1 ++ closes t2.
Proof. apply omap_app. Qed.

Lemma cleanup_trace_closes id g : closes (cleanup_trace id g) = [].
Proof. unfold cleanup_trace. destruct (timeoutHandle g); reflexivity. Qed.

Lemma cleanup_trace_unlinks id g : unlinks (cleanup_trace id g) = [configFilePath g].
Proof. unfold cleanup_trace. destruct (timeoutHandle g); reflexivity. Qed.

Lemma all_white_trimStart d : all_white d = true -> trimStart d = "".
Proof.
  induction d as [|c r IH]; simpl; [easy|].
  intros [Hc Hr]%andb_prop. rewrite Hc. auto.
Qed.

(** A chunk of standard output that holds nothing but blanks and line
    feeds is dropped whole: no line of it reaches the decoder, nothing is
    logged or broadcast, and the state is unchanged. *)
Theorem blank_stdout_ignored JSON_parse id data s :
  all_white data = true ->
  stdout_lines data = [] /\
  handleStdoutData JSON_parse id data s = (tt, s, []).
Proof.
  intros H.
  assert (Hl : stdout_lines data = []).
  { unfold stdout_lines, trim. rewrite (all_white_trimStart _ H). reflexivity. }
  split; [exact Hl|].
  unfold handleStdoutData. rewrite Hl. reflexivity.
Qed.

Lemma blank_stdout_ignored_witness :
  handleStdoutData json_decode "job-1" (" " +:+ nl +:+ nl) s_running = (tt, s_running, []).
Proof.
  exact (proj2 (blank_stdout_ignored json_decode "job-1" (" " +:+ nl +:+ nl) s_running eq_refl)).
Defined.

(** The exit of the worker of an active generation.  The generation is
    cleaned up whatever the exit status, and the process is sent no signal.
    Only a non-zero exit code is reported on the stream, as one error that
    carries the code (and the signal, if any); an exit with code 0, and an
    exit with no code at all (the worker was terminated by a signal), put
    nothing on the stream. *)
Theorem exit_classified JSON_parse s id g code signal :
  reachable JSON_parse s ->
  activeGenerations s !! id = Some g ->
  exists s' t,
    step JSON_parse (ProcessExit (process g) code signal) s = Some (s', t) /\
    activeGenerations s' = delete id (activeGenerations s) /\
    unlinks t = [configFilePath g] /\
    kills t = [] /\
    closes t = [] /\
    broadcasts t
    = match code with
      | Some c =>
          if c =? 0 then []
          else [(id, ErrorEvent (JStr (exit_text c signal)) id (now s))]
      | None => []
      end.
Proof.
  intros Hr Hg. pose proof (reachable_wf _ _ Hr) as Hwf.
  destruct (wf_proc _ Hwf _ _ Hg) as [_ Hp].
  set (s1 := set_processes <[process g := mkChildProcess id false true]> s).
  assert (Hg1 : activeGenerations s1 !! id = Some g) by exact Hg.
  assert (Hstep : step JSON_parse (ProcessExit (process g) code signal) s
                  = Some (state_of (handleProcessExit id code signal s1),
                          trace (handleProcessExit id code signal s1))).
  { unfold step. rewrite Hp. reflexivity. }
  do 2 eexists. split; [exact Hstep|].
  assert (Hz : (exists c, code = Some c /\ c <> 0) \/ code = Some 0 \/ code = None).
  { destruct code as [c|]; [|auto]. destruct (decide (c = 0)); subst; eauto. }
  destruct Hz as [(c & -> & Hc)|Hz].
  - rewrite (exit_nonzero_active _ _ _ _ _ Hg1 Hc).
    unfold state_of, trace; cbn [fst snd].
    rewrite cleaned_active, unlinks_app, kills_app, closes_app, broadcasts_app,
      cleanup_trace_unlinks, cleanup_trace_kills, cleanup_trace_closes,
      cleanup_trace_broadcasts.
    apply Z.eqb_neq in Hc. rewrite Hc. repeat split; reflexivity.
  - rewrite (exit_zero_active _ _ _ _ _ Hg1 Hz).
    unfold state_of, trace; cbn [fst snd].
    rewrite cleaned_active.
    change (Log Info "Python process exited" id :: cleanup_trace id g)
      with ([Log Info "Python process exited" id] ++ cleanup_trace id g).
    rewrite unlinks_app, kills_app, closes_app, broadcasts_app,
      cleanup_trace_unlinks, cleanup_trace_kills, cleanup_trace_closes,
      cleanup_trace_broadcasts.
    destruct Hz as [-> | ->]; repeat split; reflexivity.
Qed.

Lemma exit_classified_witness :
  exists s' t,
    step json_decode (ProcessExit 0 None (Some "SIGKILL")) s_running = Some (s', t) /\
    activeGenerations s' = delete "job-1" (activeGenerations s_running) /\
    unlinks t = ["/tmp/podcastfy_config_c1.json"] /\
    kills t = [] /\ closes t = [] /\ broadcasts t = [].
Proof.
  exact (exit_classified json_decode s_running "job-1" _ None (Some "SIGKILL")
           s_running_reachable s_running_active).
Defined.

(* ===================================================================== *)
(** ** What one turn of the loop touches                                   *)
(* ===================================================================== *)

Lemma local_effect_active id s1 s2 e :
  activeGenerations s1 = activeGenerations s2 ->
  local_effect id s1 e -> local_effect id s2 e.
Proof. intros H. destruct e; simpl; rewrite ?H; auto. Qed.

Lemma local_effect_cleaned id s e :
  local_effect id (cleaned id s) e -> local_effect id s e.
Proof.
  destruct e; simpl; auto; intros (g & Hg & _);
    rewrite cleaned_inactive in Hg; discriminate.
Qed.

Lemma local_step id s s' e : local_effect id s e -> step_effect (Some id) s s' e.
Proof.
  destruct e; simpl; auto; try congruence; try tauto.
  - intros (g & Hg & ->). eauto.
  - intros (g & Hg & Hh). eauto.
Qed.

Lemma cleanup_trace_local id s g :
  activeGenerations s !! id = Some g -> Forall (local_effect id s) (cleanup_trace id g).
Proof.
  intros Hg. unfold cleanup_trace. apply Forall_app. split.
  - destruct (timeoutHandle g) as [h|] eqn:Hh; repeat constructor. simpl. eauto.
  - repeat constructor. simpl. eauto.
Qed.

Lemma cleanup_local id s : Forall (local_effect id s) (trace (cleanupGeneration id s)).
Proof.
  destruct (activeGenerations s !! id) as [g|] eqn:Hg.
  - rewrite (cleanup_active _ _ _ Hg). now apply cleanup_trace_local.
  - rewrite (cleanup_inactive _ _ Hg). constructor.
Qed.

Lemma logs_local id s t :
  Forall (fun e => exists l x y, e = Log l x y) t -> Forall (local_effect id s) t.
Proof. intros H. eapply Forall_impl; [exact H|]. now intros e (l & x & y & ->). Qed.

Lemma handleError_local id m c s :
  Forall (local_effect id s) (trace (handleError id m c s)).
Proof.
  destruct (error_text m c) as [text|] eqn:Et.
  - rewrite (handleError_eq _ _ _ _ _ Et). unfold trace at 1. cbn [snd].
    apply Forall_app. split; [repeat constructor | apply cleanup_local].
  - rewrite (handleError_throw _ _ _ _ Et). repeat constructor.
Qed.

Lemma handleCompletion_local id m s :
  Forall (local_effect id s) (trace (handleCompletion id m s)).
Proof.
  rewrite handleCompletion_eq. unfold trace at 1. cbn [snd].
  repeat (apply Forall_app; split); try apply cleanup_local; repeat constructor.
Qed.

Lemma message_local id m s :
  Forall (local_effect id s) (trace (handleProgressMessage id m s)).
Proof.
  destruct (message_cases id m s)
    as [(c & t & -> & Hl) | [(ev & _ & _ & ->) | [[_ ->] | (text & _ & _ & ->)]]].
  - now apply logs_local.
  - repeat constructor.
  - unfold trace at 1. cbn [snd]. constructor; [exact I | apply handleCompletion_local].
  - unfold trace at 1. cbn [snd].
    apply Forall_app. split; [repeat constructor | apply cleanup_local].
Qed.

Lemma visit_local JSON_parse id line s :
  Forall (local_effect id s) (trace (visit JSON_parse id line s)) /\
  (state_of (visit JSON_parse id line s) = s \/
   state_of (visit JSON_parse id line s) = cleaned id s).
Proof.
  unfold visit. destruct (JSON_parse line) as [m|]; [|split; [repeat constructor|now left]].
  split; [|rewrite dispatch_state; apply message_state].
  pose proof (message_local id m s) as H. unfold dispatch, bind.
  destruct (handleProgressMessage id m s) as [[[|e] s1] t1];
    unfold trace in *; simpl in *; apply Forall_app; split; auto; repeat constructor.
Qed.

Lemma stdout_local JSON_parse id data s :
  Forall (local_effect id s) (trace (handleStdoutData JSON_parse id data s)) /\
  (state_of (handleStdoutData JSON_parse id data s) = s \/
   state_of (handleStdoutData JSON_parse id data s) = cleaned id s).
Proof.
  rewrite handleStdoutData_visit. revert s.
  induction (stdout_lines data) as [|line ls IH]; intros s.
  { split; [constructor | now left]. }
  cbn [for_each]. unfold bind.
  destruct (visit_local JSON_parse id line s) as [Hv Hs].
  destruct (visit JSON_parse id line s) as [[[] s1] t1].
  destruct (IH s1) as [IHv IHs].
  destruct (for_each ls (visit JSON_parse id) s1) as [[[] s2] t2].
  unfold state_of, trace in *. simpl in *.
  split.
  - apply Forall_app. split; [exact Hv|].
    destruct Hs as [-> | ->]; [exact IHv|].
    eapply Forall_impl; [exact IHv|]. intros e. apply local_effect_cleaned.
  - destruct Hs as [-> | ->]; [exact IHs|].
    right. destruct IHs as [-> | ->]; [reflexivity | apply cleaned_idem].
Qed.

Lemma exit_local id code signal s :
  Forall (local_effect id s) (trace (handleProcessExit id code signal s)).
Proof.
  destruct (activeGenerations s !! id) as [g|] eqn:Hg.
  - assert (Hz : (exists c, code = Some c /\ c <> 0) \/ code = Some 0 \/ code = None).
    { destruct code as [c|]; [|auto]. destruct (decide (c = 0)); subst; eauto. }
    destruct Hz as [(c & -> & Hc)|Hz].
    + rewrite (exit_nonzero_active _ _ _ _ _ Hg Hc). unfold trace. cbn [snd].
      apply Forall_app. split; [repeat constructor | now apply cleanup_trace_local].
    + rewrite (exit_zero_active _ _ _ _ _ Hg Hz). unfold trace. cbn [snd].
      constructor; [exact I | now apply cleanup_trace_local].
  - rewrite (exit_inactive _ _ _ _ Hg). constructor.
Qed.

Lemma started_lookup id path s :
  activeGenerations (started id path s) !! id
  = Some (mkActiveGeneration id (next_process s) path (now s) (Some (next_timer s))).
Proof. unfold started. cbn [activeGenerations]. apply lookup_insert_eq. Qed.

(** Every effect of a turn of the loop is one of the job of its event. *)
Lemma step_effects JSON_parse e s s' t :
  wf s -> step JSON_parse e s = Some (s', t) ->
  Forall (step_effect (target e s) s s') t.
Proof.
  intros Hwf. destruct e as [id o c w sp | id | p data | p data | p code sg | p msg | h | ms];
    simpl.
  - intros [= <- <-]. destruct w as [msg|]; [|destruct sp as [msg|]].
    + eapply Forall_impl; [|intros x; apply local_step].
      rewrite generate_failed. unfold trace at 1. cbn [snd].
      apply Forall_app. split; [repeat constructor | apply cleanup_local].
    + destruct (generate_spawn_failed id o c msg s) as (cfg & ->).
      unfold state_of, trace. cbn [fst snd].
      apply Forall_app. split; [repeat constructor; simpl; eauto|].
      eapply Forall_impl; [apply cleanup_local|]. intros x. apply local_step.
    + destruct (generate_ok id o c s) as (cfg & exe & args & ->).
      unfold state_of, trace. cbn [fst snd].
      repeat constructor; simpl; eauto. exists id; eexists;
        (split; [reflexivity|]); (split; [apply started_lookup|]); reflexivity.
  - intros [= <- <-]. destruct (activeGenerations s !! id) as [g|] eqn:Hg.
    + destruct (wf_proc s Hwf _ _ Hg) as [_ Hp].
      rewrite (cancel_active _ _ _ Hg Hp). unfold trace. cbn [snd].
      apply Forall_app. split.
      { repeat constructor. simpl. eauto. }
      apply Forall_app. split; [|repeat constructor].
      eapply Forall_impl; [apply (cleanup_trace_local id s g Hg)|]. intros x. apply local_step.
    + rewrite (cancel_inactive _ _ Hg). repeat constructor.
  - destruct (processes s !! p) as [cp|]; [|discriminate].
    intros [= <- <-]. simpl.
    eapply Forall_impl; [apply stdout_local|]. intros x. apply local_step.
  - destruct (processes s !! p) as [cp|]; [|discriminate].
    intros [= <- <-]. repeat constructor.
  - destruct (processes s !! p) as [cp|] eqn:Hp; [|discriminate].
    destruct (exited cp); [discriminate|].
    intros [= <- <-]. simpl.
    eapply Forall_impl; [apply exit_local|]. intros x Hx.
    apply local_step. revert Hx. now apply local_effect_active.
  - destruct (processes s !! p) as [cp|]; [|discriminate].
    intros [= <- <-]. simpl. rewrite process_error_eq. unfold trace at 1. cbn [snd].
    apply Forall_app. split; [repeat constructor|].
    eapply Forall_impl; [apply cleanup_local|]. intros x. apply local_step.
  - destruct (timers s !! h) as [[due cb]|] eqn:Hh; [|discriminate].
    destruct (due <=? now s); [|discriminate].
    intros [= <- <-]. destruct cb as [id | p]; [simpl|].
    + set (s1 := set_timers (delete h) s).
      destruct (activeGenerations s1 !! id) as [g|] eqn:Hg.
      * destruct (wf_proc s Hwf id g Hg) as [_ Hp].
        rewrite (timeout_active id s1 g Hg Hp). unfold trace. cbn [snd].
        apply Forall_app. split.
        { repeat constructor. simpl. eauto. }
        eapply Forall_impl; [apply (cleanup_trace_local id s g Hg)|].
        intros x. apply local_step.
      * rewrite (timeout_inactive _ _ Hg). repeat constructor.
    + rewrite runTimer_killed; [constructor|].
      rewrite (is_killed_processes p s) by reflexivity. eapply wf_force; eauto.
  - destruct (0 <=? ms); [|discriminate]. intros [= <- <-]. constructor.
Qed.

Lemma local_quiet id s t :
  Forall (local_effect id s) t -> staged t = [] /\ kills t = [] /\ spawns t = [].
Proof.
  induction 1 as [|e t He _ IH]; [repeat split|].
  destruct e; simpl in He; try contradiction; exact IH.
Qed.

Lemma staged_app t1 t2 : staged (t1 ++ t2) = staged t1 ++ staged t2.
Proof. apply omap_app. Qed.

Lemma staged_none t : staged t = [] -> (length (staged t) <= 1)%nat.
Proof. intros ->. simpl. lia. Qed.

(** What a turn of the loop does to the map of the active generations and
    to the clock: the map is left as it is, or loses the entry of the job
    of the event (a start that fails after its config file is written is
    the one such turn that writes a file), or gets a new entry for it,
    started now, whose config file the turn has written. *)
Lemma step_active JSON_parse e s s' t :
  wf s -> step JSON_parse e s = Some (s', t) ->
  now s <= now s' /\
  ((activeGenerations s' = activeGenerations s /\ staged t = []) \/
   (exists id, target e s = Some id /\
               activeGenerations s' = delete id (activeGenerations s) /\
               (length (staged t) <= 1)%nat) \/
   (exists id g', target e s = Some id /\
                  activeGenerations s' = <[id := g']> (activeGenerations s) /\
                  startTime g' = now s' /\
                  staged t = [configFilePath g'] /\ unlinks t = [])).
Proof.
  intros Hwf. destruct e as [id o c w sp | id | p data | p data | p code sg | p msg | h | ms];
    simpl.
  - intros [= <- <-]. destruct w as [msg|]; [|destruct sp as [msg|]].
    + rewrite generate_failed. unfold state_of, trace. cbn [fst snd].
      rewrite cleaned_now, cleaned_active. split; [lia|]. right; left.
      exists id. repeat split. apply staged_none.
      rewrite staged_app. apply (local_quiet id s), cleanup_local.
    + destruct (generate_spawn_failed id o c msg s) as (cfg & ->).
      destruct (local_quiet id s _ (cleanup_local id s)) as (Hq & _).
      unfold state_of, trace in *. cbn [fst snd] in *.
      rewrite cleaned_now, cleaned_active. split; [lia|]. right; left.
      exists id. split; [reflexivity|]. split; [reflexivity|].
      rewrite staged_app, Hq. simpl. lia.
    + destruct (generate_ok id o c s) as (cfg & exe & args & ->).
      unfold state_of, trace. cbn [fst snd]. split; [unfold state_of, escalated, set_timers, set_now; simpl; lia|].
      right; right. exists id. eexists. split; [reflexivity|].
      split; [reflexivity|]. repeat split.
  - intros [= <- <-]. destruct (activeGenerations s !! id) as [g|] eqn:Hg.
    + destruct (wf_proc s Hwf _ _ Hg) as [_ Hp].
      rewrite (cancel_active _ _ _ Hg Hp). unfold state_of, trace. cbn [fst snd].
      rewrite cleaned_now, cleaned_active. split; [unfold state_of, escalated, set_timers, set_now; simpl; lia|]. right; left.
      exists id. repeat split. apply staged_none.
      rewrite !staged_app.
      destruct (local_quiet id s _ (cleanup_trace_local id s g Hg)) as (-> & _).
      reflexivity.
    + rewrite (cancel_inactive _ _ Hg). split; [unfold state_of, escalated, set_timers, set_now; simpl; lia|]. left. split; reflexivity.
  - destruct (processes s !! p) as [cp|]; [|discriminate].
    intros [= <- <-]. simpl.
    destruct (stdout_local JSON_parse (owner cp) data s) as [Hl Hs].
    destruct (local_quiet _ _ _ Hl) as (Hst & _).
    destruct Hs as [-> | ->].
    + split; [lia|]. left. split; [reflexivity | exact Hst].
    + rewrite cleaned_now, cleaned_active. split; [lia|]. right; left.
      exists (owner cp). repeat split. apply staged_none. exact Hst.
  - destruct (processes s !! p) as [cp|]; [|discriminate].
    intros [= <- <-]. split; [unfold state_of, escalated, set_timers, set_now; simpl; lia|]. left. split; reflexivity.
  - destruct (processes s !! p) as [cp|] eqn:Hp; [|discriminate].
    destruct (exited cp); [discriminate|].
    intros [= <- <-]. simpl.
    rewrite exit_state, cleaned_now, cleaned_active. split; [unfold state_of, escalated, set_timers, set_now; simpl; lia|].
    right; left. exists (owner cp). repeat split. apply staged_none.
    eapply local_quiet, exit_local.
  - destruct (processes s !! p) as [cp|]; [|discriminate].
    intros [= <- <-]. simpl. rewrite process_error_eq.
    unfold state_of, trace. cbn [fst snd].
    rewrite cleaned_now, cleaned_active. split; [lia|]. right; left.
    exists (owner cp). repeat split. apply staged_none.
    rewrite staged_app. apply (local_quiet (owner cp) s), cleanup_local.
  - destruct (timers s !! h) as [[due cb]|] eqn:Hh; [|discriminate].
    destruct (due <=? now s); [|discriminate].
    intros [= <- <-]. destruct cb as [id | p]; [simpl|].
    + set (s1 := set_timers (delete h) s).
      destruct (activeGenerations s1 !! id) as [g|] eqn:Hg.
      * destruct (wf_proc s Hwf id g Hg) as [_ Hp].
        rewrite (timeout_active id s1 g Hg Hp). unfold state_of, trace. cbn [fst snd].
        rewrite cleaned_now, cleaned_active. split; [unfold state_of, escalated, set_timers, set_now; simpl; lia|]. right; left.
        exists id. repeat split. apply staged_none.
        rewrite staged_app.
        destruct (local_quiet id s _ (cleanup_trace_local id s g Hg)) as (-> & _).
        reflexivity.
      * rewrite (timeout_inactive _ _ Hg). split; [unfold state_of, escalated, set_timers, set_now; simpl; lia|].
        left. split; reflexivity.
    + rewrite runTimer_killed.
      * split; [unfold state_of, escalated, set_timers, set_now; simpl; lia|]. left. split; reflexivity.
      * rewrite (is_killed_processes p s) by reflexivity. eapply wf_force; eauto.
  - destruct (0 <=? ms) eqn:Hms; [|discriminate]. intros [= <- <-].
    split; [unfold state_of, escalated, set_timers, set_now; simpl; lia|]. left. split; reflexivity.
Qed.

Lemma Forall_omap_effects {B} (f : Effect -> option B) (P : Effect -> Prop)
    (Q : B -> Prop) t :
  (forall e x, f e = Some x -> P e -> Q x) ->
  Forall P t -> Forall Q (omap f t).
Proof.
  intros HPQ. induction 1 as [|e t He _ IH]; [constructor|].
  cbn [omap list_omap]. destruct (f e) as [x|] eqn:E; [|exact IH].
  constructor; [eapply HPQ; eauto | exact IH].
Qed.

(** A turn of the loop is about one job and leaves every other job alone.
    In a state the service can reach, an active generation that is not the
    job of the event keeps its entry, its process (live and unsignalled)
    and its pending timeout; the turn puts nothing on its stream, does not
    close its session, sends its process no signal and cancels no timer of
    it. *)
Theorem other_jobs_untouched JSON_parse e s s' t id g :
  reachable JSON_parse s ->
  step JSON_parse e s = Some (s', t) ->
  activeGenerations s !! id = Some g ->
  target e s <> Some id ->
  activeGenerations s' !! id = Some g /\
  processes s' !! process g = Some (mkChildProcess id false false) /\
  (exists h, timeoutHandle g = Some h /\
             timers s' !! h = Some (startTime g + TIMEOUT_MS, OnTimeout id)) /\
  Forall (fun b => b.1 <> id) (broadcasts t) /\
  Forall (fun i => i <> id) (closes t) /\
  Forall (fun k => k.1 <> process g) (kills t) /\
  Forall (fun h => timeoutHandle g <> Some h) (cleared t).
Proof.
  intros Hr Hstep Hg Hne. pose proof (reachable_wf _ _ Hr) as Hwf.
  pose proof (step_wf _ _ _ _ _ Hwf Hstep) as Hwf'.
  assert (Hg' : activeGenerations s' !! id = Some g).
  { destruct (step_active _ _ _ _ _ Hwf Hstep) as
      [_ [[-> _] | [(i & Hi & -> & _) | (i & g' & Hi & -> & _)]]]; [exact Hg | |].
    - rewrite lookup_delete_ne; [exact Hg | congruence].
    - rewrite lookup_insert_ne; [exact Hg | congruence]. }
  pose proof (step_effects _ _ _ _ _ Hwf Hstep) as He.
  split; [exact Hg'|]. split; [apply (wf_proc s' Hwf' id g Hg')|].
  split; [apply (wf_timer s' Hwf' id g Hg')|].
  destruct (wf_proc s Hwf id g Hg) as [_ Hp].
  destruct (wf_timer s Hwf id g Hg) as (h & Hh & Ht).
  repeat split.
  - eapply Forall_omap_effects; [|exact He].
    intros [] x [= <-]; simpl. congruence.
  - eapply Forall_omap_effects; [|exact He].
    intros [] x [= <-]; simpl. congruence.
  - eapply Forall_omap_effects; [|exact He].
    intros [] x [= <-]; simpl. intros (_ & i & g0 & Hi & Hg0 & ->) Heq.
    destruct (wf_proc s Hwf i g0 Hg0) as [_ Hp0].
    rewrite Heq, Hp in Hp0. congruence.
  - eapply Forall_omap_effects; [|exact He].
    intros [] x [= <-]; simpl. intros (i & g0 & Hi & Hg0 & Hh0) Heq.
    destruct (wf_timer s Hwf i g0 Hg0) as (h0 & Hh0' & Ht0).
    rewrite Hh0 in Hh0'. injection Hh0' as <-.
    rewrite Hh in Heq. injection Heq as ->.
    rewrite Ht in Ht0. congruence.
Qed.

Lemma other_jobs_untouched_witness :
  exists s' t,
    step json_decode (CallGenerate "job-2" opts0 "c2" None None) s_running = Some (s', t) /\
    activeGenerations s' !! "job-1"
    = Some (mkActiveGeneration "job-1" 0 "/tmp/podcastfy_config_c1.json" 0 (Some 0%nat)) /\
    Forall (fun b => b.1 <> "job-1") (broadcasts t).
Proof.
  do 2 eexists. split; [reflexivity|].
  pose proof (other_jobs_untouched json_decode
                (CallGenerate "job-2" opts0 "c2" None None) s_running _ _ "job-1" _
                s_running_reachable eq_refl s_running_active ltac:(discriminate)) as H.
  exact (conj (proj1 H) (proj1 (proj2 (proj2 (proj2 H))))).
Defined.

(* ===================================================================== *)
(** ** Invariants of the runs                                              *)
(* ===================================================================== *)

(** A property that holds at the start and is kept by every turn taken in
    a well-formed state holds in every state the service can reach. *)
Lemma reachable_invariant JSON_parse (P : State -> Prop) :
  (forall e, P (initial e)) ->
  (forall e s s' t, wf s -> P s -> step JSON_parse e s = Some (s', t) -> P s') ->
  forall s, reachable JSON_parse s -> P s.
Proof.
  intros H0 HS s (e & es & t & Hrun).
  assert (G : forall es s0 s t, wf s0 -> P s0 ->
              run JSON_parse es s0 = Some (s, t) -> P s).
  { clear - HS. intros es. induction es as [|ev es IH]; intros s0 s t Hwf HP; simpl.
    - now intros [= <- _].
    - destruct (step JSON_parse ev s0) as [[s1 t1]|] eqn:E; [|discriminate].
      destruct (run JSON_parse es s1) as [[s2 t2]|] eqn:R; [|discriminate].
      intros [= <- _]. eapply IH; [| |exact R]; [eapply step_wf|eapply HS]; eauto. }
  eapply G; [apply wf_initial | apply H0 | exact Hrun].
Qed.

Lemma start_before_now JSON_parse s :
  reachable JSON_parse s ->
  forall id g, activeGenerations s !! id = Some g -> startTime g <= now s.
Proof.
  revert s.
  apply (reachable_invariant JSON_parse
           (fun s => forall id g, activeGenerations s !! id = Some g -> startTime g <= now s)).
  - intros e id g. unfold initial. cbn [activeGenerations].
    rewrite lookup_empty. discriminate.
  - intros e s s' t Hwf IH Hstep id g Hg.
    destruct (step_active _ _ _ _ _ Hwf Hstep) as
      [Hnow [[Ha _] | [(i & _ & Ha & _) | (i & g' & _ & Ha & Hst & _)]]];
      rewrite Ha in Hg.
    + specialize (IH _ _ Hg). lia.
    + apply lookup_delete_Some in Hg as [_ Hg]. specialize (IH _ _ Hg). lia.
    + apply lookup_insert_Some in Hg as [[_ <-] | [_ Hg]]; [lia|].
      specialize (IH _ _ Hg). lia.
Qed.

(** The three queries of the service agree on every state it can reach.
    [getActiveGenerationCount] is the number of ids that
    [getActiveGenerationIds] lists, and these are pairwise distinct;
    [getGenerationStatus] answers [active] exactly for the listed ids, and
    then with the start time of the generation and a duration that is not
    negative and leads from the start to the present; for any other id it
    answers inactive, with no start time and no duration. *)
Theorem status_consistent JSON_parse s id :
  reachable JSON_parse s ->
  length (getActiveGenerationIds s) = getActiveGenerationCount s /\
  NoDup (getActiveGenerationIds s) /\
  match getGenerationStatus id s with
  | (true, Some start, Some duration) =>
      id ∈ getActiveGenerationIds s /\
      (exists g, activeGenerations s !! id = Some g /\ start = startTime g) /\
      0 <= duration /\ start + duration = now s
  | (false, None, None) => id ∉ getActiveGenerationIds s
  | _ => False
  end.
Proof.
  intros Hr. unfold getActiveGenerationIds, getActiveGenerationCount, getGenerationStatus.
  split; [|split].
  - rewrite length_fmap. apply length_map_to_list.
  - apply NoDup_fst_map_to_list.
  - destruct (activeGenerations s !! id) as [g|] eqn:Hg.
    + split; [|split; [eauto|]].
      * apply list_elem_of_fmap. exists (id, g). split; [reflexivity|].
        now apply elem_of_map_to_list.
      * pose proof (start_before_now _ _ Hr _ _ Hg). lia.
    + intros ([i g] & -> & Hin)%list_elem_of_fmap.
      apply elem_of_map_to_list in Hin. simpl in Hg. congruence.
Qed.

Lemma status_consistent_witness :
  getGenerationStatus "job-1" s_expired = (true, Some 0, Some 1800000) /\
  match getGenerationStatus "job-1" s_expired with
  | (true, Some start, Some duration) =>
      "job-1" ∈ getActiveGenerationIds s_expired /\
      (exists g, activeGenerations s_expired !! "job-1" = Some g /\ start = startTime g) /\
      0 <= duration /\ start + duration = now s_expired
  | (false, None, None) => "job-1" ∉ getActiveGenerationIds s_expired
  | _ => False
  end.
Proof.
  split; [reflexivity|].
  exact (proj2 (proj2 (status_consistent json_decode s_expired "job-1" s_expired_reachable))).
Defined.

Lemma unlinks_staged_mono k1 k2 t :
  (forall p, p ∈ k1 -> p ∈ k2) -> unlinks_staged k1 t -> unlinks_staged k2 t.
Proof.
  revert k1 k2. induction t as [|e t IH]; intros k1 k2 Hk; [easy|].
  destruct e; simpl; eauto.
  - apply IH. intros p [-> | Hp]%elem_of_cons; [left | right; auto].
  - intros [Hp Ht]. split; [auto | eauto].
Qed.

Lemma unlinks_staged_known k t :
  Forall (fun p => p ∈ k) (unlinks t) -> unlinks_staged k t.
Proof.
  revert k. induction t as [|e t IH]; intros k; [easy|].
  destruct e; simpl; auto.
  - intros H. apply IH. eapply Forall_impl; [exact H|]. intros p Hp. now right.
  - intros H. apply Forall_cons in H as [Hp H]. auto.
Qed.

Lemma unlinks_staged_app k t1 t2 :
  unlinks_staged k t1 ->
  unlinks_staged (staged t1 ++ k) t2 ->
  unlinks_staged k (t1 ++ t2).
Proof.
  revert k. induction t1 as [|e t1 IH]; intros k; [now simpl|].
  destruct e; simpl; auto.
  - intros H1 H2. apply IH; [exact H1|].
    eapply unlinks_staged_mono; [|exact H2].
    intros p. rewrite !elem_of_cons, !elem_of_app, elem_of_cons. tauto.
  - intros [Hp H1] H2. split; [exact Hp | auto].
Qed.

(** The service deletes no file but a config file that it has written
    itself, and only after it has written it: in the trace of every run
    from the start, each [unlink] comes after a [writeFile] of the same
    path.  And the config file of every generation that is active at the
    end of the run has been written in the run. *)
Theorem unlinks_only_staged JSON_parse e es s t :
  run JSON_parse es (initial e) = Some (s, t) ->
  unlinks_staged [] t /\
  forall id g, activeGenerations s !! id = Some g -> configFilePath g ∈ staged t.
Proof.
  assert (G : forall es s0 k s t, wf s0 ->
              (forall id g, activeGenerations s0 !! id = Some g -> configFilePath g ∈ k) ->
              run JSON_parse es s0 = Some (s, t) ->
              unlinks_staged k t /\
              forall id g, activeGenerations s !! id = Some g ->
                           configFilePath g ∈ staged t ++ k).
  { clear. intros es. induction es as [|ev es IH]; intros s0 k s t Hwf Hk; simpl.
    - intros [= <- <-]. split; [exact I | exact Hk].
    - destruct (step JSON_parse ev s0) as [[s1 t1]|] eqn:E; [|discriminate].
      destruct (run JSON_parse es s1) as [[s2 t2]|] eqn:R; [|discriminate].
      intros [= <- <-].
      assert (H1 : unlinks_staged k t1).
      { apply unlinks_staged_known.
        eapply Forall_omap_effects; [|exact (step_effects _ _ _ _ _ Hwf E)].
        intros [] x [= <-]; simpl. intros (i & g & _ & Hg & ->). eauto. }
      assert (Hk1 : forall id g, activeGenerations s1 !! id = Some g ->
                                 configFilePath g ∈ staged t1 ++ k).
      { intros id g Hg. apply elem_of_app.
        destruct (step_active _ _ _ _ _ Hwf E) as
          [_ [[Ha _] | [(i & _ & Ha & _) | (i & g' & _ & Ha & _ & Hst & _)]]];
          rewrite Ha in Hg.
        - right. eauto.
        - apply lookup_delete_Some in Hg as [_ Hg]. right. eauto.
        - apply lookup_insert_Some in Hg as [[_ <-] | [_ Hg]].
          + left. rewrite Hst. now left.
          + right. eauto. }
      destruct (IH s1 (staged t1 ++ k) s2 t2 (step_wf _ _ _ _ _ Hwf E) Hk1 R)
        as [H2 Hk2].
      split; [now apply unlinks_staged_app|].
      intros id g Hg. specialize (Hk2 id g Hg).
      rewrite staged_app. revert Hk2. rewrite !elem_of_app. tauto. }
  intros Hrun.
  destruct (G es (initial e) [] s t (wf_initial e)) as [H1 H2]; [|exact Hrun|].
  - intros id g. unfold initial. cbn [activeGenerations].
    rewrite lookup_empty. discriminate.
  - split; [exact H1|]. intros id g Hg. specialize (H2 id g Hg).
    now rewrite app_nil_r in H2.
Qed.

Lemma unlinks_only_staged_witness :
  exists s t,
    run json_decode [CallGenerate "job-1" opts0 "c1" None None; CallCancel "job-1"]
      (initial env0) = Some (s, t) /\
    unlinks t = ["/tmp/podcastfy_config_c1.json"] /\
    unlinks_staged [] t.
Proof.
  do 2 eexists. split; [reflexivity|]. split; [reflexivity|].
  exact (proj1 (unlinks_only_staged json_decode env0
                  [CallGenerate "job-1" opts0 "c1" None None; CallCancel "job-1"] _ _ eq_refl)).
Defined.

Lemma is_killed_cleaned p id s : is_killed p (cleaned id s) = is_killed p s.
Proof. apply is_killed_processes, cleaned_processes. Qed.

Lemma is_killed_escalated p q id s :
  is_killed q (escalated p id s) = if decide (p = q) then true else is_killed q s.
Proof.
  unfold is_killed, escalated. cbn [processes].
  destruct (decide (p = q)) as [-> | Hne].
  - now rewrite lookup_insert_eq.
  - now rewrite lookup_insert_ne.
Qed.

(** The signals of one turn: none, or one SIGTERM to the process of an
    active generation, whose [killed] flag is set from then on; and a flag
    that is set stays set. *)
Lemma step_signals JSON_parse e s s' t :
  wf s -> step JSON_parse e s = Some (s', t) ->
  (forall p, is_killed p s = true -> is_killed p s' = true) /\
  (kills t = [] \/
   exists id g, activeGenerations s !! id = Some g /\
                kills t = [(process g, SIGTERM)] /\
                is_killed (process g) s' = true).
Proof.
  intros Hwf. destruct e as [id o c w sp | id | p data | p data | p code sg | p msg | h | ms];
    simpl.
  - intros [= <- <-]. destruct w as [msg|]; [|destruct sp as [msg|]].
    + rewrite generate_failed. unfold state_of, trace. cbn [fst snd]. split.
      * intros p. now rewrite is_killed_cleaned.
      * left. pose proof (cleanup_kills id s) as Hc. unfold trace in Hc.
        now rewrite kills_app, Hc.
    + destruct (generate_spawn_failed id o c msg s) as (cfg & ->).
      unfold state_of, trace. cbn [fst snd]. split.
      * intros p. now rewrite is_killed_cleaned.
      * left. pose proof (cleanup_kills id s) as Hc. unfold trace in Hc.
        now rewrite kills_app, Hc.
    + destruct (generate_ok id o c s) as (cfg & exe & args & ->).
      unfold state_of, trace. cbn [fst snd]. split; [|now left].
      intros p. unfold is_killed, started. cbn [processes].
      destruct (processes s !! p) as [cp|] eqn:Hp; [|discriminate].
      pose proof (wf_alloc s Hwf p cp Hp).
      rewrite lookup_insert_ne by lia. now rewrite Hp.
  - intros [= <- <-]. destruct (activeGenerations s !! id) as [g|] eqn:Hg.
    + destruct (wf_proc s Hwf _ _ Hg) as [_ Hp].
      rewrite (cancel_active _ _ _ Hg Hp). unfold state_of, trace. cbn [fst snd]. split.
      * intros p. rewrite is_killed_cleaned, is_killed_escalated.
        now destruct (decide _).
      * right. exists id, g. split; [exact Hg|]. split.
        -- rewrite !kills_app, cleanup_trace_kills. reflexivity.
        -- rewrite is_killed_cleaned, is_killed_escalated. now rewrite decide_True.
    + rewrite (cancel_inactive _ _ Hg). split; [auto | now left].
  - destruct (processes s !! p) as [cp|]; [|discriminate].
    intros [= <- <-]. split; [|left; apply stdout_kills].
    intros q. destruct (stdout_local JSON_parse (owner cp) data s) as [_ [-> | ->]];
      [auto | now rewrite is_killed_cleaned].
  - destruct (processes s !! p) as [cp|]; [|discriminate].
    intros [= <- <-]. split; [auto | now left].
  - destruct (processes s !! p) as [cp|] eqn:Hp; [|discriminate].
    destruct (exited cp); [discriminate|].
    intros [= <- <-]. split.
    + intros q. rewrite exit_state, is_killed_cleaned, is_killed_insert.
      destruct (decide (p = q)) as [<- | _]; [|auto].
      unfold is_killed. now rewrite Hp.
    + left. eapply local_quiet, exit_local.
  - destruct (processes s !! p) as [cp|]; [|discriminate].
    intros [= <- <-]. rewrite process_error_eq.
    unfold state_of, trace. cbn [fst snd app]. split.
    + intros q. now rewrite is_killed_cleaned.
    + left. change (kills (_ :: _ :: _ :: ?l)) with (kills l). apply (cleanup_kills (owner cp) s).
  - destruct (timers s !! h) as [[due cb]|] eqn:Hh; [|discriminate].
    destruct (due <=? now s); [|discriminate].
    intros [= <- <-]. destruct cb as [id | p]; [simpl|].
    + set (s1 := set_timers (delete h) s).
      destruct (activeGenerations s1 !! id) as [g|] eqn:Hg.
      * destruct (wf_proc s Hwf id g Hg) as [_ Hp].
        rewrite (timeout_active id s1 g Hg Hp). unfold state_of, trace. cbn [fst snd].
        split.
        -- intros q. rewrite is_killed_cleaned, is_killed_escalated.
           destruct (decide _); [reflexivity|].
           intros <-. now apply is_killed_processes.
        -- right. exists id, g. split; [exact Hg|]. split.
           ++ rewrite !kills_app, cleanup_trace_kills. reflexivity.
           ++ rewrite is_killed_cleaned, is_killed_escalated. now rewrite decide_True.
      * rewrite (timeout_inactive _ _ Hg). split; [|now left].
        intros q <-. now apply is_killed_processes.
    + rewrite runTimer_killed.
      * split; [|now left]. intros q <-. now apply is_killed_processes.
      * rewrite (is_killed_processes p s) by reflexivity. eapply wf_force; eauto.
  - destruct (0 <=? ms); [|discriminate]. intros [= <- <-]. split; [auto | now left].
Qed.

Lemma run_killed_mono JSON_parse es s0 s t p :
  wf s0 -> run JSON_parse es s0 = Some (s, t) ->
  is_killed p s0 = true -> is_killed p s = true.
Proof.
  revert s0 s t. induction es as [|ev es IH]; intros s0 s t Hwf; simpl.
  - now intros [= <- _].
  - destruct (step JSON_parse ev s0) as [[s1 t1]|] eqn:E; [|discriminate].
    destruct (run JSON_parse es s1) as [[s2 t2]|] eqn:R; [|discriminate].
    intros [= <- _] Hk. eapply IH; [|exact R|]; [eapply step_wf; eauto|].
    now apply (step_signals _ _ _ _ _ Hwf E).
Qed.

(** Over a whole run from the start, a worker process is sent at most one
    signal, and that signal is SIGTERM: the list of the signalled
    processes has no repetition, every signal in the trace is a SIGTERM,
    and [killed] is set at the end for each process that was signalled.
    No later step of the escalation follows the first signal. *)
Theorem one_signal_per_process JSON_parse e es s t :
  run JSON_parse es (initial e) = Some (s, t) ->
  NoDup (kills t).*1 /\
  Forall (fun k => k.2 = SIGTERM /\ is_killed k.1 s = true) (kills t).
Proof.
  assert (G : forall es s0 s t, wf s0 -> run JSON_parse es s0 = Some (s, t) ->
              NoDup (kills t).*1 /\
              Forall (fun k => k.2 = SIGTERM /\ is_killed k.1 s0 = false /\
                               is_killed k.1 s = true) (kills t)).
  { clear. intros es. induction es as [|ev es IH]; intros s0 s t Hwf; simpl.
    - intros [= <- <-]. split; constructor.
    - destruct (step JSON_parse ev s0) as [[s1 t1]|] eqn:E; [|discriminate].
      destruct (run JSON_parse es s1) as [[s2 t2]|] eqn:R; [|discriminate].
      intros [= <- <-].
      pose proof (step_wf _ _ _ _ _ Hwf E) as Hwf1.
      destruct (IH s1 s2 t2 Hwf1 R) as [Hnd Hall].
      destruct (step_signals _ _ _ _ _ Hwf E) as [Hmono Hk].
      assert (Hall' : Forall (fun k => k.2 = SIGTERM /\ is_killed k.1 s0 = false /\
                                       is_killed k.1 s2 = true) (kills t2)).
      { eapply Forall_impl; [exact Hall|]. intros k (H1 & H2 & H3).
        repeat split; auto.
        destruct (is_killed k.1 s0) eqn:Hk0; [|reflexivity].
        apply Hmono in Hk0. congruence. }
      rewrite kills_app.
      destruct Hk as [-> | (id & g & Hg & -> & Hkd)]; [now split|].
      destruct (wf_proc s0 Hwf id g Hg) as [_ Hp].
      split.
      + cbn [fmap list_fmap app fst]. constructor; [|exact Hnd].
        intros ([q sg] & Hq & Hin)%list_elem_of_fmap. simpl in Hq. subst q.
        rewrite Forall_forall in Hall. destruct (Hall _ Hin) as (_ & Hf & _).
        simpl in Hf. congruence.
      + constructor; [|exact Hall'].
        simpl. split; [reflexivity|]. split.
        * unfold is_killed. now rewrite Hp.
        * eapply run_killed_mono; eauto. }
  intros Hrun. destruct (G es (initial e) s t (wf_initial e) Hrun) as [H1 H2].
  split; [exact H1|]. eapply Forall_impl; [exact H2|]. intros k (Ha & _ & Hb). now split.
Qed.

Lemma one_signal_per_process_witness :
  exists s t,
    run json_decode
      [CallGenerate "job-3" opts0 "c1" None None; CallCancel "job-3";
       Elapse 5000; TimerFires 1; CallCancel "job-3"] (initial env0) = Some (s, t) /\
    kills t = [(0%nat, SIGTERM)] /\
    NoDup (kills t).*1.
Proof.
  destruct (run json_decode
              [CallGenerate "job-3" opts0 "c1" None None; CallCancel "job-3";
               Elapse 5000; TimerFires 1; CallCancel "job-3"] (initial env0))
    as [[s t]|] eqn:E; [|exfalso; vm_compute in E; discriminate].
  exists s, t. split; [reflexivity|].
  split; [|exact (proj1 (one_signal_per_process json_decode env0 _ s t E))].
  assert (E' := E). vm_compute in E'. injection E' as _ <-. reflexivity.
Defined.

(* ===================================================================== *)
(** ** Shutting the service down                                           *)
(* ===================================================================== *)

Lemma guarded_cancel a s g :
  activeGenerations s !! a = Some g ->
  processes s !! process g = Some (mkChildProcess a false false) ->
  (do s' <- get;
   match activeGenerations s' !! a with
   | Some _ => cancelGeneration a ;; ret tt
   | None => ret tt
   end) s
  = (tt, cleaned a (escalated (process g) a s), trace (cancelGeneration a s)).
Proof.
  intros Hg Hp. unfold bind at 1. unfold get at 1. cbv beta iota. rewrite Hg.
  unfold bind, ret. rewrite (cancel_active _ _ _ Hg Hp).
  unfold trace. cbn [snd]. now rewrite app_nil_r.
Qed.

Lemma cancel_loop keys : forall s,
  wf s -> NoDup keys ->
  (forall id, id ∈ keys -> is_Some (activeGenerations s !! id)) ->
  let r := for_each keys (fun id =>
             do s' <- get;
             match activeGenerations s' !! id with
             | Some _ => cancelGeneration id ;; ret tt
             | None => ret tt
             end) s in
  wf (state_of r) /\ now (state_of r) = now s /\
  (forall id, activeGenerations (state_of r) !! id
              = if decide (id ∈ keys) then None else activeGenerations s !! id) /\
  broadcasts (trace r)
  = map (fun id => (id, ErrorEvent (JStr "Generation cancelled by user") id (now s))) keys /\
  Forall2 (fun id k => exists g, activeGenerations s !! id = Some g /\
                                 k = (process g, SIGTERM)) keys (kills (trace r)) /\
  Forall2 (fun id p => exists g, activeGenerations s !! id = Some g /\
                                 p = configFilePath g) keys (unlinks (trace r)).
Proof.
  induction keys as [|a rest IH]; intros s Hwf Hnd Hact r.
  { subst r. cbn. split; [exact Hwf|]. split; [reflexivity|].
    split; [intros id; rewrite decide_False; [reflexivity | apply not_elem_of_nil]|].
    split; [reflexivity|]. split; constructor. }
  apply NoDup_cons in Hnd as [Ha Hnd].
  destruct (Hact a) as [g Hg]; [now left|].
  destruct (wf_proc s Hwf a g Hg) as [_ Hp].
  pose proof (wf_cancel a s Hwf) as Hwf1.
  rewrite (cancel_active _ _ _ Hg Hp) in Hwf1.
  unfold state_of at 1 in Hwf1. cbn [fst snd] in Hwf1.
  assert (Er : r = let '(b, s2, t2) :=
                     for_each rest (fun id =>
                       do s' <- get;
                       match activeGenerations s' !! id with
                       | Some _ => cancelGeneration id ;; ret tt
                       | None => ret tt
                       end) (cleaned a (escalated (process g) a s)) in
                   (b, s2, trace (cancelGeneration a s) ++ t2)).
  { unfold r. cbn [for_each]. unfold bind at 1.
    rewrite (guarded_cancel _ _ _ Hg Hp). reflexivity. }
  clearbody r. subst r.
  rewrite (cancel_active _ _ _ Hg Hp). unfold trace at 1 2 3. cbn [snd].
  set (s1 := cleaned a (escalated (process g) a s)) in *.
  assert (Ha1 : activeGenerations s1 = delete a (activeGenerations s)).
  { unfold s1. now rewrite cleaned_active. }
  assert (Hn1 : now s1 = now s) by (unfold s1; now rewrite cleaned_now).
  specialize (IH s1 Hwf1 Hnd).
  destruct IH as (IHwf & IHnow & IHact & IHb & IHk & IHu).
  { intros id Hid. rewrite Ha1, lookup_delete_ne; [apply Hact; now right|].
    intros ->. contradiction. }
  match type of IHwf with wf (state_of ?x) => destruct x as [[[] s2] t2] end.
  unfold state_of, trace in *. cbn [fst snd] in *.
  split; [exact IHwf|]. split; [congruence|]. split; [|split; [|split]].
  - intros id. rewrite IHact, Ha1.
    destruct (decide (id = a)) as [-> | Hne].
    + destruct (decide (a ∈ a :: rest)) as [_ | Hn]; [|exfalso; apply Hn; now left].
      destruct (decide (a ∈ rest)); [reflexivity | apply lookup_delete_eq].
    + rewrite lookup_delete_ne by congruence.
      destruct (decide (id ∈ rest)) as [Hin | Hnin];
        destruct (decide (id ∈ a :: rest)) as [Hin' | Hnin']; try reflexivity.
      * exfalso. apply Hnin'. now right.
      * apply elem_of_cons in Hin' as [? | ?]; contradiction.
  - rewrite !broadcasts_app, cleanup_trace_broadcasts, IHb, Hn1. reflexivity.
  - rewrite !kills_app, cleanup_trace_kills. cbn [app kills omap list_omap].
    constructor; [eauto|].
    eapply Forall2_impl; [exact IHk|]. intros id k (g' & Hg' & ->).
    rewrite Ha1 in Hg'. apply lookup_delete_Some in Hg' as [_ Hg']. eauto.
  - rewrite !unlinks_app, cleanup_trace_unlinks. cbn [app unlinks omap list_omap].
    constructor; [eauto|].
    eapply Forall2_impl; [exact IHu|]. intros id k (g' & Hg' & ->).
    rewrite Ha1 in Hg'. apply lookup_delete_Some in Hg' as [_ Hg']. eauto.
Qed.

Lemma active_ids_elem s id :
  id ∈ getActiveGenerationIds s <-> is_Some (activeGenerations s !! id).
Proof.
  unfold getActiveGenerationIds. split.
  - intros ([i g] & -> & Hin)%list_elem_of_fmap.
    apply elem_of_map_to_list in Hin. now exists g.
  - intros [g Hg]. apply list_elem_of_fmap. exists (id, g).
    split; [reflexivity | now apply elem_of_map_to_list].
Qed.

(** [cleanup()], the shutdown of the service, cancels every active
    generation once, in the order in which the map yields their ids: each
    one gets the "cancelled by user" error on its stream, its process gets
    a SIGTERM and its config file is deleted, and afterwards no generation
    is active. *)
Theorem cleanup_cancels_all JSON_parse s keys :
  reachable JSON_parse s ->
  keys ≡ₚ getActiveGenerationIds s ->
  let r := cleanup keys s in
  activeGenerations (state_of r) = ∅ /\
  getActiveGenerationCount (state_of r) = 0%nat /\
  broadcasts (trace r)
  = map (fun id => (id, ErrorEvent (JStr "Generation cancelled by user") id (now s))) keys /\
  Forall2 (fun id k => exists g, activeGenerations s !! id = Some g /\
                                 k = (process g, SIGTERM)) keys (kills (trace r)) /\
  Forall2 (fun id p => exists g, activeGenerations s !! id = Some g /\
                                 p = configFilePath g) keys (unlinks (trace r)).
Proof.
  intros Hr Hperm r. pose proof (reachable_wf _ _ Hr) as Hwf.
  assert (Hnd : NoDup keys).
  { rewrite Hperm. apply NoDup_fst_map_to_list. }
  assert (Hact : forall id, id ∈ keys -> is_Some (activeGenerations s !! id)).
  { intros id Hid. apply active_ids_elem. now rewrite <- Hperm. }
  destruct (cancel_loop keys s Hwf Hnd Hact) as (_ & _ & Ha & Hb & Hk & Hu).
  assert (Er : r = let '(b, s2, t2) :=
                     for_each keys (fun id =>
                       do s' <- get;
                       match activeGenerations s' !! id with
                       | Some _ => cancelGeneration id ;; ret tt
                       | None => ret tt
                       end) s in
                   (tt, s2,
                    [Log Info "Cleaning up all active podcast generations"
                       (Z_to_string (Z.of_nat (size (activeGenerations s))))]
                    ++ t2 ++ [Log Info "All podcast generations cleaned up" ""])).
  { unfold r, cleanup, bind, get, log, emit.
    destruct (for_each keys _ s) as [[[] s2] t2]. reflexivity. }
  clearbody r. subst r.
  destruct (for_each keys _ s) as [[[] s2] t2].
  unfold state_of, trace in *. cbn [fst snd] in *.
  assert (He : activeGenerations s2 = ∅).
  { apply map_eq. intros id. rewrite Ha, lookup_empty.
    destruct (decide (id ∈ keys)) as [|Hn]; [reflexivity|].
    rewrite Hperm, active_ids_elem in Hn.
    destruct (activeGenerations s !! id); [exfalso; eauto | reflexivity]. }
  split; [exact He|]. split.
  { unfold getActiveGenerationCount. rewrite He. apply map_size_empty. }
  rewrite !broadcasts_app, !kills_app, !unlinks_app. cbn [broadcasts kills unlinks omap list_omap app].
  rewrite !app_nil_r. auto.
Qed.

Lemma cleanup_cancels_all_witness :
  exists s t,
    run json_decode [CallGenerate "job-1" opts0 "c1" None None;
                     CallGenerate "job-2" opts0 "c2" None None] (initial env0) = Some (s, t) /\
    activeGenerations (state_of (cleanup ["job-2"; "job-1"] s)) = ∅ /\
    broadcasts (trace (cleanup ["job-2"; "job-1"] s))
    = [("job-2", ErrorEvent (JStr "Generation cancelled by user") "job-2" 0);
       ("job-1", ErrorEvent (JStr "Generation cancelled by user") "job-1" 0)].
Proof.
  do 2 eexists. split; [reflexivity|].
  match goal with |- activeGenerations (state_of (cleanup _ ?s)) = _ /\ _ =>
    assert (Hr : reachable json_decode s);
    [exists env0, [CallGenerate "job-1" opts0 "c1" None None;
                   CallGenerate "job-2" opts0 "c2" None None]; eexists; reflexivity|];
    assert (Hp : ["job-2"; "job-1"] ≡ₚ getActiveGenerationIds s);
    [vm_compute; first [reflexivity | apply perm_swap]|];
    exact (let H := cleanup_cancels_all json_decode s ["job-2"; "job-1"] Hr Hp in
           conj (proj1 H) (proj1 (proj2 (proj2 H))))
  end.
Defined.

(* ===================================================================== *)
(** ** Failures: a process that cannot run, a start that cannot be staged  *)
(* ===================================================================== *)

(** An [error] event of a worker process (it could not be spawned, or
    could not be signalled) is reported on the stream of the job the
    process was spawned for, as one error with the code
    PROCESS_SPAWN_ERROR; the generation registered under that id is
    cleaned up; the session is not closed and no signal is sent. *)
Theorem process_error_reported JSON_parse s p cp message :
  processes s !! p = Some cp ->
  exists t,
    step JSON_parse (ProcessError p message) s = Some (cleaned (owner cp) s, t) /\
    broadcasts t
    = [(owner cp,
        ErrorEvent (JStr (("Process error: " +:+ message) +:+ " (PROCESS_SPAWN_ERROR)"))
          (owner cp) (now s))] /\
    kills t = [] /\ closes t = [] /\
    activeGenerations (cleaned (owner cp) s) = delete (owner cp) (activeGenerations s) /\
    processes (cleaned (owner cp) s) = processes s.
Proof.
  intros Hp. eexists. split.
  { unfold step. rewrite Hp, process_error_eq. reflexivity. }
  pose proof (cleanup_local (owner cp) s) as Hl.
  destruct (local_quiet _ _ _ Hl) as (_ & Hk & _).
  unfold trace in *. cbn [snd app].
  change (broadcasts (_ :: _ :: ?b :: ?l)) with (broadcasts ([b] ++ l)).
  change (kills (_ :: _ :: _ :: ?l)) with (kills l).
  change (closes (_ :: _ :: _ :: ?l)) with (closes l).
  pose proof (cleanup_broadcasts (owner cp) s) as Hb. unfold trace in Hb.
  rewrite broadcasts_app, Hb, Hk, cleaned_active, cleaned_processes.
  repeat split.
  destruct (activeGenerations s !! owner cp) as [g|] eqn:Hg.
  - rewrite (cleanup_active _ _ _ Hg). apply cleanup_trace_closes.
  - rewrite (cleanup_inactive _ _ Hg). reflexivity.
Qed.

Lemma process_error_reported_witness :
  exists t,
    step json_decode (ProcessError 0 "spawn python3 ENOENT") s_running
    = Some (cleaned "job-1" s_running, t) /\
    broadcasts t
    = [("job-1",
        ErrorEvent (JStr "Process error: spawn python3 ENOENT (PROCESS_SPAWN_ERROR)")
          "job-1" 0)] /\
    kills t = [].
Proof.
  destruct (process_error_reported json_decode s_running 0
              (mkChildProcess "job-1" false false) "spawn python3 ENOENT" eq_refl)
    as (t & H1 & H2 & H3 & _).
  exists t. repeat split; assumption.
Defined.

(** A start that cannot stage its config file starts nothing: no file is
    written, no process spawned, no timer armed, no signal sent.  The
    failure is put on the stream of the id as one error, without a code.
    The error path then cleans up under the same id: a generation that was
    already active under it loses its entry, its timer and its config file,
    while its process is left as it is.  ([spawn_error] is not looked at:
    the start gives up before it comes to spawn the worker.) *)
Theorem failed_start_reported id options configId msg spawn_error s :
  let r := generatePodcast id options configId (Some msg) spawn_error s in
  broadcasts (trace r)
  = [(id, ErrorEvent (JStr ("Failed to start podcast generation: " +:+ msg)) id (now s))] /\
  staged (trace r) = [] /\ spawns (trace r) = [] /\ armed (trace r) = [] /\
  kills (trace r) = [] /\
  activeGenerations (state_of r) = delete id (activeGenerations s) /\
  processes (state_of r) = processes s /\
  unlinks (trace r)
  = from_option (fun g => [configFilePath g]) [] (activeGenerations s !! id) /\
  cleared (trace r)
  = from_option (fun g => from_option (fun h => [h]) [] (timeoutHandle g)) []
      (activeGenerations s !! id).
Proof.
  intros r. subst r. rewrite generate_failed.
  unfold state_of, trace at 1 2 3 4 5 6 7. cbn [fst snd].
  rewrite cleaned_active, cleaned_processes.
  destruct (activeGenerations s !! id) as [g|] eqn:Hg.
  - rewrite (cleanup_active _ _ _ Hg). unfold trace. cbn [snd from_option].
    rewrite broadcasts_app, staged_app, kills_app, unlinks_app, cleared_app,
      cleanup_trace_broadcasts, cleanup_trace_kills, cleanup_trace_unlinks.
    unfold cleanup_trace. destruct (timeoutHandle g); repeat split; reflexivity.
  - rewrite (cleanup_inactive _ _ Hg). repeat split; reflexivity.
Qed.

(** Starting an id again while a generation of it is active leaves the
    timeout timer of the earlier generation armed and its process running.
    When that timer comes due, thirty minutes after the {e first} start,
    it is the new generation that is timed out: the new process gets the
    SIGTERM, the entry is removed and the timeout error goes on the
    stream, however short the time since the second start; the process of
    the earlier generation is still running and has received no signal. *)
Theorem restart_inherits_timeout JSON_parse s id g options configId ms :
  reachable JSON_parse s ->
  activeGenerations s !! id = Some g ->
  0 <= ms ->
  startTime g + TIMEOUT_MS <= now s + ms ->
  exists h s' t,
    timeoutHandle g = Some h /\
    run JSON_parse [CallGenerate id options configId None None; Elapse ms; TimerFires h] s
    = Some (s', t) /\
    spawns t = [next_process s] /\
    kills t = [(next_process s, SIGTERM)] /\
    broadcasts t
    = [(id, ErrorEvent (JStr "Podcast generation timed out (TIMEOUT_ERROR)") id
              (now s + ms))] /\
    activeGenerations s' !! id = None /\
    processes s' !! process g = Some (mkChildProcess id false false).
Proof.
  intros Hr Hg Hms Hdue. pose proof (reachable_wf _ _ Hr) as Hwf.
  destruct (wf_proc s Hwf id g Hg) as [_ Hp].
  destruct (wf_timer s Hwf id g Hg) as (h & Hh & Ht).
  pose proof (wf_timer_alloc s Hwf h _ Ht) as Hlt.
  pose proof (wf_alloc s Hwf _ _ Hp) as Hplt.
  destruct (generate_ok id options configId s) as (cfg & exe & args & Egen).
  set (path := config_path configId s) in *.
  set (s1 := started id path s) in *.
  set (s2 := set_now (now s + ms) s1).
  set (s3 := set_timers (delete h) s2).
  set (g' := mkActiveGeneration id (next_process s) path (now s) (Some (next_timer s))).
  assert (Hg3 : activeGenerations s3 !! id = Some g') by apply lookup_insert_eq.
  assert (Hp3 : processes s3 !! process g' = Some (mkChildProcess id false false))
    by apply lookup_insert_eq.
  assert (Ht2 : timers s2 !! h = Some (startTime g + TIMEOUT_MS, OnTimeout id)).
  { unfold s2, s1, started, set_now. cbn [timers].
    rewrite lookup_insert_ne by lia. exact Ht. }
  exists h. do 2 eexists. split; [exact Hh|]. split.
  { cbn [run]. unfold step at 1. rewrite Egen. unfold state_of, trace. cbn [fst snd].
    unfold step at 1. replace (0 <=? ms) with true by (symmetry; apply Z.leb_le; lia).
    change (now s1) with (now s). fold s2.
    unfold step. rewrite Ht2.
    replace (startTime g + TIMEOUT_MS <=? now s2) with true
      by (symmetry; apply Z.leb_le; exact Hdue).
    unfold runTimer. fold s3. rewrite (timeout_active id s3 g' Hg3 Hp3).
    unfold state_of, trace. cbn [fst snd]. reflexivity. }
  destruct (local_quiet id s3 _ (cleanup_trace_local id s3 g' Hg3)) as (_ & _ & Hsp).
  assert (Hspa : forall t1 t2, spawns (t1 ++ t2) = spawns t1 ++ spawns t2)
    by (intros; apply omap_app).
  rewrite !Hspa, !kills_app, !broadcasts_app, Hsp, cleanup_trace_kills,
    cleanup_trace_broadcasts.
  split; [reflexivity|].
  split; [reflexivity|]. split; [reflexivity|]. split.
  - apply cleaned_inactive.
  - rewrite cleaned_processes. unfold escalated. cbn [processes process g'].
    rewrite lookup_insert_ne by lia.
    unfold s3, s2, s1, started, set_timers, set_now. cbn [processes].
    rewrite lookup_insert_ne by lia. exact Hp.
Qed.

Lemma restart_inherits_timeout_witness :
  exists s' t,
    run json_decode [CallGenerate "job-1" opts0 "c2" None None; Elapse 0; TimerFires 0] s_expired
    = Some (s', t) /\
    spawns t = [1%nat] /\
    kills t = [(1%nat, SIGTERM)] /\
    activeGenerations s' !! "job-1" = None /\
    processes s' !! 0%nat = Some (mkChildProcess "job-1" false false).
Proof.
  destruct (restart_inherits_timeout json_decode s_expired "job-1"
              (mkActiveGeneration "job-1" 0 "/tmp/podcastfy_config_c1.json" 0 (Some 0%nat))
              opts0 "c2" 0 s_expired_reachable eq_refl ltac:(lia) ltac:(vm_compute; discriminate))
    as (h & s' & t & Hh & Hrun & H1 & H2 & _ & H4 & H5).
  injection Hh as <-.
  exists s', t. repeat split; assumption.
Defined.

(* ===================================================================== *)
(** ** Terminal messages of the worker, and the closing of the session     *)
(* ===================================================================== *)

Lemma cleanup_closes id s : closes (trace (cleanupGeneration id s)) = [].
Proof.
  destruct (activeGenerations s !! id) as [g|] eqn:Hg.
  - rewrite (cleanup_active _ _ _ Hg). apply cleanup_trace_closes.
  - now rewrite (cleanup_inactive _ _ Hg).
Qed.

Lemma message_closes id m s :
  closes (trace (handleProgressMessage id m s))
  = if has_type "complete" m then [id] else [].
Proof.
  unfold handleProgressMessage, has_type.
  destruct m; try reflexivity.
  destruct (get_prop "type" _) as [| | | |ty| |]; try reflexivity.
  destruct (String.eqb ty "progress") eqn:E1.
  { apply String.eqb_eq in E1. subst ty. destruct (ToString _) as [text|]; reflexivity. }
  destruct (String.eqb ty "complete").
  { unfold bind at 1 2. simpl. rewrite handleCompletion_eq. simpl.
    rewrite !closes_app, cleanup_closes, !app_nil_r. reflexivity. }
  destruct (String.eqb ty "error"); [|reflexivity].
  unfold bind at 1. unfold log at 1, emit at 1. cbv beta iota.
  case_error_text text Et.
  - rewrite (handleError_eq _ _ _ _ _ Et). unfold trace at 1. cbn [snd].
    now rewrite !closes_app, cleanup_closes.
  - rewrite (handleError_throw _ _ _ _ Et). reflexivity.
Qed.

(** The session of a stream is closed by one thing only, a [complete]
    message of the worker: handling a message closes the session of its id
    exactly when its type is [complete]; and a turn of the loop for any
    other event (a start, a cancellation, an exit or an error of a process,
    output on stderr, a timer) closes no session, so that after an error, a
    cancellation or a timeout the session stays open. *)
Theorem session_closed_only_on_complete JSON_parse :
  (forall id m s,
     closes (trace (handleProgressMessage id m s))
     = if has_type "complete" m then [id] else []) /\
  (forall e s s' t,
     reachable JSON_parse s ->
     step JSON_parse e s = Some (s', t) ->
     (forall p data, e <> StdoutData p data) ->
     closes t = []).
Proof.
  split; [exact message_closes|].
  intros e s s' t Hr Hstep Hne. pose proof (reachable_wf _ _ Hr) as Hwf.
  destruct e as [id o c w sp | id | p data | p data | p code sg | p msg | h | ms];
    simpl in Hstep.
  - injection Hstep as <- <-. destruct w as [msg|]; [|destruct sp as [msg|]].
    + rewrite generate_failed. unfold trace at 1. cbn [snd].
      now rewrite closes_app, cleanup_closes.
    + destruct (generate_spawn_failed id o c msg s) as (cfg & ->).
      unfold trace at 1. cbn [snd]. now rewrite closes_app, cleanup_closes.
    + destruct (generate_ok id o c s) as (cfg & exe & args & ->). reflexivity.
  - injection Hstep as <- <-. destruct (activeGenerations s !! id) as [g|] eqn:Hg.
    + destruct (wf_proc s Hwf _ _ Hg) as [_ Hp].
      rewrite (cancel_active _ _ _ Hg Hp). unfold trace. cbn [snd].
      now rewrite !closes_app, cleanup_trace_closes.
    + now rewrite (cancel_inactive _ _ Hg).
  - now destruct (Hne p data).
  - destruct (processes s !! p) as [cp|]; [|discriminate].
    now injection Hstep as <- <-.
  - destruct (processes s !! p) as [cp|] eqn:Hp; [|discriminate].
    destruct (exited cp); [discriminate|].
    injection Hstep as <- <-.
    set (s1 := set_processes _ s).
    destruct (activeGenerations s1 !! owner cp) as [g|] eqn:Hg.
    + assert (Hz : (exists c, code = Some c /\ c <> 0) \/ code = Some 0 \/ code = None).
      { destruct code as [c|]; [|auto]. destruct (decide (c = 0)); subst; eauto. }
      destruct Hz as [(c & -> & Hc)|Hz].
      * rewrite (exit_nonzero_active _ _ _ _ _ Hg Hc). unfold trace. cbn [snd].
        now rewrite closes_app, cleanup_trace_closes.
      * rewrite (exit_zero_active _ _ _ _ _ Hg Hz). unfold trace. cbn [snd].
        apply cleanup_trace_closes.
    + now rewrite (exit_inactive _ _ _ _ Hg).
  - destruct (processes s !! p) as [cp|]; [|discriminate].
    injection Hstep as <- <-. rewrite process_error_eq. unfold trace at 1. cbn [snd app].
    change (closes (_ :: _ :: _ :: ?l)) with (closes l). apply cleanup_closes.
  - destruct (timers s !! h) as [[due cb]|] eqn:Hh; [|discriminate].
    destruct (due <=? now s); [|discriminate].
    injection Hstep as <- <-. destruct cb as [id | p]; [simpl|].
    + set (s1 := set_timers (delete h) s).
      destruct (activeGenerations s1 !! id) as [g|] eqn:Hg.
      * destruct (wf_proc s Hwf id g Hg) as [_ Hp].
        rewrite (timeout_active id s1 g Hg Hp). unfold trace. cbn [snd].
        now rewrite closes_app, cleanup_trace_closes.
      * now rewrite (timeout_inactive _ _ Hg).
    + rewrite runTimer_killed; [reflexivity|].
      rewrite (is_killed_processes p s) by reflexivity. eapply wf_force; eauto.
  - destruct (0 <=? ms); [|discriminate]. now injection Hstep as <- <-.
Qed.

Lemma session_closed_only_on_complete_witness :
  closes (trace (handleProgressMessage "job-1" (JObj [("type", JStr "complete")]) s_running))
  = ["job-1"] /\
  closes (trace (cancelGeneration "job-1" s_running)) = [].
Proof.
  split.
  - exact (proj1 (session_closed_only_on_complete json_decode) "job-1"
             (JObj [("type", JStr "complete")]) s_running).
  - exact (proj2 (session_closed_only_on_complete json_decode) (CallCancel "job-1")
             s_running _ _ s_running_reachable eq_refl ltac:(discriminate)).
Defined.

(** A [complete] message for an active generation, as a sequence: the
    completion event and then the progress event of 100 are put on the
    stream first, then the cleanup runs (timer, config file, entry), and
    the session is closed last.  The completion event carries the
    [file_path] and the [metadata] of the message; a file path that is
    missing or empty (any falsy value) is replaced by
    [/api/podcasts/<id>/audio.m4a], missing metadata by the empty object. *)
Theorem completion_sequence id message s g h :
  has_type "complete" message = true ->
  activeGenerations s !! id = Some g ->
  timeoutHandle g = Some h ->
  let path := get_prop "file_path" message in
  let meta := get_prop "metadata" message in
  handleProgressMessage id message s
  = (Normal, cleaned id s,
     [Log Debug "Received progress message" id;
      Log Info "Podcast generation completed successfully" id;
      Broadcast id
        (PodcastCompleted id (now s)
           (if ToBoolean path then path
            else JStr ("/api/podcasts/" +:+ id +:+ "/audio.m4a"))
           (if ToBoolean meta then meta else JObj []));
      Broadcast id
        (ProgressEvent id (now s) (JNum (num 100)) "Podcast generation complete!");
      ClearTimeout h;
      Unlink (configFilePath g);
      Log Debug "Cleaned up generation" id;
      CloseSession id]).
Proof.
  intros Hty Hg Hh path meta.
  rewrite (complete_message_eq _ _ _ Hty), handleCompletion_eq.
  rewrite (cleanup_active _ _ _ Hg). unfold trace, cleanup_trace. cbn [snd].
  rewrite Hh. reflexivity.
Qed.

Lemma completion_sequence_witness :
  handleProgressMessage "job-1" (JObj [("type", JStr "complete"); ("file_path", JStr "")])
    s_running
  = (Normal, cleaned "job-1" s_running,
     [Log Debug "Received progress message" "job-1";
      Log Info "Podcast generation completed successfully" "job-1";
      Broadcast "job-1"
        (PodcastCompleted "job-1" 0 (JStr "/api/podcasts/job-1/audio.m4a") (JObj []));
      Broadcast "job-1"
        (ProgressEvent "job-1" 0 (JNum (num 100)) "Podcast generation complete!");
      ClearTimeout 0;
      Unlink "/tmp/podcastfy_config_c1.json";
      Log Debug "Cleaned up generation" "job-1";
      CloseSession "job-1"]).
Proof.
  exact (completion_sequence "job-1"
           (JObj [("type", JStr "complete"); ("file_path", JStr "")]) s_running
           (mkActiveGeneration "job-1" 0 "/tmp/podcastfy_config_c1.json" 0 (Some 0%nat))
           0%nat eq_refl s_running_active eq_refl).
Defined.

(** An [error] message of the worker is put on the stream as one error whose
    text is built from the message: the [error] field, or "Unknown error
    from Python script" when it is missing or falsy, followed by the
    [code] in parentheses when there is one and by nothing otherwise.
    With a code, the text is a template of the two values: when one of
    them has no conversion to a string (an object with a [toString] entry
    of its own), building the text throws; the handler has only logged by
    then, so nothing is put on the stream and the generation is not
    cleaned up. *)
Theorem error_message_text id message s :
  has_type "error" message = true ->
  let err := get_prop "error" message in
  let code := get_prop "code" message in
  let text := if ToBoolean err then err else JStr "Unknown error from Python script" in
  let built :=
    if ToBoolean code
    then match ToString text, ToString code with
         | Some m, Some c => Some (JStr (m +:+ " (" +:+ c +:+ ")"))
         | _, _ => None
         end
    else Some text in
  broadcasts (trace (handleProgressMessage id message s))
  = match built with
    | Some full => [(id, ErrorEvent full id (now s))]
    | None => []
    end /\
  (err = JUndefined -> code = JUndefined ->
   broadcasts (trace (handleProgressMessage id message s))
   = [(id, ErrorEvent (JStr "Unknown error from Python script") id (now s))]) /\
  (forall e c, err = JStr e -> nonempty e = true -> code = JStr c -> nonempty c = true ->
   broadcasts (trace (handleProgressMessage id message s))
   = [(id, ErrorEvent (JStr (e +:+ " (" +:+ c +:+ ")")) id (now s))]) /\
  (forall full, built = Some full ->
   handleProgressMessage id message s
   = (Normal, cleaned id s,
      [Log Debug "Received progress message" id;
       Log Error "Podcast generation error" id;
       Broadcast id (ErrorEvent full id (now s))]
      ++ trace (cleanupGeneration id s))) /\
  (built = None ->
   handleProgressMessage id message s
   = (Throw "TypeError", s,
      [Log Debug "Received progress message" id;
       Log Error "Podcast generation error" id])).
Proof.
  intros Hty err code text built.
  assert (Hb : message_error_text message = built).
  { unfold message_error_text, error_text, built, text, js_or. fold err code.
    destruct (ToBoolean code); [|reflexivity].
    destruct (ToString (if ToBoolean err then err else _)) as [m|]; [|reflexivity].
    destruct (ToString code) as [c|]; reflexivity. }
  assert (H : broadcasts (trace (handleProgressMessage id message s))
              = match built with
                | Some full => [(id, ErrorEvent full id (now s))]
                | None => []
                end).
  { destruct built as [full|] eqn:Eb.
    - rewrite (error_message_eq _ _ _ _ Hty Hb).
      unfold trace at 1. cbn [snd].
      change (broadcasts ([?a; ?b; ?c] ++ ?l)) with (broadcasts ([c] ++ l)).
      rewrite broadcasts_app, cleanup_broadcasts. reflexivity.
    - rewrite (error_message_throw _ _ _ Hty Hb). reflexivity. }
  split; [exact H|]. split; [|split; [|split]].
  - intros He Hc. rewrite H. subst built text. rewrite He, Hc. reflexivity.
  - intros e c He Hne Hc Hnc. rewrite H. subst built text. rewrite He, Hc. simpl.
    rewrite Hne, Hnc. reflexivity.
  - intros full Hf. apply error_message_eq; [exact Hty | now rewrite Hb].
  - intros Hn. apply error_message_throw; [exact Hty | now rewrite Hb].
Qed.

Lemma error_message_text_witness :
  broadcasts (trace (handleProgressMessage "job-1" (JObj [("type", JStr "error")]) s_running))
  = [("job-1", ErrorEvent (JStr "Unknown error from Python script") "job-1" 0)] /\
  handleProgressMessage "job-1" msg_error_odd s_running
  = (Throw "TypeError", s_running,
     [Log Debug "Received progress message" "job-1";
      Log Error "Podcast generation error" "job-1"]).
Proof.
  split.
  - exact (proj1 (proj2 (error_message_text "job-1" (JObj [("type", JStr "error")])
                           s_running eq_refl)) eq_refl eq_refl).
  - exact (proj2 (proj2 (proj2 (proj2 (error_message_text "job-1" msg_error_odd
                                         s_running eq_refl)))) eq_refl).
Defined.

(* ===================================================================== *)
(** ** The config file and the invocation of the worker                    *)
(* ===================================================================== *)










(* ===================================================================== *)
(** ** The routes over the service                                         *)
(* ===================================================================== *)

(** [DELETE /:streamingId] answers for the service.  For an active id it
    cancels the generation and answers 200 with the cancellation message;
    for any other id it answers 404 and changes nothing.  After the
    request, whatever its answer, the id is not active: the status route
    answers 200 with [active: false] and no start time, and a second
    DELETE answers 404.  The status route never changes the state. *)
Theorem delete_route_answers id s :
  let r := route_delete id s in
  (is_Some (activeGenerations s !! id) ->
   result r = mkResponse 200
                (JObj [("success", JBool true);
                       ("message", JStr "Podcast generation cancelled");
                       ("streamingId", JStr id)]) /\
   state_of r = state_of (cancelGeneration id s)) /\
  (activeGenerations s !! id = None ->
   result r = mkResponse 404
                (JObj [("error", JStr "No active generation found for this streaming ID");
                       ("streamingId", JStr id)]) /\
   state_of r = s) /\
  activeGenerations (state_of r) !! id = None /\
  status (result (route_delete id (state_of r))) = 404%nat /\
  result (route_status id (state_of r))
  = mkResponse 200
      (JObj [("success", JBool true); ("streamingId", JStr id); ("active", JBool false)]) /\
  state_of (route_status id s) = s.
Proof.
  intros r.
  assert (Hin : forall s0, activeGenerations s0 !! id = None ->
            result (route_delete id s0)
            = mkResponse 404
                (JObj [("error", JStr "No active generation found for this streaming ID");
                       ("streamingId", JStr id)]) /\
            state_of (route_delete id s0) = s0).
  { intros s0 Hn. unfold route_delete, bind, log, emit.
    rewrite (cancel_inactive _ _ Hn). split; reflexivity. }
  assert (Hst : forall s0, activeGenerations s0 !! id = None ->
            result (route_status id s0)
            = mkResponse 200
                (JObj [("success", JBool true); ("streamingId", JStr id);
                       ("active", JBool false)])).
  { intros s0 Hn. unfold route_status, bind, log, emit, get, ret, getGenerationStatus.
    cbn. rewrite Hn. reflexivity. }
  assert (Hafter : activeGenerations (state_of r) !! id = None).
  { subst r. destruct (activeGenerations s !! id) as [g|] eqn:Hg.
    - unfold route_delete, bind, log, emit. rewrite (cancel_general _ _ _ Hg).
      unfold state_of. cbn [fst snd ret]. apply cleaned_inactive.
    - now rewrite (proj2 (Hin s Hg)). }
  split; [|split; [exact (Hin s)|]].
  - intros [g Hg]. subst r. unfold route_delete, bind, log, emit.
    rewrite (cancel_general _ _ _ Hg). split; reflexivity.
  - split; [exact Hafter|]. split; [|split].
    + now rewrite (proj1 (Hin _ Hafter)).
    + exact (Hst _ Hafter).
    + reflexivity.
Qed.

Lemma delete_route_answers_witness :
  status (result (route_delete "job-1" s_running)) = 200%nat /\
  status (result (route_delete "job-9" s_running)) = 404%nat.
Proof.
  split.
  - exact (f_equal status
             (proj1 (proj1 (delete_route_answers "job-1" s_running)
                       (ex_intro _ _ s_running_active)))).
  - exact (f_equal status
             (proj1 (proj1 (proj2 (delete_route_answers "job-9" s_running)) eq_refl))).
Defined.

(* ===================================================================== *)
(** ** What an active generation holds                                     *)
(* ===================================================================== *)

(** In every state the service can reach, an active generation is filed
    under its own id and holds a worker process of its own, spawned for
    that id, still running and never signalled, and a pending timeout of
    its own, due thirty minutes after its start; it did not start in the
    future.  Two generations that are active under different ids share
    neither the process nor the timer. *)
Theorem active_generation_resources JSON_parse s id g :
  reachable JSON_parse s ->
  activeGenerations s !! id = Some g ->
  streamingId g = id /\
  processes s !! process g = Some (mkChildProcess id false false) /\
  (exists h, timeoutHandle g = Some h /\
             timers s !! h = Some (startTime g + TIMEOUT_MS, OnTimeout id)) /\
  startTime g <= now s /\
  forall id' g', id' <> id -> activeGenerations s !! id' = Some g' ->
                 process g' <> process g /\ timeoutHandle g' <> timeoutHandle g.
Proof.
  intros Hr Hg. pose proof (reachable_wf _ _ Hr) as Hwf.
  destruct (wf_proc s Hwf id g Hg) as [Hid Hp].
  destruct (wf_timer s Hwf id g Hg) as (h & Hh & Ht).
  split; [exact Hid|]. split; [exact Hp|]. split; [eauto|].
  split; [eapply start_before_now; eauto|].
  intros id' g' Hne Hg'.
  destruct (wf_proc s Hwf id' g' Hg') as [_ Hp'].
  destruct (wf_timer s Hwf id' g' Hg') as (h' & Hh' & Ht').
  split.
  - intros E. rewrite E, Hp in Hp'. congruence.
  - rewrite Hh, Hh'. intros [= E]. rewrite E, Ht in Ht'. congruence.
Qed.

Lemma active_generation_resources_witness :
  processes s_running !! 0%nat = Some (mkChildProcess "job-1" false false) /\
  timers s_running !! 0%nat = Some (1800000, OnTimeout "job-1").
Proof.
  destruct (active_generation_resources json_decode s_running "job-1" _
              s_running_reachable s_running_active) as (_ & Hp & (h & Hh & Ht) & _).
  injection Hh as <-. exact (conj Hp Ht).
Defined.

(* ===================================================================== *)
(** ** The metadata serializer and the themes                              *)
(* ===================================================================== *)

Import PodcastMetadataSerializer.

Lemma lookup_field_absent key fields :
  has_key key fields = false -> lookup_field key fields = JUndefined.
Proof.
  induction fields as [|[k v] fields IH]; [reflexivity|].
  cbn [has_key existsb fst lookup_field]. intros [Hk Hr]%orb_false_elim.
  unfold has_key in IH. rewrite (IH Hr), Hk. reflexivity.
Qed.

Lemma lookup_field_here key v rest :
  has_key key rest = false -> lookup_field key ((key, v) :: rest) = v.
Proof.
  intros H. cbn [lookup_field]. rewrite (lookup_field_absent _ _ H).
  now rewrite String.eqb_refl.
Qed.

Lemma lookup_field_skip key k v rest :
  k <> key -> lookup_field key ((k, v) :: rest) = lookup_field key rest.
Proof.
  intros H. cbn [lookup_field]. apply String.eqb_neq in H. rewrite H.
  now destruct (lookup_field key rest).
Qed.

Lemma lookup_field_agree key f1 f2 :
  lookup_field key f1 = lookup_field key f2 ->
  (has_key key f1 && negb (is_nullish (lookup_field key f1)))
  = (has_key key f2 && negb (is_nullish (lookup_field key f2))).
Proof.
  intros E. rewrite <- E.
  destruct (has_key key f1) eqn:H1, (has_key key f2) eqn:H2; try reflexivity.
  - rewrite E, (lookup_field_absent _ _ H2). reflexivity.
  - rewrite (lookup_field_absent _ _ H1). reflexivity.
Qed.

Lemma forallb_ext_elem {A} (f g : A -> bool) l :
  (forall x, x ∈ l -> f x = g x) -> forallb f l = forallb g l.
Proof.
  induction l as [|x l IH]; intros H; [reflexivity|].
  cbn [forallb]. rewrite (H x) by now left. rewrite IH; [reflexivity|].
  intros y Hy. apply H. now right.
Qed.

(** [validate] looks at six fields and at nothing else.  An object is
    accepted exactly when each of [title], [language], [duration],
    [speakers], [chapters] and [theme] has a value that is neither
    [undefined] nor [null]; two objects that agree on these six fields get
    the same answer; an array is rejected, and any other value makes the
    check throw.  The types of the six values are not examined: metadata
    made by [createMetadata] is accepted as soon as its six arguments are
    defined, also when [speakers] is no array and [serialize] throws on
    it. *)
Theorem validate_required_fields :
  (forall fields,
     validate (JObj fields) = Some true <->
     forall k, k ∈ required -> is_nullish (lookup_field k fields) = false) /\
  (forall f1 f2,
     (forall k, k ∈ required -> lookup_field k f1 = lookup_field k f2) ->
     validate (JObj f1) = validate (JObj f2)) /\
  (forall items, validate (JArr items) = Some false) /\
  (forall v, match v with JObj _ | JArr _ => True | _ => validate v = None end) /\
  (forall title language duration speakers chapters theme generationId createdAt,
     validate (createMetadata title language duration speakers chapters theme
                 generationId createdAt)
     = Some (negb (is_nullish title || is_nullish language || is_nullish duration ||
                   is_nullish speakers || is_nullish chapters || is_nullish theme))) /\
  (forall title language duration text chapters theme generationId createdAt,
     serialize (createMetadata title language duration (JStr text) chapters theme
                  generationId createdAt) = None).
Proof.
  split; [|split; [|split; [|split; [|split]]]].
  - intros fields. unfold validate. split.
    + intros H%(inj Some) k Hk. rewrite forallb_forall in H.
      specialize (H k). rewrite <- list_elem_of_In in H. specialize (H Hk).
      apply andb_prop in H as [_ H]. now apply negb_true_iff in H.
    + intros H. f_equal. apply forallb_forall. intros k Hk.
      rewrite <- list_elem_of_In in Hk. specialize (H k Hk).
      rewrite H. cbn [negb]. rewrite andb_true_r.
      destruct (has_key k fields) eqn:Hh; [reflexivity|].
      now rewrite (lookup_field_absent _ _ Hh) in H.
  - intros f1 f2 H. unfold validate. f_equal.
    apply forallb_ext_elem. intros k Hk. apply lookup_field_agree, H, Hk.
  - reflexivity.
  - intros []; exact I || reflexivity.
  - intros. unfold validate, createMetadata, required.
    cbn [forallb].
    repeat (rewrite lookup_field_skip by discriminate);
      repeat (rewrite lookup_field_here by reflexivity;
              repeat (rewrite lookup_field_skip by discriminate)).
    cbn [has_key existsb fst String.eqb Ascii.eqb Bool.eqb orb andb].
    f_equal.
    destruct (is_nullish title), (is_nullish language), (is_nullish duration),
      (is_nullish speakers), (is_nullish chapters), (is_nullish theme); reflexivity.
  - intros. unfold serialize, createMetadata. cbn. reflexivity.
Qed.

Lemma validate_required_fields_witness :
  validate (JObj [("title", JStr "T"); ("language", JNull)]) <> Some true.
Proof.
  intros H.
  pose proof (proj1 (proj1 validate_required_fields
                       [("title", JStr "T"); ("language", JNull)]) H
                "language" ltac:(unfold required; set_solver)) as Hn.
  discriminate Hn.
Defined.

Lemma js_or_truthy a b : ToBoolean b = true -> ToBoolean (js_or a b) = true.
Proof. intros H. unfold js_or. now destruct (ToBoolean a) eqn:E. Qed.

Ltac lookup_obj :=
  repeat progress
    (cbn [get_prop];
     repeat match goal with
            | |- context [lookup_field ?key ((?k, ?v) :: ?rest)] =>
                first [rewrite (lookup_field_skip key k v rest) by discriminate
                      |rewrite (lookup_field_here key v rest) by reflexivity]
            end;
     cbn [lookup_field]).

Lemma mapM_defined {A B} (f : A -> option B) (P : A -> Prop) l :
  (forall x, is_Some (f x) <-> P x) -> is_Some (mapM f l) <-> Forall P l.
Proof.
  intros H. rewrite mapM_is_Some. split; intros HF;
    (eapply Forall_impl; [exact HF|]); intros x; apply H.
Qed.

Lemma serialize_speaker_defined x :
  is_Some (serialize_speaker x) <-> is_nullish x = false.
Proof.
  unfold serialize_speaker. destruct (is_nullish x); split; intros H; eauto.
  - now destruct H.
  - discriminate.
Qed.

Lemma serialize_chapter_defined x :
  is_Some (serialize_chapter x) <-> is_nullish x = false.
Proof.
  unfold serialize_chapter. destruct (is_nullish x); split; intros H; eauto.
  - now destruct H.
  - discriminate.
Qed.

(** When [serialize] throws.  It returns exactly when the metadata is not
    [null] or [undefined], its [speakers] and its [chapters] are arrays
    with no [null] or [undefined] element, and its [theme] is not [null]
    or [undefined]; in every other case it throws a [TypeError].  No other
    field is needed. *)
Theorem serialize_defined_iff metadata :
  is_Some (serialize metadata) <->
  is_nullish metadata = false /\
  (exists sp, get_prop "speakers" metadata = JArr sp /\
              Forall (fun x => is_nullish x = false) sp) /\
  (exists ch, get_prop "chapters" metadata = JArr ch /\
              Forall (fun x => is_nullish x = false) ch) /\
  is_nullish (get_prop "theme" metadata) = false.
Proof.
  unfold serialize. destruct (is_nullish metadata).
  { split; [intros [x Hx]; discriminate | intros [H _]; discriminate]. }
  unfold array_map.
  destruct (get_prop "speakers" metadata) as [| | | | |sp|] eqn:Hsp;
    try (split; [intros [x Hx]; discriminate | intros (_ & (sp & Hs & _) & _); discriminate]).
  pose proof (mapM_defined serialize_speaker _ sp serialize_speaker_defined) as Hdsp.
  destruct (mapM serialize_speaker sp) as [sp'|]; cbn [fmap option_fmap option_map mbind option_bind].
  2:{ split; [intros [x Hx]; discriminate|].
      intros (_ & (sp0 & [= <-] & Hall) & _). apply Hdsp in Hall. now destruct Hall. }
  destruct (get_prop "chapters" metadata) as [| | | | |ch|] eqn:Hch;
    try (split; [intros [x Hx]; discriminate
                | intros (_ & _ & (ch & Hs & _) & _); discriminate]).
  pose proof (mapM_defined serialize_chapter _ ch serialize_chapter_defined) as Hdch.
  destruct (mapM serialize_chapter ch) as [ch'|]; cbn [fmap option_fmap option_map mbind option_bind].
  2:{ split; [intros [x Hx]; discriminate|].
      intros (_ & _ & (ch0 & [= <-] & Hall) & _). apply Hdch in Hall. now destruct Hall. }
  destruct (is_nullish (get_prop "theme" metadata)).
  { split; [intros [x Hx]; discriminate | intros (_ & _ & _ & H); discriminate]. }
  split; [|eauto]. intros _. split; [reflexivity|].
  split; [exists sp; split; [reflexivity | apply Hdsp; eauto]|].
  split; [exists ch; split; [reflexivity | apply Hdch; eauto]|]. reflexivity.
Qed.

Lemma serialize_defined_iff_witness :
  serialize (JObj [("speakers", JArr [JNull]); ("chapters", JArr []); ("theme", JObj [])])
  = None.
Proof.
  destruct (serialize (JObj [("speakers", JArr [JNull]); ("chapters", JArr []);
                             ("theme", JObj [])])) as [out|] eqn:E; [|reflexivity].
  exfalso.
  destruct (proj1 (serialize_defined_iff _) (ex_intro _ out E))
    as (_ & (sp & Hsp & Hall) & _).
  injection Hsp as <-. apply Forall_cons in Hall as [Hn _]. discriminate Hn.
Defined.

(** What [serialize] hands on.  The speakers and the chapters are
    serialized one for one, in their order.  Every serialized speaker keeps
    its name and voice and has a [role] and a [personality] (["host"] and
    ["casual"] where the speaker has none) and no [accent]; every
    serialized chapter keeps its title, times and description and has its
    [topics] and [keyPoints] (empty arrays where the chapter has none);
    the [content] part always has [topics], [tags] and a [difficulty]
    (["intermediate"] by default); the [audio] part of the theme is not
    handed on. *)
Theorem serialize_fills_defaults metadata out :
  serialize metadata = Some out ->
  exists sp ch sp' ch',
    get_prop "speakers" metadata = JArr sp /\
    get_prop "chapters" metadata = JArr ch /\
    get_prop "speakers" out = JArr sp' /\
    get_prop "chapters" out = JArr ch' /\
    Forall2 (fun x y =>
               get_prop "name" y = get_prop "name" x /\
               get_prop "voice" y = get_prop "voice" x /\
               get_prop "role" y = js_or (get_prop "role" x) (JStr "host") /\
               get_prop "personality" y
               = js_or (get_prop "personality" x) (JStr "casual") /\
               ToBoolean (get_prop "role" y) = true /\
               ToBoolean (get_prop "personality" y) = true /\
               get_prop "accent" y = JUndefined) sp sp' /\
    Forall2 (fun x y =>
               get_prop "title" y = get_prop "title" x /\
               get_prop "startTime" y = get_prop "startTime" x /\
               get_prop "duration" y = get_prop "duration" x /\
               get_prop "description" y = get_prop "description" x /\
               get_prop "topics" y = js_or (get_prop "topics" x) (JArr []) /\
               get_prop "keyPoints" y = js_or (get_prop "keyPoints" x) (JArr []) /\
               ToBoolean (get_prop "topics" y) = true /\
               ToBoolean (get_prop "keyPoints" y) = true) ch ch' /\
    get_prop "content" out
    = JObj [("topics", js_or (get_prop "topics" metadata) (JArr []));
            ("tags", js_or (get_prop "tags" metadata) (JArr []));
            ("category", get_prop "category" metadata);
            ("difficulty", js_or (get_prop "difficulty" metadata) (JStr "intermediate"))] /\
    ToBoolean (get_prop "difficulty" (get_prop "content" out)) = true /\
    get_prop "audio" (get_prop "theme" out) = JUndefined.
Proof.
  unfold serialize. destruct (is_nullish metadata); [discriminate|].
  unfold array_map.
  destruct (get_prop "speakers" metadata) as [| | | | |sp|]; try discriminate.
  destruct (mapM serialize_speaker sp) as [sp'|] eqn:Esp; [|discriminate].
  cbn [fmap option_fmap option_map mbind option_bind].
  destruct (get_prop "chapters" metadata) as [| | | | |ch|]; try discriminate.
  destruct (mapM serialize_chapter ch) as [ch'|] eqn:Ech; [|discriminate].
  cbn [fmap option_fmap option_map mbind option_bind].
  destruct (is_nullish (get_prop "theme" metadata)); [discriminate|].
  intros [= <-]. exists sp, ch, sp', ch'.
  split; [reflexivity|]. split; [reflexivity|].
  split; [lookup_obj; reflexivity|]. split; [lookup_obj; reflexivity|].
  split; [|split; [|split; [|split]]].
  - apply mapM_Some in Esp. eapply Forall2_impl; [exact Esp|].
    intros x y. unfold serialize_speaker. destruct (is_nullish x); [discriminate|].
    intros [= <-]. lookup_obj. repeat split; now apply js_or_truthy.
  - apply mapM_Some in Ech. eapply Forall2_impl; [exact Ech|].
    intros x y. unfold serialize_chapter. destruct (is_nullish x); [discriminate|].
    intros [= <-]. lookup_obj. repeat split; now apply js_or_truthy.
  - lookup_obj. reflexivity.
  - lookup_obj. now apply js_or_truthy.
  - lookup_obj. reflexivity.
Qed.

Lemma serialize_fills_defaults_witness :
  exists out,
    serialize (JObj [("speakers", JArr [JObj [("name", JStr "Alex"); ("accent", JStr "en-GB")]]);
                     ("chapters", JArr []); ("theme", JObj [("audio", JObj [])])])
    = Some out /\
    get_prop "speakers" out
    = JArr [JObj [("name", JStr "Alex"); ("voice", JUndefined); ("role", JStr "host");
                  ("personality", JStr "casual")]] /\
    ToBoolean (get_prop "difficulty" (get_prop "content" out)) = true.
Proof.
  eexists. split; [reflexivity|]. split; [reflexivity|].
  match goal with |- ToBoolean (get_prop _ (get_prop _ ?out)) = true =>
    destruct (serialize_fills_defaults
                (JObj [("speakers",
                        JArr [JObj [("name", JStr "Alex"); ("accent", JStr "en-GB")]]);
                       ("chapters", JArr []); ("theme", JObj [("audio", JObj [])])])
                out eq_refl)
      as (sp & ch & sp' & ch' & _ & _ & _ & _ & _ & _ & _ & H & _)
  end.
  exact H.
Defined.

(** Metadata made by [createMetadata] from arrays of speakers and chapters
    and a theme goes through [serialize], and the result carries what was
    given and the constants of [createMetadata]: the title, language and
    duration as given and the creation time; format [mp3] and two channels,
    with no bitrate, sample rate or file size; no topics, no tags and no
    category, at difficulty [intermediate]; the generation id as given, at
    version [1.0.0]. *)
Theorem created_metadata_serializes title language duration sp ch theme generationId
    createdAt :
  Forall (fun x => is_nullish x = false) sp ->
  Forall (fun x => is_nullish x = false) ch ->
  is_nullish theme = false ->
  exists out,
    serialize (createMetadata title language duration (JArr sp) (JArr ch) theme
                 generationId createdAt) = Some out /\
    get_prop "title" out = title /\
    get_prop "language" out = language /\
    get_prop "duration" out = duration /\
    get_prop "createdAt" out = JStr createdAt /\
    get_prop "technical" out
    = JObj [("format", JStr "mp3"); ("bitrate", JUndefined); ("sampleRate", JUndefined);
            ("channels", JNum (num 2)); ("fileSize", JUndefined)] /\
    get_prop "content" out
    = JObj [("topics", JArr []); ("tags", JArr []); ("category", JUndefined);
            ("difficulty", JStr "intermediate")] /\
    get_prop "generation" out
    = JObj [("id", generationId); ("version", JStr "1.0.0");
            ("processingTime", JUndefined)].
Proof.
  intros Hsp Hch Hth.
  set (m := createMetadata title language duration (JArr sp) (JArr ch) theme
              generationId createdAt).
  assert (Hd : is_Some (serialize m)).
  { apply serialize_defined_iff. split; [reflexivity|].
    split; [exists sp; split; [unfold m, createMetadata; lookup_obj; reflexivity|exact Hsp]|].
    split; [exists ch; split; [unfold m, createMetadata; lookup_obj; reflexivity|exact Hch]|].
    unfold m, createMetadata. lookup_obj. exact Hth. }
  destruct Hd as [out Hout]. exists out. split; [exact Hout|].
  revert Hout. unfold serialize. change (is_nullish m) with false. cbv iota.
  destruct (array_map serialize_speaker (get_prop "speakers" m)) as [sp'|];
    [|discriminate].
  cbn [mbind option_bind].
  destruct (array_map serialize_chapter (get_prop "chapters" m)) as [ch'|];
    [|discriminate].
  cbn [mbind option_bind].
  destruct (is_nullish (get_prop "theme" m)); [discriminate|].
  intros H%(inj Some). subst out. unfold m, createMetadata. lookup_obj.
  repeat split; reflexivity.
Qed.

Lemma created_metadata_serializes_witness :
  exists out,
    serialize (createMetadata (JStr "T") (JStr "en-US") (JNum (num 300)) (JArr []) (JArr [])
                 (JObj [("name", JStr "default")]) (JStr "g1") "2025-01-01T00:00:00.000Z")
    = Some out /\
    get_prop "duration" out = JNum (num 300).
Proof.
  destruct (created_metadata_serializes (JStr "T") (JStr "en-US") (JNum (num 300)) [] []
              (JObj [("name", JStr "default")]) (JStr "g1") "2025-01-01T00:00:00.000Z"
              (List.Forall_nil _) (List.Forall_nil _) eq_refl) as (out & H1 & _ & _ & H2 & _).
  exists out. split; assumption.
Defined.

(** [getTheme] answers with a theme of the table for every name that is
    not inherited from [Object.prototype]: the theme filed under that name
    if there is one, and the default theme for every other name (the empty
    name included).  The theme returned carries the name of its key, and
    every theme of the table is found under its own name. *)
Theorem getTheme_known_or_default themeName :
  themeName ∉ Object_prototype_names ->
  (exists key t,
     getTheme themeName = Some t /\
     (key, t) ∈ themes /\
     get_prop "name" t = JStr key /\
     is_nullish t = false /\
     (key = themeName \/ (key = "default" /\ themeName ∉ themes.*1))) /\
  (forall key t, (key, t) ∈ themes -> getTheme key = Some t).
Proof.
  intros Hp. split.
  - unfold getTheme. rewrite bool_decide_eq_false_2 by exact Hp.
    destruct (decide (themeName = "default")) as [-> | H1].
    { do 2 eexists. split; [reflexivity|]. split; [repeat constructor|].
      split; [reflexivity|]. split; [reflexivity | now left]. }
    destruct (decide (themeName = "minimalist")) as [-> | H2].
    { do 2 eexists. split; [reflexivity|]. split; [repeat constructor|].
      split; [reflexivity|]. split; [reflexivity | now left]. }
    destruct (decide (themeName = "professional")) as [-> | H3].
    { do 2 eexists. split; [reflexivity|]. split; [repeat constructor|].
      split; [reflexivity|]. split; [reflexivity | now left]. }
    destruct (decide (themeName = "casual")) as [-> | H4].
    { do 2 eexists. split; [reflexivity|]. split; [repeat constructor|].
      split; [reflexivity|]. split; [reflexivity | now left]. }
    exists "default". eexists. split.
    { unfold PODCAST_THEMES at 1. cbn [get_prop].
      rewrite !lookup_field_skip by congruence. reflexivity. }
    split; [repeat constructor|]. split; [reflexivity|]. split; [reflexivity|].
    right. split; [reflexivity|].
    unfold themes, PODCAST_THEMES. cbn [fmap list_fmap fst].
    rewrite !elem_of_cons, elem_of_nil. intuition congruence.
  - intros key t. unfold themes, PODCAST_THEMES.
    rewrite !elem_of_cons, elem_of_nil.
    intros [H | [H | [H | [H | []]]]]; injection H as -> ->; reflexivity.
Qed.

Lemma getTheme_known_or_default_witness :
  exists t, getTheme "corporate" = Some t /\ get_prop "name" t = JStr "default".
Proof.
  destruct (proj1 (getTheme_known_or_default "corporate"
                     ltac:(unfold Object_prototype_names;
                           rewrite !elem_of_cons, elem_of_nil; intuition discriminate)))
    as (key & t & Ht & _ & Hn & _ & [Hk | [Hk _]]).
  - exfalso. subst key. revert Ht Hn. vm_compute. intros [= <-]. discriminate.
  - subst key. eauto.
Defined.

(* ===================================================================== *)
(** ** Accounting for the config files                                     *)
(* ===================================================================== *)

Lemma size_delete_active id (m : gmap string ActiveGeneration) g :
  m !! id = Some g -> size m = S (size (delete id m)).
Proof.
  intros H. rewrite <- (insert_delete_id m id g H) at 1.
  apply map_size_insert_None, lookup_delete_eq.
Qed.

Lemma cleanup_count id s :
  (length (unlinks (trace (cleanupGeneration id s)))
   + size (activeGenerations (cleaned id s)))%nat
  = size (activeGenerations s).
Proof.
  destruct (activeGenerations s !! id) as [g|] eqn:Hg.
  - rewrite (cleanup_active _ _ _ Hg). unfold trace. cbn [snd].
    rewrite cleanup_trace_unlinks, cleaned_active, (size_delete_active _ _ _ Hg).
    reflexivity.
  - rewrite (cleanup_inactive _ _ Hg), (cleaned_inactive_id _ _ Hg). reflexivity.
Qed.

Lemma message_count id m s :
  (length (unlinks (trace (handleProgressMessage id m s)))
   + size (activeGenerations (state_of (handleProgressMessage id m s))))%nat
  = size (activeGenerations s).
Proof.
  pose proof (cleanup_count id s) as Hc.
  destruct (message_cases id m s)
    as [(c & t & -> & Hl) | [(ev & _ & _ & ->) | [[_ ->] | (text & _ & _ & ->)]]].
  - destruct (logs_quiet _ Hl) as (_ & Hu & _).
    unfold state_of, trace. cbn [fst snd]. now rewrite Hu.
  - reflexivity.
  - rewrite handleCompletion_eq. unfold state_of, trace in *. cbn [fst snd] in *.
    change (unlinks (_ :: ?l)) with (unlinks l).
    rewrite !unlinks_app. simpl. rewrite ?app_nil_r. exact Hc.
  - unfold state_of, trace in *. cbn [fst snd] in *.
    rewrite unlinks_app. exact Hc.
Qed.

Lemma stdout_count JSON_parse id data s :
  (length (unlinks (trace (handleStdoutData JSON_parse id data s)))
   + size (activeGenerations (state_of (handleStdoutData JSON_parse id data s))))%nat
  = size (activeGenerations s).
Proof.
  rewrite handleStdoutData_visit. revert s.
  induction (stdout_lines data) as [|line ls IH]; intros s; [reflexivity|].
  cbn [for_each]. unfold bind.
  assert (Hv : (length (unlinks (trace (visit JSON_parse id line s)))
                + size (activeGenerations (state_of (visit JSON_parse id line s))))%nat
               = size (activeGenerations s)).
  { unfold visit. destruct (JSON_parse line) as [m|]; [|reflexivity].
    pose proof (message_count id m s) as Hm. unfold dispatch, bind.
    destruct (handleProgressMessage id m s) as [[[|e] s1] t1];
      unfold state_of, trace in *; simpl in *; rewrite unlinks_app; simpl;
      rewrite app_nil_r; exact Hm. }
  destruct (visit JSON_parse id line s) as [[[] s1] t1].
  specialize (IH s1). destruct (for_each ls (visit JSON_parse id) s1) as [[[] s2] t2].
  unfold state_of, trace in *. simpl in *.
  rewrite unlinks_app, length_app. lia.
Qed.

Lemma step_count JSON_parse e s s' t :
  wf s -> step JSON_parse e s = Some (s', t) ->
  (length (unlinks t) + size (activeGenerations s') + leaks e s)%nat
  = (size (activeGenerations s) + length (staged t))%nat.
Proof.
  intros Hwf. destruct e as [id o c w sp | id | p data | p data | p code sg | p msg | h | ms];
    simpl.
  - intros [= <- <-]. destruct w as [msg|]; [|destruct sp as [msg|]].
    + rewrite generate_failed.
      pose proof (cleanup_count id s) as Hc.
      destruct (local_quiet id s _ (cleanup_local id s)) as (Hst & _).
      set (tc := trace (cleanupGeneration id s)) in *.
      unfold state_of, trace. cbn [fst snd].
      rewrite unlinks_app, staged_app, Hst. unfold state_of, trace in *; cbn [fst snd] in *; unfold unlinks, staged in *; cbn [omap list_omap app length] in *; first [lia | reflexivity].
    + destruct (generate_spawn_failed id o c msg s) as (cfg & ->).
      pose proof (cleanup_count id s) as Hc.
      destruct (local_quiet id s _ (cleanup_local id s)) as (Hst & _).
      set (tc := trace (cleanupGeneration id s)) in *.
      unfold state_of, trace. cbn [fst snd].
      rewrite unlinks_app, staged_app, Hst. unfold state_of, trace in *; cbn [fst snd] in *; unfold unlinks, staged in *; cbn [omap list_omap app length] in *; first [lia | reflexivity].
    + destruct (generate_ok id o c s) as (cfg & exe & args & ->).
      unfold state_of, trace. cbn [fst snd]. unfold started. cbn [activeGenerations].
      destruct (activeGenerations s !! id) as [g|] eqn:Hg.
      * rewrite map_size_insert_Some by eauto. unfold state_of, trace in *; cbn [fst snd] in *; unfold unlinks, staged in *; cbn [omap list_omap app length] in *; first [lia | reflexivity].
      * rewrite map_size_insert_None by exact Hg. unfold state_of, trace in *; cbn [fst snd] in *; unfold unlinks, staged in *; cbn [omap list_omap app length] in *; first [lia | reflexivity].
  - intros [= <- <-]. destruct (activeGenerations s !! id) as [g|] eqn:Hg.
    + destruct (wf_proc s Hwf _ _ Hg) as [_ Hp].
      rewrite (cancel_active _ _ _ Hg Hp). unfold state_of, trace. cbn [fst snd].
      destruct (local_quiet id s _ (cleanup_trace_local id s g Hg)) as (Hst & _).
      rewrite !unlinks_app, !staged_app, cleanup_trace_unlinks, Hst, cleaned_active.
      unfold escalated. cbn [activeGenerations].
      rewrite (size_delete_active _ _ _ Hg). unfold state_of, trace in *; cbn [fst snd] in *; unfold unlinks, staged in *; cbn [omap list_omap app length] in *; first [lia | reflexivity].
    + rewrite (cancel_inactive _ _ Hg). unfold state_of, trace in *; cbn [fst snd] in *; unfold unlinks, staged in *; cbn [omap list_omap app length] in *; first [lia | reflexivity].
  - destruct (processes s !! p) as [cp|]; [|discriminate].
    intros [= <- <-].
    pose proof (stdout_count JSON_parse (owner cp) data s) as Hc.
    destruct (stdout_local JSON_parse (owner cp) data s) as [Hl _].
    destruct (local_quiet _ _ _ Hl) as (Hst & _). rewrite Hst.
    cbn [length]. rewrite !Nat.add_0_r. exact Hc.
  - destruct (processes s !! p) as [cp|]; [|discriminate].
    intros [= <- <-]. reflexivity.
  - destruct (processes s !! p) as [cp|] eqn:Hp; [|discriminate].
    destruct (exited cp); [discriminate|].
    intros [= <- <-].
    set (s1 := set_processes _ s).
    destruct (local_quiet _ _ _ (exit_local (owner cp) code sg s1)) as (Hst & _).
    rewrite Hst, exit_state.
    change (size (activeGenerations s)) with (size (activeGenerations s1)).
    destruct (activeGenerations s1 !! owner cp) as [g|] eqn:Hg.
    + assert (Hu : unlinks (trace (handleProcessExit (owner cp) code sg s1))
                   = [configFilePath g]).
      { assert (Hz : (exists c, code = Some c /\ c <> 0) \/ code = Some 0 \/ code = None).
        { destruct code as [c|]; [|auto]. destruct (decide (c = 0)); subst; eauto. }
        destruct Hz as [(c & -> & Hc)|Hz].
        - rewrite (exit_nonzero_active _ _ _ _ _ Hg Hc). unfold trace. cbn [snd].
          now rewrite unlinks_app, cleanup_trace_unlinks.
        - rewrite (exit_zero_active _ _ _ _ _ Hg Hz). unfold trace. cbn [snd].
          apply (cleanup_trace_unlinks (owner cp) g). }
      rewrite Hu, cleaned_active, (size_delete_active _ _ _ Hg). unfold state_of, trace in *; cbn [fst snd] in *; unfold unlinks, staged in *; cbn [omap list_omap app length] in *; first [lia | reflexivity].
    + rewrite (exit_inactive _ _ _ _ Hg), (cleaned_inactive_id _ _ Hg). unfold state_of, trace in *; cbn [fst snd] in *; unfold unlinks, staged in *; cbn [omap list_omap app length] in *; first [lia | reflexivity].
  - destruct (processes s !! p) as [cp|]; [|discriminate].
    intros [= <- <-]. rewrite process_error_eq.
    pose proof (cleanup_count (owner cp) s) as Hc.
    destruct (local_quiet _ _ _ (cleanup_local (owner cp) s)) as (Hst & _).
    set (tc := trace (cleanupGeneration (owner cp) s)) in *.
    unfold state_of, trace. cbn [fst snd app].
    change (unlinks (_ :: _ :: _ :: ?l)) with (unlinks l).
    change (staged (_ :: _ :: _ :: ?l)) with (staged l).
    rewrite Hst. unfold state_of, trace in *; cbn [fst snd] in *; unfold unlinks, staged in *; cbn [omap list_omap app length] in *; first [lia | reflexivity].
  - destruct (timers s !! h) as [[due cb]|] eqn:Hh; [|discriminate].
    destruct (due <=? now s); [|discriminate].
    intros [= <- <-]. destruct cb as [id | p]; [simpl|].
    + set (s1 := set_timers (delete h) s).
      destruct (activeGenerations s1 !! id) as [g|] eqn:Hg.
      * destruct (wf_proc s Hwf id g Hg) as [_ Hp].
        rewrite (timeout_active id s1 g Hg Hp). unfold state_of, trace. cbn [fst snd].
        destruct (local_quiet id s _ (cleanup_trace_local id s g Hg)) as (Hst & _).
        rewrite !unlinks_app, !staged_app, cleanup_trace_unlinks, Hst, cleaned_active.
        unfold escalated. cbn [activeGenerations].
        change (activeGenerations s1) with (activeGenerations s) in Hg |- *.
        rewrite (size_delete_active _ _ _ Hg). unfold state_of, trace in *; cbn [fst snd] in *; unfold unlinks, staged in *; cbn [omap list_omap app length] in *; first [lia | reflexivity].
      * rewrite (timeout_inactive _ _ Hg). unfold state_of, trace in *; cbn [fst snd] in *; unfold unlinks, staged in *; cbn [omap list_omap app length] in *; first [lia | reflexivity].
    + rewrite runTimer_killed; [unfold state_of, trace in *; cbn [fst snd] in *; unfold unlinks, staged in *; cbn [omap list_omap app length] in *; first [lia | reflexivity]|].
      rewrite (is_killed_processes p s) by reflexivity. eapply wf_force; eauto.
  - destruct (0 <=? ms); [|discriminate]. intros [= <- <-]. unfold state_of, trace in *; cbn [fst snd] in *; unfold unlinks, staged in *; cbn [omap list_omap app length] in *; first [lia | reflexivity].
Qed.

(** The config files are accounted for.  In every turn of the loop, the
    files written are matched by the generations that become active, and
    the files deleted by the generations that cease to be: the number of
    deletions plus the number of active generations afterwards equals the
    number of active generations before plus the number of files written,
    except in two kinds of turn, each of which leaves one file behind for
    good ([leaks]): a start under an id that is already active, where the
    file of the replaced generation falls out of the books without being
    deleted, and a start whose config file is written and whose worker
    cannot be spawned ([spawn()] throws), where the file just written is
    never registered.  So over a whole run the deletions and the active
    generations together never exceed the files written. *)
Theorem config_files_accounted JSON_parse :
  (forall e s s' t,
     reachable JSON_parse s ->
     step JSON_parse e s = Some (s', t) ->
     (length (unlinks t) + getActiveGenerationCount s' + leaks e s)%nat
     = (getActiveGenerationCount s + length (staged t))%nat) /\
  (forall env es s t,
     run JSON_parse es (initial env) = Some (s, t) ->
     (length (unlinks t) + getActiveGenerationCount s <= length (staged t))%nat).
Proof.
  split.
  - intros e s s' t Hr Hstep.
    apply (step_count JSON_parse); [exact (reachable_wf _ _ Hr) | exact Hstep].
  - intros env es s t.
    assert (G : forall es s0 s t, wf s0 -> run JSON_parse es s0 = Some (s, t) ->
                (length (unlinks t) + size (activeGenerations s)
                 <= size (activeGenerations s0) + length (staged t))%nat).
    { clear. intros es. induction es as [|ev es IH]; intros s0 s t Hwf; simpl.
      - intros [= <- <-]. simpl. lia.
      - destruct (step JSON_parse ev s0) as [[s1 t1]|] eqn:E; [|discriminate].
        destruct (run JSON_parse es s1) as [[s2 t2]|] eqn:R; [|discriminate].
        intros [= <- <-].
        pose proof (step_count _ _ _ _ _ Hwf E) as H1.
        pose proof (IH s1 s2 t2 (step_wf _ _ _ _ _ Hwf E) R) as H2.
        rewrite unlinks_app, staged_app, !length_app. lia. }
    intros Hrun. specialize (G es (initial env) s t (wf_initial env) Hrun).
    unfold getActiveGenerationCount.
    change (size (activeGenerations (initial env))) with (size (∅ : gmap string ActiveGeneration)) in G.
    rewrite map_size_empty in G. lia.
Qed.

Lemma config_files_accounted_witness :
  (exists s' t,
     step json_decode (CallGenerate "job-1" opts0 "c2" None None) s_running = Some (s', t) /\
     (length (unlinks t) + getActiveGenerationCount s' + 1)%nat
     = (getActiveGenerationCount s_running + length (staged t))%nat) /\
  (exists s' t,
     step json_decode (CallGenerate "job-2" opts0 "c2" None (Some "spawn EINVAL")) s_running
     = Some (s', t) /\
     (length (unlinks t) + getActiveGenerationCount s' + 1)%nat
     = (getActiveGenerationCount s_running + length (staged t))%nat).
Proof.
  split; do 2 eexists; (split; [reflexivity|]).
  - exact (proj1 (config_files_accounted json_decode)
             (CallGenerate "job-1" opts0 "c2" None None) s_running _ _
             s_running_reachable eq_refl).
  - exact (proj1 (config_files_accounted json_decode)
             (CallGenerate "job-2" opts0 "c2" None (Some "spawn EINVAL")) s_running _ _
             s_running_reachable eq_refl).
Defined.
